(** * DNS-coordinated failover: lease codec, failover controller,
      ownership follower and parity reconcilers

    A shallow embedding of the control loops of the repository
    ([dns_failover.py], [otel_watcher.py], [victoriametrics/vm_sync.py],
    [clickhouse/ch-sync/ch_sync.py]) together with the properties they are
    documented to have.

    Conventions of the embedding.
    - A Python [str] is a [string]; a character is read as the code point
      0..255 it denotes, so the whitespace and digit classes below are the
      restriction of Python's Unicode classes to that range.
    - A Python [int] is a [Z] (the interpreter's limit on the number of
      digits accepted by [int()] and produced by [str()] is not modelled).
    - A Python [dict] is a [gmap]; [d.get(k)] is [d !! k].
    - The outside world (clock, DNS, health endpoints, datastores, child
      processes) enters each loop as an explicit per-tick record of what it
      answered; loops are folds over the list of those records. *)

From Stdlib Require Import ZArith QArith String Ascii List Bool Lia.
From Stdlib Require Import Floats Uint63.
From Stdlib Require Import DecimalString DecimalPos DecimalN DecimalZ.
From stdpp Require Import base option list gmap strings sorting.

Local Open Scope string_scope.
Local Open Scope list_scope.
Local Open Scope Z_scope.

(** ** Python built-ins used by the sources *)

Module Py.

(** Exceptions that the modelled code can raise and does not catch itself. *)
Inductive exn : Type :=
| ValueError
| ProviderError.

Inductive result (A : Type) : Type :=
| Ok (a : A)
| Raise (e : exn).
Arguments Ok {A} a.
Arguments Raise {A} e.

Definition code (c : ascii) : nat := nat_of_ascii c.

(** [str.isspace] on one character, code points below 256. *)
Definition is_space (c : ascii) : bool :=
  let n := code c in
  ((9 <=? n) && (n <=? 13) || (28 <=? n) && (n <=? 32)
   || (n =? 133) || (n =? 160))%nat.

(** Decimal digits below code point 256 are exactly ['0'..'9']. *)
Definition is_digit (c : ascii) : bool :=
  let n := code c in ((48 <=? n) && (n <=? 57))%nat.

Definition digit_val (c : ascii) : Z := Z.of_nat (code c) - 48.

Definition ascii_eqb (a b : ascii) : bool := Ascii.eqb a b.

(** [s.replace(c, '')] for a one-character pattern. *)
Fixpoint remove_char (c : ascii) (s : string) : string :=
  match s with
  | EmptyString => EmptyString
  | String a s' =>
      if ascii_eqb a c then remove_char c s' else String a (remove_char c s')
  end.

(** [s.split()]: maximal runs of non-whitespace characters, in order. *)
Fixpoint split (s : string) : list string :=
  match s with
  | EmptyString => []
  | String c s' =>
      if is_space c then split s'
      else
        match s' with
        | EmptyString => [String c EmptyString]
        | String c' _ =>
            if is_space c' then String c EmptyString :: split s'
            else
              match split s' with
              | t :: ts => String c t :: ts
              | [] => [String c EmptyString]
              end
        end
  end.

(** [c in s]. *)
Fixpoint contains (c : ascii) (s : string) : bool :=
  match s with
  | EmptyString => false
  | String a s' => ascii_eqb a c || contains c s'
  end.

(** [s.split(c, 1)] when [c in s]: the text before and after the first [c]. *)
Fixpoint split1 (c : ascii) (s : string) : option (string * string) :=
  match s with
  | EmptyString => None
  | String a s' =>
      if ascii_eqb a c then Some (EmptyString, s')
      else
        match split1 c s' with
        | Some (k, v) => Some (String a k, v)
        | None => None
        end
  end.

(** [s.lstrip()], [s.rstrip()] and [s.strip()], for the characters that
    satisfy [blank]. *)
Fixpoint lstrip_by (blank : ascii -> bool) (s : string) : string :=
  match s with
  | EmptyString => EmptyString
  | String c s' => if blank c then lstrip_by blank s' else s
  end.

Fixpoint rstrip_by (blank : ascii -> bool) (s : string) : string :=
  match s with
  | EmptyString => EmptyString
  | String c s' =>
      match rstrip_by blank s' with
      | EmptyString => if blank c then EmptyString else String c EmptyString
      | r => String c r
      end
  end.

Definition strip_by (blank : ascii -> bool) (s : string) : string :=
  rstrip_by blank (lstrip_by blank s).

Definition strip (s : string) : string := strip_by is_space s.

(** The blanks [int()] skips around a literal: the Unicode whitespace,
    except the separators 28..31, which it rejects. *)
Definition is_int_space (c : ascii) : bool :=
  let n := code c in
  ((9 <=? n) && (n <=? 13) || (n =? 32) || (n =? 133) || (n =? 160))%nat.

(** The digit part of an [int()] literal in base 10: digits, with single
    underscores allowed between two digits. [after_digit] tells whether the
    previous character was a digit. *)
Fixpoint int_digits (s : string) (acc : Z) (after_digit : bool) : option Z :=
  match s with
  | EmptyString => if after_digit then Some acc else None
  | String c s' =>
      if is_digit c then int_digits s' (10 * acc + digit_val c) true
      else if ascii_eqb c "_" then
        if after_digit then int_digits s' acc false else None
      else None
  end.

(** [int(s)] for a [str] argument: surrounding blanks are dropped, one
    optional sign, then the digits; anything else is a [ValueError]. *)
Definition int (s : string) : result Z :=
  let body (t : string) (sign : Z) :=
    match int_digits t 0 false with
    | Some n => Ok (sign * n)
    | None => Raise ValueError
    end in
  match strip_by is_int_space s with
  | String c t =>
      if ascii_eqb c "+" then body t 1
      else if ascii_eqb c "-" then body t (-1)
      else body (String c t) 1
  | EmptyString => body EmptyString 1
  end.

(** [s.split(c)] for a one-character separator: empty pieces are kept. *)
Fixpoint split_on (c : ascii) (s : string) : list string :=
  match s with
  | EmptyString => [EmptyString]
  | String a s' =>
      if ascii_eqb a c then EmptyString :: split_on c s'
      else
        match split_on c s' with
        | t :: ts => String a t :: ts
        | [] => [String a EmptyString]
        end
  end.

(** [s.startswith(p)]. *)
Fixpoint startswith (p s : string) : bool :=
  match p, s with
  | EmptyString, _ => true
  | String a p', String b s' => ascii_eqb a b && startswith p' s'
  | String _ _, EmptyString => false
  end.

(** [l[-1]] of a list of strings produced by [split_on] (never empty). *)
Definition last_piece (l : list string) : string := List.last l EmptyString.

(** [str(n)] for an [int]. *)
Definition str (n : Z) : string := NilEmpty.string_of_int (Z.to_int n).

(** Truthiness of an optional string ([None] and [''] are false). *)
Definition truthy (o : option string) : bool :=
  match o with
  | Some (String _ _) => true
  | _ => false
  end.

End Py.

(** ** Lease codec ([dns_failover.py], utilities and providers) *)

Module Lease.

Definition dquote : ascii := ascii_of_nat 34.

(** Body of the loop of [parse_txt]: a token containing ['='] is split at
    its first ['='] and stored, later tokens overwriting earlier ones. *)
Definition add_part (result : gmap string string) (part : string)
  : gmap string string :=
  if Py.contains "=" part then
    match Py.split1 "=" part with
    | Some (k, v) => <[k:=v]> result
    | None => result
    end
  else result.

(** [parse_txt(txt)]; the argument is [records.get('TXT')], so it may be
    [None]. *)
Definition parse_txt (txt : option string) : gmap string string :=
  match txt with
  | Some s =>
      if Py.truthy txt
      then foldl add_part ∅ (Py.split (Py.remove_char dquote s))
      else ∅
  | None => ∅
  end.

(** [txt_data.get('owner')]. *)
Definition owner_of (txt_data : gmap string string) : option string :=
  txt_data !! "owner".

(** [int(txt_data.get('exp', '0')) if txt_data.get('exp') else 0]. *)
Definition exp_of (txt_data : gmap string string) : Py.result Z :=
  if Py.truthy (txt_data !! "exp")
  then Py.int (default "0" (txt_data !! "exp"))
  else Py.Ok 0.

(** The decoded lease, as [heartbeat_dr] and [show_dns] read it. *)
Definition decode (txt : option string) : Py.result (option string * Z) :=
  let txt_data := parse_txt txt in
  match exp_of txt_data with
  | Py.Ok e => Py.Ok (owner_of txt_data, e)
  | Py.Raise x => Py.Raise x
  end.

(** The TXT value every provider publishes: [f'owner={owner} exp={exp_unix}']. *)
Definition encode (owner : string) (exp_unix : Z) : string :=
  ("owner=" ++ owner ++ " exp=" ++ Py.str exp_unix)%string.

End Lease.

(** ** Failover controller ([dns_failover.py], core operations and loops) *)

Module Failover.

Record Config : Type := {
  role : string;
  primary_ip : string;
  dr_ip : string;
  lease_ttl : Z;
  update_interval : Z;
  fail_threshold : Z
}.

(** One call [provider.set_records(ip, owner, exp_unix)]. *)
Record write : Type := SetRecords {
  w_ip : string;
  w_owner : string;
  w_exp : Z
}.

#[export] Instance write_eq_dec : EqDecision write.
Proof. solve_decision. Defined.

(** The dry-run provider keeps the two records in a JSON state file. *)
Record zone : Type := {
  zone_A : option string;
  zone_TXT : option string
}.

Definition DryRun_set_records (w : write) : zone :=
  {| zone_A := Some (w_ip w);
     zone_TXT := Some (Lease.encode (w_owner w) (w_exp w)) |}.

(** [None] is a missing state file. *)
Definition DryRun_get_records (statefile : option zone) : zone :=
  match statefile with
  | Some z => {| zone_A := zone_A z; zone_TXT := zone_TXT z |}
  | None => {| zone_A := None; zone_TXT := None |}
  end.

Definition init_dns (cfg : Config) (now : Z) : write :=
  SetRecords (primary_ip cfg) "primary" (now + lease_ttl cfg).

Definition promote_to_dr (cfg : Config) (now : Z) : write :=
  SetRecords (dr_ip cfg) "dr" (now + lease_ttl cfg).

Definition failback_to_primary (cfg : Config) (now : Z) : write :=
  SetRecords (primary_ip cfg) "primary" (now + lease_ttl cfg).

(** One iteration of [heartbeat_primary]; [now] is what [now_unix()]
    returned. A provider failure is caught and logged, so the iteration
    always issues this one call. *)
Definition primary_tick (cfg : Config) (now : Z) : write :=
  SetRecords (primary_ip cfg) "primary" (now + lease_ttl cfg).

Definition heartbeat_primary (cfg : Config) (clocks : list Z) : list write :=
  map (primary_tick cfg) clocks.

(** What the world answers during one iteration of [heartbeat_dr]. *)
Record dr_env : Type := {
  probe : bool;                          (* the health check's verdict *)
  records_TXT : Py.result (option string); (* provider.get_records().get('TXT') *)
  clock_check : Z;   (* now_unix() in the test [exp_unix < now_unix()] *)
  clock_write : Z;   (* now_unix() when the new expiry is computed *)
  set_ok : bool      (* provider.set_records returns normally *)
}.

(** Result of one iteration: the calls issued, and either the new value of
    [consecutive_failures] or the exception that ends the loop. *)
Record dr_step : Type := {
  issued : list write;
  next : Py.result Z
}.

Definition after_write (env : dr_env) (fails : Z) (w : write) : dr_step :=
  {| issued := [w];
     next := if set_ok env then Py.Ok fails else Py.Raise Py.ProviderError |}.

(** [consecutive_failures] after the probe of this iteration. *)
Definition count_failures (fails : Z) (env : dr_env) : Z :=
  if probe env then 0 else fails + 1.

Definition dr_tick (cfg : Config) (fails : Z) (env : dr_env) : dr_step :=
  let fails' := count_failures fails env in
  if probe env then {| issued := []; next := Py.Ok fails' |}
  else if fail_threshold cfg <=? fails' then
    match records_TXT env with
    | Py.Raise x => {| issued := []; next := Py.Raise x |}
    | Py.Ok txt =>
        let txt_data := Lease.parse_txt txt in
        let current_owner := Lease.owner_of txt_data in
        match Lease.exp_of txt_data with
        | Py.Raise x => {| issued := []; next := Py.Raise x |}
        | Py.Ok exp_unix =>
            if bool_decide (current_owner = Some "dr") then
              after_write env fails'
                (SetRecords (dr_ip cfg) "dr" (clock_write env + lease_ttl cfg))
            else if exp_unix <? clock_check env then
              after_write env fails' (promote_to_dr cfg (clock_write env))
            else {| issued := []; next := Py.Ok fails' |}
        end
    end
  else {| issued := []; next := Py.Ok fails' |}.

(** Log of one executed iteration of the DR loop. *)
Record dr_obs : Type := {
  o_env : dr_env;
  o_fails : Z;           (* consecutive_failures after the probe *)
  o_writes : list write
}.

(** [heartbeat_dr], started with [consecutive_failures = fails]: the log of
    the iterations that run until the world's answers are used up or an
    exception leaves the loop. *)
Fixpoint heartbeat_dr_from (cfg : Config) (fails : Z) (envs : list dr_env)
  : list dr_obs :=
  match envs with
  | [] => []
  | env :: rest =>
      let st := dr_tick cfg fails env in
      let obs := {| o_env := env; o_fails := count_failures fails env;
                    o_writes := issued st |} in
      match next st with
      | Py.Ok fails' => obs :: heartbeat_dr_from cfg fails' rest
      | Py.Raise _ => [obs]
      end
  end.

Definition heartbeat_dr (cfg : Config) (envs : list dr_env) : list dr_obs :=
  heartbeat_dr_from cfg 0 envs.

(** The sub-commands of the CLI. *)
Inductive command : Type :=
| Run | Init | Promote | Failback | Show | Validate.

(** All [set_records] calls issued by [main] for a command. [now] feeds the
    one-shot commands, [clocks] the primary loop and [envs] the DR loop. *)
Definition main (cfg : Config) (cmd : command)
    (now : Z) (clocks : list Z) (envs : list dr_env) : list write :=
  match cmd with
  | Validate => []
  | Init => [init_dns cfg now]
  | Promote => [promote_to_dr cfg now]
  | Failback => [failback_to_primary cfg now]
  | Show => []
  | Run =>
      if bool_decide (role cfg = "primary")
      then heartbeat_primary cfg clocks
      else concat (map o_writes (heartbeat_dr cfg envs))
  end.

(** The IP configured for a lease owner. *)
Definition configured_ip (cfg : Config) (owner : string) : option string :=
  if bool_decide (owner = "primary") then Some (primary_ip cfg)
  else if bool_decide (owner = "dr") then Some (dr_ip cfg)
  else None.

End Failover.

(** ** Progress probe ([dns_failover.py], [MetricsHealthChecker]) *)

Module Probe.

Section Checker.

(** Python's [float] type and the three operations the probe uses are left
    abstract: [fzero] is [0.0], [fadd] is [+], [fgt a b] is [a > b], and
    [to_float s] is [float(s)], with [None] for a [ValueError]. *)
Variable float : Type.
Variable fzero : float.
Variable fadd : float -> float -> float.
Variable fgt : float -> float -> bool.
Variable to_float : string -> option float.

Definition newline : ascii := ascii_of_nat 10.

(** What one line of the exposition adds to the total; [None] when the
    line is skipped (blank, comment, other metric, no value, bad number). *)
Definition line_value (metric_name line0 : string) : option float :=
  let line := Py.strip line0 in
  if negb (Py.truthy (Some line)) || Py.startswith "#" line then None
  else if Py.startswith metric_name line then
    if Py.contains "{" line then
      to_float (Py.strip (Py.last_piece (Py.split_on "}" line)))
    else
      match Py.split line with
      | _ :: value_part :: _ => to_float value_part
      | _ => None
      end
  else None.

(** One iteration of the loop over the lines, on [(total, found)]. *)
Definition parse_step (metric_name : string) (acc : float * bool)
    (line : string) : float * bool :=
  match line_value metric_name line with
  | Some value => (fadd acc.1 value, true)
  | None => acc
  end.

Definition parse_metric_value (metrics_text metric_name : string)
  : option float :=
  if negb (Py.truthy (Some metrics_text)) then None
  else
    let '(total, found) :=
      foldl (parse_step metric_name) (fzero, false)
            (Py.split_on newline metrics_text) in
    if found then Some total else None.

Record MetricsHealthChecker : Type := {
  metric_name : string;
  stale_count : Z;
  last_value : option float;
  stale_checks : Z
}.

Definition stale (self : MetricsHealthChecker) (last : option float)
  : bool * MetricsHealthChecker :=
  let n := stale_checks self + 1 in
  (n <? stale_count self,
   {| metric_name := metric_name self; stale_count := stale_count self;
      last_value := last; stale_checks := n |}).

(** [check()]; [metrics_text] is what [fetch_metrics] returned ([None] when
    the endpoint could not be reached). *)
Definition check (self : MetricsHealthChecker) (metrics_text : option string)
  : bool * MetricsHealthChecker :=
  match metrics_text with
  | None => stale self (last_value self)
  | Some text =>
      match parse_metric_value text (metric_name self) with
      | None => stale self (last_value self)
      | Some current_value =>
          match last_value self with
          | None =>
              (true,
               {| metric_name := metric_name self;
                  stale_count := stale_count self;
                  last_value := Some current_value;
                  stale_checks := stale_checks self |})
          | Some last =>
              if fgt current_value last then
                (true,
                 {| metric_name := metric_name self;
                    stale_count := stale_count self;
                    last_value := Some current_value;
                    stale_checks := 0 |})
              else stale self (Some current_value)
          end
      end
  end.

End Checker.

Arguments metric_name {float} _.
Arguments stale_count {float} _.
Arguments last_value {float} _.
Arguments stale_checks {float} _.

End Probe.

(** ** Ownership follower ([otel_watcher.py]) *)

Module Watcher.

(** [OTELCollector]: [process] is the [Popen] handle, carried with whether
    the child is still alive (what [poll()] would report). *)
Record OTELCollector : Type := {
  process : option bool;
  running : bool
}.

(** A call made by the main loop on the collector. *)
Inductive call : Type :=
| Start
| Stop.

#[export] Instance call_eq_dec : EqDecision call.
Proof. solve_decision. Defined.

(** [start()]; [popen_ok] tells whether [subprocess.Popen] succeeds. *)
Definition start (popen_ok : bool) (c : OTELCollector) : OTELCollector :=
  if running c then c
  else if popen_ok then {| process := Some true; running := true |}
  else {| process := process c; running := false |}.

(** [stop()]: whatever happens while signalling, the [finally] clause
    forgets the process. *)
Definition stop (c : OTELCollector) : OTELCollector :=
  if negb (running c) || negb (bool_decide (is_Some (process c))) then c
  else {| process := None; running := false |}.

Definition is_running (c : OTELCollector) : bool :=
  match process c with
  | Some alive => alive
  | None => false
  end.

(** The child exits on its own; the collector object is not told. *)
Definition child_exits (c : OTELCollector) : OTELCollector :=
  match process c with
  | Some _ => {| process := Some false; running := running c |}
  | None => c
  end.

(** What the world does during one iteration of the main loop. *)
Record tick_env : Type := {
  dns : option string;   (* get_dns_ip() *)
  exit_before : bool;    (* the child has exited since the last iteration *)
  popen_ok : bool;       (* Popen succeeds in the start/stop step *)
  exit_between : bool;   (* the child exits before the final check *)
  popen_ok2 : bool       (* Popen succeeds in the final restart *)
}.

Record state : Type := {
  last_state : option bool;
  collector : OTELCollector
}.

Definition initial : state :=
  {| last_state := None; collector := {| process := None; running := false |} |}.

Definition world (happens : bool) (c : OTELCollector) : OTELCollector :=
  if happens then child_exits c else c.

(** One iteration of the [while True] loop of [main]. *)
Definition tick (my_ip : string) (st : state) (env : tick_env)
  : state * list call :=
  let c0 := world (exit_before env) (collector st) in
  match dns env with
  | None => ({| last_state := last_state st; collector := c0 |}, [])
  | Some current_ip =>
      let should_be_active := bool_decide (current_ip = my_ip) in
      let last' :=
        if bool_decide (Some should_be_active <> last_state st)
        then Some should_be_active else last_state st in
      let '(c1, calls1) :=
        if should_be_active then
          if negb (is_running c0) then (start (popen_ok env) c0, [Start])
          else (c0, [])
        else
          if is_running c0 then (stop c0, [Stop]) else (c0, []) in
      let c2 := world (exit_between env) c1 in
      let '(c3, calls2) :=
        if should_be_active && negb (is_running c2)
        then (start (popen_ok2 env) c2, [Start])
        else (c2, []) in
      ({| last_state := last'; collector := c3 |}, calls1 ++ calls2)
  end.

(** The main loop over the iterations described by [envs]: all calls made
    on the collector, in order. *)
Fixpoint main_from (my_ip : string) (st : state) (envs : list tick_env)
  : list call :=
  match envs with
  | [] => []
  | env :: rest =>
      let '(st', calls) := tick my_ip st env in
      calls ++ main_from my_ip st' rest
  end.

Definition main (my_ip : string) (envs : list tick_env) : list call :=
  main_from my_ip initial envs.

(** The values [should_be_active] takes, one per iteration in which the
    name resolved. *)
Definition should_be_active_seq (my_ip : string) (envs : list tick_env)
  : list bool :=
  omap (fun env => (fun ip => bool_decide (ip = my_ip)) <$> dns env) envs.

(** Number of [false -> true] transitions of a sequence that follows the
    value [prev]. *)
Fixpoint rising (prev : bool) (l : list bool) : nat :=
  match l with
  | [] => 0
  | b :: l' => (if negb prev && b then 1 else 0) + rising b l'
  end.

(** Number of [true -> false] transitions. *)
Fixpoint falling (prev : bool) (l : list bool) : nat :=
  match l with
  | [] => 0
  | b :: l' => (if prev && negb b then 1 else 0) + falling b l'
  end.

Definition count_calls (c : call) (l : list call) : nat :=
  length (filter (fun x => x = c) l).

End Watcher.

(** ** VictoriaMetrics reconciler ([victoriametrics/vm_sync.py]) *)

Module VmSync.

Record Config : Type := {
  role : string;
  primary_ip : string;
  dr_ip : string;
  query_step : Z;
  gap_threshold : Q;
  chunk_size : Z;
  failback_clean_checks : Z
}.

Record SyncState : Type := {
  last_check : option string;
  last_sync : option string;
  consecutive_clean : Z;
  failback_ready : bool;
  active_site : option string;
  gaps_detected : Z;
  samples_synced : Z;
  last_error : option string
}.

(** [SyncState()]. *)
Definition fresh : SyncState :=
  {| last_check := None; last_sync := None; consecutive_clean := 0;
     failback_ready := false; active_site := None; gaps_detected := 0;
     samples_synced := 0; last_error := None |}.

Definition get_active_site (cfg : Config) (ip : option string)
  : option string :=
  if bool_decide (ip = Some (primary_ip cfg)) then Some "primary"
  else if bool_decide (ip = Some (dr_ip cfg)) then Some "dr"
  else None.

Definition Qltb (a b : Q) : bool := negb (Qle_bool b a).

(** [dest_count / source_count if source_count > 0 else 0]; the float
    quotient is taken as the exact rational. *)
Definition ratio (dest_count source_count : Z) : Q :=
  if 0 <? source_count then inject_Z dest_count / inject_Z source_count
  else 0%Q.

(** The test applied by [find_gaps] to one item of [source_counts]. *)
Definition is_gap (cfg : Config) (dest_counts : gmap Z Z) (item : Z * Z)
  : bool :=
  let '(ts, source_count) := item in
  let dest_count := default 0 (dest_counts !! ts) in
  if source_count =? 0 then false
  else Qltb (ratio dest_count source_count) (gap_threshold cfg).

Definition find_gaps (cfg : Config) (source_counts dest_counts : gmap Z Z)
  : list Z :=
  merge_sort Z.le
    (map fst (filter (fun item => is_gap cfg dest_counts item = true)
                     (map_to_list source_counts))).

(** The [for] loop of [merge_consecutive]. *)
Fixpoint merge_loop (step start end_ : Z) (ranges : list (Z * Z))
    (timestamps : list Z) : list (Z * Z) :=
  match timestamps with
  | [] => ranges ++ [(start, end_)]
  | ts :: rest =>
      if ts <=? end_ then merge_loop step start (ts + step) ranges rest
      else merge_loop step ts (ts + step) (ranges ++ [(start, end_)]) rest
  end.

Definition merge_consecutive (timestamps : list Z) (step : Z)
  : list (Z * Z) :=
  match timestamps with
  | [] => []
  | t0 :: rest => merge_loop step t0 (t0 + step) [] rest
  end.

(** The chunking [while] loop of [run_sync_check] for one range: the
    chunks handed to [sync_range]. [None] when the fuel runs out. *)
Fixpoint chunk_loop (fuel : nat) (size chunk_start range_end : Z)
  : option (list (Z * Z)) :=
  if chunk_start <? range_end then
    match fuel with
    | O => None
    | S fuel' =>
        let chunk_end := Z.min (chunk_start + size) range_end in
        cons (chunk_start, chunk_end)
          <$> chunk_loop fuel' size chunk_end range_end
    end
  else Some [].

(** With a positive chunk size every iteration advances by at least one,
    so this fuel is enough; with a chunk size of zero or less the loop of
    the source never ends, and the result is [None]. *)
Definition chunks (size : Z) (range : Z * Z) : option (list (Z * Z)) :=
  chunk_loop (Z.to_nat (range.2 - range.1)) size range.1 range.2.

(** All chunks synced for a list of ranges, in order. *)
Fixpoint all_chunks (size : Z) (ranges : list (Z * Z))
  : option (list (Z * Z)) :=
  match ranges with
  | [] => Some []
  | r :: rest =>
      match chunks size r, all_chunks size rest with
      | Some cs, Some more => Some (cs ++ more)
      | _, _ => None
      end
  end.

(** What the world answers during one cycle. *)
Record cycle_env : Type := {
  stamp : string;               (* datetime.now().isoformat() at the start *)
  local_healthy : bool;
  remote_healthy : bool;
  dns_ip : option string;       (* get_dns_ip(...) *)
  local_counts : gmap Z Z;
  remote_counts : gmap Z Z;
  bytes_synced : Z -> Z -> Z;   (* sync_range(source, dest, start, end) *)
  stamp_sync : string           (* isoformat() after the repair *)
}.

Definition determine_sync_direction (cfg : Config) (active : string)
    (local remote : gmap Z Z) : gmap Z Z * gmap Z Z :=
  if bool_decide (active = role cfg) then (local, remote)
  else (remote, local).

Definition with_error (state : SyncState) (e : string) : SyncState :=
  {| last_check := last_check state; last_sync := last_sync state;
     consecutive_clean := consecutive_clean state;
     failback_ready := failback_ready state;
     active_site := active_site state;
     gaps_detected := gaps_detected state;
     samples_synced := samples_synced state;
     last_error := Some e |}.

Definition is_empty_dict (m : gmap Z Z) : bool := bool_decide (m = ∅).

(** [run_sync_check]; [None] when the cycle never returns. *)
Definition run_sync_check (cfg : Config) (state0 : SyncState)
    (env : cycle_env) : option SyncState :=
  let state :=
    {| last_check := Some (stamp env); last_sync := last_sync state0;
       consecutive_clean := consecutive_clean state0;
       failback_ready := failback_ready state0;
       active_site := active_site state0;
       gaps_detected := gaps_detected state0;
       samples_synced := samples_synced state0;
       last_error := last_error state0 |} in
  if negb (local_healthy env) then Some (with_error state "Local VM unhealthy")
  else if negb (remote_healthy env)
  then Some (with_error state "Remote VM unhealthy")
  else
    match get_active_site cfg (dns_ip env) with
    | None => Some (with_error state "DNS lookup failed")
    | Some active =>
        let state :=
          {| last_check := last_check state; last_sync := last_sync state;
             consecutive_clean := consecutive_clean state;
             failback_ready := failback_ready state;
             active_site := Some active;
             gaps_detected := gaps_detected state;
             samples_synced := samples_synced state;
             last_error := last_error state |} in
        if is_empty_dict (local_counts env)
           && is_empty_dict (remote_counts env)
        then Some state
        else
          let '(source_counts, dest_counts) :=
            determine_sync_direction cfg active
              (local_counts env) (remote_counts env) in
          let gaps := find_gaps cfg source_counts dest_counts in
          match gaps with
          | [] =>
              let clean := consecutive_clean state + 1 in
              Some
                {| last_check := last_check state;
                   last_sync := last_sync state;
                   consecutive_clean := clean;
                   failback_ready :=
                     if failback_clean_checks cfg <=? clean
                     then (if negb (failback_ready state) then true
                           else failback_ready state)
                     else failback_ready state;
                   active_site := active_site state;
                   gaps_detected := 0;
                   samples_synced := samples_synced state;
                   last_error := None |}
          | _ =>
              let ranges := merge_consecutive gaps (query_step cfg) in
              match all_chunks (chunk_size cfg) ranges with
              | None => None
              | Some cs =>
                  let total_bytes :=
                    foldl (fun total c => total + bytes_synced env c.1 c.2)
                          0 cs in
                  Some
                    {| last_check := last_check state;
                       last_sync := Some (stamp_sync env);
                       consecutive_clean := 0;
                       failback_ready := false;
                       active_site := active_site state;
                       gaps_detected := Z.of_nat (length gaps);
                       samples_synced := samples_synced state + total_bytes;
                       last_error := None |}
              end
          end
    end.

(** The main loop: the state after each completed cycle. *)
Fixpoint main_from (cfg : Config) (state : SyncState)
    (envs : list cycle_env) : list SyncState :=
  match envs with
  | [] => []
  | env :: rest =>
      match run_sync_check cfg state env with
      | Some state' => state' :: main_from cfg state' rest
      | None => []
      end
  end.

End VmSync.

(** ** ClickHouse reconciler ([clickhouse/ch-sync/ch_sync.py]) *)

Module ChSync.

Record Config : Type := {
  role : string;
  primary_ip : string;
  dr_ip : string;
  auto_create_tables : bool;
  failback_clean_checks : Z
}.

Record SyncState : Type := {
  last_check : option string;
  last_sync : option string;
  consecutive_clean : Z;
  failback_ready : bool;
  active_site : option string;
  tables_checked : Z;
  tables_with_gaps : Z;
  partitions_synced : Z;
  rows_synced : Z;
  tables_created : list string;
  new_tables_detected : list string;
  last_error : option string
}.

(** [SyncState()]. *)
Definition fresh : SyncState :=
  {| last_check := None; last_sync := None; consecutive_clean := 0;
     failback_ready := false; active_site := None; tables_checked := 0;
     tables_with_gaps := 0; partitions_synced := 0; rows_synced := 0;
     tables_created := []; new_tables_detected := []; last_error := None |}.

(** The value stored per table name by [discover_tables]. *)
Record table_info : Type := {
  database : string;
  table : string
}.

Definition get_active_site (cfg : Config) (ip : option string)
  : option string :=
  if bool_decide (ip = Some (primary_ip cfg)) then Some "primary"
  else if bool_decide (ip = Some (dr_ip cfg)) then Some "dr"
  else None.

(** [find_partition_gaps]: the items of [source_partitions] whose
    destination count is smaller, as [(partition, source, dest)]. The
    order of the result is the iteration order of the map. *)
Definition find_partition_gaps (source_partitions dest_partitions
    : gmap string Z) : list (string * Z * Z) :=
  omap (fun item : string * Z =>
          let '(partition, source_count) := item in
          let dest_count := default 0 (dest_partitions !! partition) in
          if dest_count <? source_count
          then Some (partition, source_count, dest_count) else None)
       (map_to_list source_partitions).

(** What the world answers during one cycle. *)
Record cycle_env : Type := {
  stamp : string;
  local_healthy : bool;
  remote_healthy : bool;
  dns_ip : option string;
  local_tables : gmap string table_info;     (* discover_tables, local *)
  remote_tables : gmap string table_info;    (* discover_tables, remote *)
  create_ok : string -> string -> bool;      (* create_table_from_remote *)
  local_partitions : string -> string -> gmap string Z;
  remote_partitions : string -> string -> gmap string Z;
  sync_partition : string -> string -> string -> bool * Z;
  stamp_sync : string
}.

(** The partitions on which [sync_table] calls [sync_partition]. *)
Definition sync_calls (cfg : Config) (source dest : gmap string Z)
    (active : string) : list string :=
  match find_partition_gaps source dest with
  | [] => []
  | gaps =>
      if bool_decide (active = role cfg) then []
      else map (fun g : string * Z * Z => g.1.1) gaps
  end.

(** [sync_table]: [(partitions_synced, rows_synced)]. *)
Definition sync_table (cfg : Config) (env : cycle_env) (info : table_info)
    (source dest : gmap string Z) (active : string) : Z * Z :=
  foldl (fun (acc : Z * Z) partition =>
           let '(success, rows) :=
             sync_partition env (database info) (table info) partition in
           if success then (acc.1 + 1, acc.2 + rows) else acc)
        (0, 0) (sync_calls cfg source dest active).

(** One step of the loop over [remote_tables] that looks for tables
    missing locally; the accumulator is
    [(local_tables, tables_created, new_tables_detected)]. *)
Definition new_table_step (cfg : Config) (env : cycle_env)
    (acc : gmap string table_info * list string * list string)
    (item : string * table_info)
  : gmap string table_info * list string * list string :=
  let '(locals, created, detected) := acc in
  let '(table_name, remote_info) := item in
  if bool_decide (is_Some (locals !! table_name)) then acc
  else if auto_create_tables cfg then
    if create_ok env (database remote_info) (table remote_info)
    then (<[table_name := remote_info]> locals, created ++ [table_name],
          detected)
    else (locals, created, detected ++ [table_name])
  else (locals, created, detected ++ [table_name]).

(** One step of the loop over the tables present on both sides; the
    accumulator is
    [(total_partitions_synced, total_rows_synced, tables_with_gaps)]. *)
Definition table_step (cfg : Config) (env : cycle_env) (active : string)
    (acc : Z * Z * Z) (item : string * table_info) : Z * Z * Z :=
  let '(total_partitions, total_rows, with_gaps) := acc in
  let info := item.2 in
  let locals := local_partitions env (database info) (table info) in
  let remotes := remote_partitions env (database info) (table info) in
  match find_partition_gaps remotes locals with
  | [] => acc
  | _ =>
      let '(ps, rs) := sync_table cfg env info remotes locals active in
      (total_partitions + ps, total_rows + rs, with_gaps + 1)
  end.

Definition with_error (state : SyncState) (e : string) : SyncState :=
  {| last_check := last_check state; last_sync := last_sync state;
     consecutive_clean := consecutive_clean state;
     failback_ready := failback_ready state;
     active_site := active_site state;
     tables_checked := tables_checked state;
     tables_with_gaps := tables_with_gaps state;
     partitions_synced := partitions_synced state;
     rows_synced := rows_synced state;
     tables_created := tables_created state;
     new_tables_detected := new_tables_detected state;
     last_error := Some e |}.

(** [run_sync_check]. The tables to check are visited in the iteration
    order of the map instead of sorted order; only sums over them are
    kept. *)
Definition run_sync_check (cfg : Config) (state0 : SyncState)
    (env : cycle_env) : SyncState :=
  let state :=
    {| last_check := Some (stamp env); last_sync := last_sync state0;
       consecutive_clean := consecutive_clean state0;
       failback_ready := failback_ready state0;
       active_site := active_site state0;
       tables_checked := tables_checked state0;
       tables_with_gaps := 0;
       partitions_synced := partitions_synced state0;
       rows_synced := rows_synced state0;
       tables_created := tables_created state0;
       new_tables_detected := [];
       last_error := last_error state0 |} in
  if negb (local_healthy env)
  then with_error state "Local ClickHouse unhealthy"
  else if negb (remote_healthy env)
  then with_error state "Remote ClickHouse unhealthy"
  else
    match get_active_site cfg (dns_ip env) with
    | None => with_error state "DNS lookup failed"
    | Some active =>
        if bool_decide (active = role cfg) then
          {| last_check := last_check state; last_sync := last_sync state;
             consecutive_clean := consecutive_clean state + 1;
             failback_ready := failback_ready state;
             active_site := Some active;
             tables_checked := tables_checked state;
             tables_with_gaps := tables_with_gaps state;
             partitions_synced := partitions_synced state;
             rows_synced := rows_synced state;
             tables_created := tables_created state;
             new_tables_detected := new_tables_detected state;
             last_error := None |}
        else
          let '(locals, created, detected) :=
            foldl (new_table_step cfg env) (local_tables env, [], [])
                  (map_to_list (remote_tables env)) in
          let to_check :=
            filter (fun item : string * table_info =>
                      is_Some (remote_tables env !! item.1))
                   (map_to_list locals) in
          let '(total_partitions, total_rows, with_gaps) :=
            foldl (table_step cfg env active) (0, 0, 0) to_check in
          let synced := 0 <? total_partitions in
          let clean :=
            negb synced && (with_gaps =? 0)
            && bool_decide (detected = []) in
          let count :=
            if synced then 0
            else if clean then consecutive_clean state + 1
            else 0 in
          {| last_check := last_check state;
             last_sync :=
               if synced then Some (stamp_sync env) else last_sync state;
             consecutive_clean := count;
             failback_ready :=
               if synced then failback_ready state
               else if clean then
                 (if failback_clean_checks cfg <=? count
                  then (if negb (failback_ready state) then true
                        else failback_ready state)
                  else failback_ready state)
               else false;
             active_site := Some active;
             tables_checked := Z.of_nat (length to_check);
             tables_with_gaps := with_gaps;
             partitions_synced := partitions_synced state + total_partitions;
             rows_synced := rows_synced state + total_rows;
             tables_created := tables_created state;
             new_tables_detected := detected;
             last_error :=
               if synced then last_error state
               else if clean then None
               else last_error state |}
    end.

(** The main loop: the state after each cycle. *)
Fixpoint main_from (cfg : Config) (state : SyncState)
    (envs : list cycle_env) : list SyncState :=
  match envs with
  | [] => []
  | env :: rest =>
      let state' := run_sync_check cfg state env in
      state' :: main_from cfg state' rest
  end.

End ChSync.

(** ** The state file ([save_state] of both reconcilers) *)

Module StateFile.

(** File-system calls. *)
Inductive fs_op : Type :=
| MakeDirs (dir : string)            (* os.makedirs(dir, exist_ok=True) *)
| OpenTruncate (path : string)       (* open(path, 'w') *)
| WriteChunk (path : string) (data : string)   (* f.write(data) *)
| Close (path : string)
| Rename (src dst : string).         (* os.rename / os.replace *)

(** The [OSError]s a call can raise. *)
Inductive oserror : Type :=
| FileNotFoundError
| FileExistsError
| IsADirectoryError
| OtherOSError.   (* NotADirectoryError, PermissionError, a full disk, ... *)

Inductive outcome : Type :=
| Returned
| Raised (e : oserror).

(** [posixpath.dirname]. *)
Fixpoint dirname_head (p : string) : option string :=
  match p with
  | EmptyString => None
  | String c p' =>
      match dirname_head p' with
      | Some h => Some (String c h)
      | None => if Py.ascii_eqb c "/" then Some (String c EmptyString) else None
      end
  end.

Fixpoint all_slashes (s : string) : bool :=
  match s with
  | EmptyString => true
  | String c s' => Py.ascii_eqb c "/" && all_slashes s'
  end.

Fixpoint rstrip_slash (s : string) : string :=
  match s with
  | EmptyString => EmptyString
  | String c s' =>
      match rstrip_slash s' with
      | EmptyString =>
          if Py.ascii_eqb c "/" then EmptyString else String c EmptyString
      | r => String c r
      end
  end.

Definition dirname (p : string) : string :=
  match dirname_head p with
  | None => EmptyString
  | Some head => if all_slashes head then head else rstrip_slash head
  end.

(** The directories [os.makedirs(d)] walks: [d], its parent, and so on, up
    to a name that is empty or its own parent. *)
Fixpoint parents (fuel : nat) (d : string) : list string :=
  match fuel with
  | O => []
  | S fuel' =>
      if bool_decide (d = EmptyString) then []
      else
        d :: (if bool_decide (dirname d = d) then []
              else parents fuel' (dirname d))
  end.

Definition ancestors (d : string) : list string :=
  parents (S (String.length d)) d.

(** A file system: what each regular file holds, and the directories.
    Paths are compared as they are written. *)
Record fs : Type := {
  files : gmap string string;
  dirs : gset string
}.

(** What the world decides while [save_state] runs. *)
Record world : Type := {
  mkdir_refused : bool;    (* mkdir fails: permissions, read-only medium *)
  open_refused : bool;     (* open fails likewise *)
  flushed : nat -> nat;    (* characters of the file object's buffer that
                              reach the file during its k-th call *)
  io_error : option nat    (* the call on the file object that fails *)
}.

(** The file system together with the open file object: the text written
    to it that has not reached the file, and the calls made on it. *)
Record state : Type := {
  disk : fs;
  pending : string;
  calls : nat
}.

Definition start (s : fs) : state :=
  {| disk := s; pending := EmptyString; calls := 0 |}.

(** The first [n] characters of a text, and the rest. *)
Fixpoint split_at (n : nat) (s : string) : string * string :=
  match n, s with
  | S n', String c s' =>
      let '(a, b) := split_at n' s' in (String c a, b)
  | _, _ => (EmptyString, s)
  end.

Definition append_to (p data : string) (s : fs) : fs :=
  {| files :=
       <[p := (default EmptyString (files s !! p) ++ data)%string]> (files s);
     dirs := dirs s |}.

(** One call on the file object with [buf] in its buffer: the first [n]
    characters of [buf] reach the file [p]. *)
Definition flush (n : nat) (p buf : string) (s : state) : state :=
  {| disk := append_to p (split_at n buf).1 (disk s);
     pending := (split_at n buf).2;
     calls := S (calls s) |}.

Definition is_file (s : fs) (p : string) : bool :=
  bool_decide (is_Some (files s !! p)).

(** Effect of one call; the error it raises, if any. *)
Definition fs_step (w : world) (s : state) (op : fs_op)
  : state * option oserror :=
  match op with
  | MakeDirs d =>
      if bool_decide (d = EmptyString) then (s, Some FileNotFoundError)
      else if is_file (disk s) d then (s, Some FileExistsError)
      else if existsb (is_file (disk s)) (ancestors d) || mkdir_refused w
      then (s, Some OtherOSError)
      else
        ({| disk := {| files := files (disk s);
                       dirs := dirs (disk s) ∪ list_to_set (ancestors d) |};
            pending := pending s; calls := calls s |}, None)
  | OpenTruncate p =>
      if bool_decide (p ∈ dirs (disk s)) then (s, Some IsADirectoryError)
      else if open_refused w then (s, Some OtherOSError)
      else
        ({| disk := {| files := <[p := EmptyString]> (files (disk s));
                       dirs := dirs (disk s) |};
            pending := EmptyString; calls := 0 |}, None)
  | WriteChunk p data =>
      (flush (flushed w (calls s)) p (pending s ++ data)%string s,
       if bool_decide (io_error w = Some (calls s)) then Some OtherOSError
       else None)
  | Close p =>
      if bool_decide (io_error w = Some (calls s))
      then (flush (flushed w (calls s)) p (pending s) s, Some OtherOSError)
      else (flush (String.length (pending s)) p (pending s) s, None)
  | Rename src dst =>
      match files (disk s) !! src with
      | Some content =>
          ({| disk := {| files := <[dst := content]>
                                    (delete src (files (disk s)));
                         dirs := dirs (disk s) |};
              pending := pending s; calls := calls s |}, None)
      | None => (s, Some FileNotFoundError)
      end
  end.

(** Running calls in order up to the first error: the state after each
    call made, and how the sequence ended. *)
Fixpoint run (w : world) (s : state) (ops : list fs_op)
  : list state * outcome :=
  match ops with
  | [] => ([], Returned)
  | op :: rest =>
      match fs_step w s op with
      | (s', Some e) => ([s'], Raised e)
      | (s', None) =>
          let '(seen, out) := run w s' rest in (s' :: seen, out)
      end
  end.

(** The file system left behind, and the outcome. *)
Definition fs_run (w : world) (s : fs) (ops : list fs_op) : fs * outcome :=
  let '(seen, out) := run w (start s) ops in
  (disk (default (start s) (last seen)), out).

(** What a reader of [path] can see while [ops] execute: the content of
    [path] before the first call and after each call made. *)
Definition observations (w : world) (path : string) (s : fs)
    (ops : list fs_op) : list (option string) :=
  files s !! path
  :: map (fun st => files (disk st) !! path) (run w (start s) ops).1.

(** [save_state(path, state)]: the calls it makes, where [chunks] are the
    pieces [json.dump(state.to_dict(), f, indent=2)] writes to [f]; the
    [with] statement closes [f]. *)
Definition save_state (path : string) (chunks : list string) : list fs_op :=
  [MakeDirs (dirname path); OpenTruncate path]
  ++ map (WriteChunk path) chunks
  ++ [Close path].

Definition is_rename (op : fs_op) : bool :=
  match op with
  | Rename _ _ => true
  | _ => false
  end.

(** The paths a call writes to. *)
Definition written_path (op : fs_op) : option string :=
  match op with
  | OpenTruncate p | WriteChunk p _ => Some p
  | Rename _ dst => Some dst
  | _ => None
  end.

End StateFile.

(** ** More of the failover controller ([dns_failover.py]) *)

Module Controller.

(** The object [show_dns] prints; the [record] entry is the configured
    name. *)
Record view : Type := {
  v_record : string;
  v_A : option string;
  v_owner : option string;
  v_expires_at : option string;
  v_time_remaining : option Z
}.

(** [show_dns], given what [provider.get_records()] returned and the
    clock; a non-numeric [exp] token raises. *)
Definition show_dns (dns_record : string) (records : Failover.zone)
    (now : Z) : Py.result view :=
  let txt_data := Lease.parse_txt (Failover.zone_TXT records) in
  match Lease.exp_of txt_data with
  | Py.Raise x => Py.Raise x
  | Py.Ok exp_unix =>
      Py.Ok {| v_record := dns_record;
               v_A := Failover.zone_A records;
               v_owner := txt_data !! "owner";
               v_expires_at := txt_data !! "exp";
               v_time_remaining :=
                 if exp_unix =? 0 then None else Some (exp_unix - now) |}
  end.

Section MetricsMode.

Variable float : Type.
Variable fzero : float.
Variable fadd : float -> float -> float.
Variable fgt : float -> float -> bool.
Variable to_float : string -> option float.

(** The verdicts of successive calls of [metrics_checker.check()], one
    per fetched exposition. *)
Fixpoint metrics_probes (checker : Probe.MetricsHealthChecker float)
    (fetched : list (option string)) : list bool :=
  match fetched with
  | [] => []
  | text :: rest =>
      let '(healthy, checker') :=
        Probe.check float fzero fadd fgt to_float checker text in
      healthy :: metrics_probes checker' rest
  end.

Definition with_probe (healthy : bool) (env : Failover.dr_env)
  : Failover.dr_env :=
  {| Failover.probe := healthy;
     Failover.records_TXT := Failover.records_TXT env;
     Failover.clock_check := Failover.clock_check env;
     Failover.clock_write := Failover.clock_write env;
     Failover.set_ok := Failover.set_ok env |}.

(** [heartbeat_dr] with [HEALTH_MODE=metrics]: the probe of each
    iteration is the verdict of the checker on what was fetched then. *)
Definition heartbeat_dr_metrics (cfg : Failover.Config)
    (checker : Probe.MetricsHealthChecker float)
    (ticks : list (option string * Failover.dr_env))
  : list Failover.dr_obs :=
  Failover.heartbeat_dr cfg
    (zip_with with_probe (metrics_probes checker (map fst ticks))
       (map snd ticks)).

End MetricsMode.

(** [MetricsHealthChecker(url, metric_name, stale_count, timeout)]. *)
Definition new_checker (float : Type) (name : string) (limit : Z)
  : Probe.MetricsHealthChecker float :=
  {| Probe.metric_name := name; Probe.stale_count := limit;
     Probe.last_value := None; Probe.stale_checks := 0 |}.

End Controller.

(** ** More of the ownership follower ([otel_watcher.py]) *)

Module WatcherRun.

(** The state of the follower's loop after the iterations [envs]. *)
Definition main_state (my_ip : string) (st : Watcher.state)
    (envs : list Watcher.tick_env) : Watcher.state :=
  foldl (fun st env => (Watcher.tick my_ip st env).1) st envs.

End WatcherRun.

(** ** Configuration of the failover controller ([dns_failover.py]) *)

Module Settings.

Definition VALID_PROVIDERS : list string :=
  ["dry-run"; "bind-tsig"; "ad-gss"; "infoblox"; "cloudflare"; "route53";
   "azure-dns"; "gcp-dns"; "f5-gtm"; "script"].

(** The [Config] dataclass: the fields modelled in [Failover.Config], and
    the others that [validate] and [build_provider] read. *)
Record Config : Type := {
  core : Failover.Config;
  provider : string;
  health_mode : string;
  health_url : option string;
  health_metric : option string;
  tsig_keyfile : option string;
  infoblox_host : option string;
  infoblox_username : option string;
  infoblox_password : option string;
  cloudflare_api_token : option string;
  cloudflare_zone_id : option string;
  aws_access_key_id : option string;
  aws_secret_access_key : option string;
  route53_zone_id : option string;
  azure_subscription_id : option string;
  azure_resource_group : option string;
  azure_tenant_id : option string;
  azure_client_id : option string;
  azure_client_secret : option string;
  gcp_project_id : option string;
  gcp_managed_zone : option string;
  f5_host : option string;
  f5_username : option string;
  f5_password : option string;
  script_set : option string;
  script_get : option string
}.

(** What the file system answers to [os.path.exists] and
    [os.access(_, os.X_OK)]. *)
Record files : Type := {
  exists_ : string -> bool;
  executable : string -> bool
}.

(** How an f-string prints an optional string. *)
Definition show (o : option string) : string := default "None" o.

(** [errors.append(msg)] when [missing] holds. *)
Definition need (missing : bool) (msg : string) : list string :=
  if missing then [msg] else [].

Definition required (o : option string) (msg : string) : list string :=
  need (negb (Py.truthy o)) msg.

(** The checks on one script path of the script provider. *)
Definition script_errors (fs : files) (o : option string) (var what : string)
  : list string :=
  if negb (Py.truthy o) then
    [(var ++ " required (path to script that " ++ what ++ " DNS records)")%string]
  else if negb (exists_ fs (show o)) then
    [(var ++ " not found: " ++ show o)%string]
  else if negb (executable fs (show o)) then
    [(var ++ " not executable: " ++ show o)%string]
  else [].

Definition join (sep : string) (l : list string) : string :=
  String.concat sep l.

(** The list [errors] that [validate] builds. *)
Definition validation_errors (cfg : Config) (fs : files) : list string :=
  need (negb (bool_decide (Failover.role (core cfg) ∈ ["primary"; "dr"])))
       ("Invalid ROLE: " ++ Failover.role (core cfg))%string
  ++ need (negb (bool_decide (provider cfg ∈ VALID_PROVIDERS)))
          ("Invalid DNS_PROVIDER: " ++ provider cfg ++ ". Valid: "
           ++ join ", " VALID_PROVIDERS)%string
  ++ (if bool_decide (provider cfg = "bind-tsig") then
        need (negb (exists_ fs (default EmptyString (tsig_keyfile cfg))))
             ("TSIG keyfile not found: " ++ show (tsig_keyfile cfg))%string
      else if bool_decide (provider cfg = "infoblox") then
        required (infoblox_host cfg) "INFOBLOX_HOST required"
        ++ required (infoblox_username cfg) "INFOBLOX_USERNAME required"
        ++ required (infoblox_password cfg) "INFOBLOX_PASSWORD required"
      else if bool_decide (provider cfg = "cloudflare") then
        required (cloudflare_api_token cfg) "CLOUDFLARE_API_TOKEN required"
        ++ required (cloudflare_zone_id cfg) "CLOUDFLARE_ZONE_ID required"
      else if bool_decide (provider cfg = "route53") then
        required (aws_access_key_id cfg) "AWS_ACCESS_KEY_ID required"
        ++ required (aws_secret_access_key cfg) "AWS_SECRET_ACCESS_KEY required"
        ++ required (route53_zone_id cfg) "ROUTE53_ZONE_ID required"
      else if bool_decide (provider cfg = "azure-dns") then
        required (azure_subscription_id cfg) "AZURE_SUBSCRIPTION_ID required"
        ++ required (azure_resource_group cfg) "AZURE_RESOURCE_GROUP required"
        ++ required (azure_tenant_id cfg) "AZURE_TENANT_ID required"
        ++ required (azure_client_id cfg) "AZURE_CLIENT_ID required"
        ++ required (azure_client_secret cfg) "AZURE_CLIENT_SECRET required"
      else if bool_decide (provider cfg = "gcp-dns") then
        required (gcp_project_id cfg) "GCP_PROJECT_ID required"
        ++ required (gcp_managed_zone cfg) "GCP_MANAGED_ZONE required"
      else if bool_decide (provider cfg = "f5-gtm") then
        required (f5_host cfg) "F5_HOST required"
        ++ required (f5_username cfg) "F5_USERNAME required"
        ++ required (f5_password cfg) "F5_PASSWORD required"
      else if bool_decide (provider cfg = "script") then
        script_errors fs (script_set cfg) "SCRIPT_SET" "sets"
        ++ script_errors fs (script_get cfg) "SCRIPT_GET" "gets"
      else [])
  ++ need (negb (bool_decide (health_mode cfg ∈ ["tcp"; "metrics"])))
          ("Invalid HEALTH_MODE: " ++ health_mode cfg
           ++ ". Valid: tcp, metrics")%string
  ++ (if bool_decide (health_mode cfg = "metrics")
         && bool_decide (Failover.role (core cfg) = "dr")
      then
        required (health_url cfg) "HEALTH_URL required when HEALTH_MODE=metrics"
        ++ required (health_metric cfg)
             "HEALTH_METRIC required when HEALTH_MODE=metrics"
      else [])
  ++ need (Failover.lease_ttl (core cfg)
           <=? Failover.update_interval (core cfg))
          ("LEASE_TTL (" ++ Py.str (Failover.lease_ttl (core cfg))
           ++ ") must be > UPDATE_INTERVAL ("
           ++ Py.str (Failover.update_interval (core cfg)) ++ ")")%string.

(** [validate]: raises [ValueError] when any check failed. *)
Definition validate (cfg : Config) (fs : files) : Py.result unit :=
  match validation_errors cfg fs with
  | [] => Py.Ok tt
  | _ => Py.Raise Py.ValueError
  end.

(** The provider classes. *)
Inductive provider_class : Type :=
| DryRunProvider | BindTSIGProvider | ADGSSProvider | InfobloxProvider
| CloudflareProvider | Route53Provider | AzureDNSProvider | GCPDNSProvider
| F5GTMProvider | ScriptProvider.

(** The dictionary [providers] of [build_provider]. *)
Definition providers : gmap string provider_class :=
  list_to_map
    [("dry-run", DryRunProvider); ("bind-tsig", BindTSIGProvider);
     ("ad-gss", ADGSSProvider); ("infoblox", InfobloxProvider);
     ("cloudflare", CloudflareProvider); ("route53", Route53Provider);
     ("azure-dns", AzureDNSProvider); ("gcp-dns", GCPDNSProvider);
     ("f5-gtm", F5GTMProvider); ("script", ScriptProvider)].

(** What [cls(cfg)] needs from outside. The four classes without an
    [__init__] of their own only store [cfg]. The others import
    [requests], [boto3] or [google.cloud] while being constructed, the
    Azure one also logs in over the network and the GCP one reads its
    credentials, so whether they raise is for the world to say. *)
Definition plain_init (cls : provider_class) : bool :=
  match cls with
  | DryRunProvider | BindTSIGProvider | ADGSSProvider | ScriptProvider => true
  | _ => false
  end.

(** [build_provider]; [init_ok] tells whether the world lets the
    constructor of a class with an [__init__] of its own through. *)
Definition build_provider (cfg : Config) (init_ok : bool)
  : Py.result provider_class :=
  match providers !! provider cfg with
  | Some cls =>
      if plain_init cls || init_ok then Py.Ok cls
      else Py.Raise Py.ProviderError
  | None => Py.Raise Py.ValueError
  end.

(** [main] for the commands other than [validate]: the configuration is
    validated and the provider built before anything is written. *)
Definition main (cfg : Config) (fs : files) (init_ok : bool)
    (cmd : Failover.command)
    (now : Z) (clocks : list Z) (envs : list Failover.dr_env)
  : Py.result (list Failover.write) :=
  match cmd with
  | Failover.Validate => Py.Ok []
  | _ =>
      match validate cfg fs with
      | Py.Raise x => Py.Raise x
      | Py.Ok _ =>
          match build_provider cfg init_ok with
          | Py.Raise x => Py.Raise x
          | Py.Ok _ => Py.Ok (Failover.main (core cfg) cmd now clocks envs)
          end
      end
  end.

End Settings.

(** * Vocabulary of the statements *)

Fixpoint all_chars (P : ascii -> bool) (s : string) : bool :=
  match s with
  | EmptyString => true
  | String c s' => P c && all_chars P s'
  end.

Definition no_space (c : ascii) : bool := negb (Py.is_space c).

(** Value of a decimal numeral read left to right after [acc]. *)
Fixpoint uint_val (d : Decimal.uint) (acc : Z) : Z :=
  match d with
  | Decimal.Nil => acc
  | Decimal.D0 d' => uint_val d' (10 * acc + 0)
  | Decimal.D1 d' => uint_val d' (10 * acc + 1)
  | Decimal.D2 d' => uint_val d' (10 * acc + 2)
  | Decimal.D3 d' => uint_val d' (10 * acc + 3)
  | Decimal.D4 d' => uint_val d' (10 * acc + 4)
  | Decimal.D5 d' => uint_val d' (10 * acc + 5)
  | Decimal.D6 d' => uint_val d' (10 * acc + 6)
  | Decimal.D7 d' => uint_val d' (10 * acc + 7)
  | Decimal.D8 d' => uint_val d' (10 * acc + 8)
  | Decimal.D9 d' => uint_val d' (10 * acc + 9)
  end.

(** The characters of [str(n)]: digits and a possible leading minus. *)
Definition numeric_char (c : ascii) : bool :=
  Py.is_digit c || Py.ascii_eqb c "-".

(** Characters that survive [parse_txt]'s quote removal and tokenizing. *)
Definition plain (c : ascii) : bool :=
  no_space c && negb (Py.ascii_eqb c Lease.dquote).

(** A call that pairs an owner with the IP configured for it. *)
Definition coherent (cfg : Failover.Config) (w : Failover.write) : Prop :=
  (Failover.w_owner w = "primary"
   /\ Failover.w_ip w = Failover.primary_ip cfg)
  \/ (Failover.w_owner w = "dr" /\ Failover.w_ip w = Failover.dr_ip cfg).

(** The world behaves during an iteration of the follower: the child does
    not exit on its own and [Popen] succeeds. *)
Definition calm (env : Watcher.tick_env) : Prop :=
  Watcher.exit_before env = false
  /\ Watcher.exit_between env = false
  /\ Watcher.popen_ok env = true.

(** The collector the follower holds when the last resolved value of
    [should_be_active] was [active]. *)
Definition collector_for (active : bool) : Watcher.OTELCollector :=
  if active
  then {| Watcher.process := Some true; Watcher.running := true |}
  else {| Watcher.process := None; Watcher.running := false |}.

(** The follower's state is in step with the last resolved
    [should_be_active]. *)
Definition in_step (prev : bool) (st : Watcher.state) : Prop :=
  default false (Watcher.last_state st) = prev
  /\ Watcher.collector st = collector_for prev.

(** The three ways a completed cycle of the VictoriaMetrics reconciler
    changes the failback bookkeeping. *)
Inductive vm_outcome (cfg : VmSync.Config) (st : VmSync.SyncState)
    (env : VmSync.cycle_env) (st' : VmSync.SyncState) : Prop :=
| vm_skipped :
    VmSync.failback_ready st' = VmSync.failback_ready st ->
    VmSync.consecutive_clean st' = VmSync.consecutive_clean st ->
    vm_outcome cfg st env st'
| vm_clean (active : string) :
    VmSync.get_active_site cfg (VmSync.dns_ip env) = Some active ->
    (let '(source, dest) :=
       VmSync.determine_sync_direction cfg active (VmSync.local_counts env)
         (VmSync.remote_counts env) in
     VmSync.find_gaps cfg source dest = []) ->
    VmSync.consecutive_clean st' = VmSync.consecutive_clean st + 1 ->
    VmSync.failback_ready st' =
      (if VmSync.failback_clean_checks cfg <=? VmSync.consecutive_clean st'
       then true else VmSync.failback_ready st) ->
    vm_outcome cfg st env st'
| vm_repaired :
    VmSync.consecutive_clean st' = 0 ->
    VmSync.failback_ready st' = false ->
    vm_outcome cfg st env st'.

(** A time [t] lies in the bucket of one of the timestamps [gs]. *)
Definition in_bucket (gs : list Z) (step t : Z) : Prop :=
  exists g, g ∈ gs /\ g <= t < g + step.

Definition range_in_buckets (gs : list Z) (step : Z) (r : Z * Z) : Prop :=
  forall t, r.1 <= t < r.2 -> in_bucket gs step t.

(** A collector whose child has exited while its [running] flag is set. *)
Definition orphaned (c : Watcher.OTELCollector) : Prop :=
  Watcher.process c = Some false /\ Watcher.running c = true.

(** The collector's [running] flag is set exactly when it holds a process
    handle. *)
Definition consistent (c : Watcher.OTELCollector) : Prop :=
  Watcher.running c = bool_decide (is_Some (Watcher.process c)).

(** The ranges [merge_consecutive] builds, without the accumulator: the
    range under construction is [(start, end_)]. *)
Fixpoint merge_rec (step start end_ : Z) (timestamps : list Z)
  : list (Z * Z) :=
  match timestamps with
  | [] => [(start, end_)]
  | ts :: rest =>
      if ts <=? end_ then merge_rec step start (ts + step) rest
      else (start, end_) :: merge_rec step ts (ts + step) rest
  end.

(** One range ends strictly before the next one starts. *)
Definition apart (r r' : Z * Z) : Prop := r.2 < r'.1.

(** The chunks [cs] cut the interval from [a] to [b] into non-empty
    consecutive pieces (no piece when the interval is empty). *)
Fixpoint tiling (a b : Z) (cs : list (Z * Z)) : Prop :=
  match cs with
  | [] => b <= a
  | c :: rest => c.1 = a /\ a < c.2 /\ c.2 <= b /\ tiling c.2 b rest
  end.

(** A cycle of the VictoriaMetrics reconciler that finds both stores
    healthy, resolves the active site, gets data and sees no gap. *)
Definition vm_clean_cycle (cfg : VmSync.Config) (env : VmSync.cycle_env)
  : Prop :=
  VmSync.local_healthy env = true
  /\ VmSync.remote_healthy env = true
  /\ (VmSync.local_counts env <> ∅ \/ VmSync.remote_counts env <> ∅)
  /\ exists active,
       VmSync.get_active_site cfg (VmSync.dns_ip env) = Some active
       /\ VmSync.find_gaps cfg
            (VmSync.determine_sync_direction cfg active
               (VmSync.local_counts env) (VmSync.remote_counts env)).1
            (VmSync.determine_sync_direction cfg active
               (VmSync.local_counts env) (VmSync.remote_counts env)).2
          = [].

(** A cycle of the VictoriaMetrics reconciler that finds both stores
    healthy, resolves the active site and sees at least one gap. *)
Definition vm_gap_cycle (cfg : VmSync.Config) (env : VmSync.cycle_env)
  : Prop :=
  VmSync.local_healthy env = true
  /\ VmSync.remote_healthy env = true
  /\ exists active,
       VmSync.get_active_site cfg (VmSync.dns_ip env) = Some active
       /\ VmSync.find_gaps cfg
            (VmSync.determine_sync_direction cfg active
               (VmSync.local_counts env) (VmSync.remote_counts env)).1
            (VmSync.determine_sync_direction cfg active
               (VmSync.local_counts env) (VmSync.remote_counts env)).2
          <> [].

(** The partitions whose copy succeeded, among those tried, and the rows
    counted for a list of partitions. *)
Definition copied (env : ChSync.cycle_env) (info : ChSync.table_info)
    (calls : list string) : list string :=
  filter (fun p =>
            (ChSync.sync_partition env (ChSync.database info)
               (ChSync.table info) p).1 = true)
         calls.

Definition rows_of (env : ChSync.cycle_env) (info : ChSync.table_info)
    (partitions : list string) : Z :=
  foldr (fun p total =>
           (ChSync.sync_partition env (ChSync.database info)
              (ChSync.table info) p).2 + total)
        0 partitions.

(** The state of the file [path] while [doc] is being written: it holds a
    beginning of [doc], no other file differs from those of [s0], and the
    directories are those of [s0]. *)
Definition writing (path doc : string) (s0 : StateFile.fs)
    (st : StateFile.state) : Prop :=
  (exists c rest, StateFile.files (StateFile.disk st) !! path = Some c
                  /\ doc = (c ++ rest)%string)
  /\ (forall q, q <> path ->
                StateFile.files (StateFile.disk st) !! q
                = StateFile.files s0 !! q)
  /\ StateFile.dirs (StateFile.disk st) = StateFile.dirs s0.

(** * Scenarios *)

Module FailoverScenarios.

Import Failover.

Definition cfg : Config :=
  {| role := "dr"; primary_ip := "10.10.10.10"; dr_ip := "10.20.20.10";
     lease_ttl := 60; update_interval := 10; fail_threshold := 3 |}.

(** An unhealthy probe at time [now] with the TXT record [txt]. *)
Definition down (txt : option string) (now : Z) : dr_env :=
  {| probe := false; records_TXT := Py.Ok txt; clock_check := now;
     clock_write := now; set_ok := true |}.

End FailoverScenarios.

Module WatcherScenarios.

Import Watcher.

Definition my_ip : string := "10.20.20.20".

(** An uneventful iteration that resolves the name to [ip]. *)
Definition resolves (ip : string) : tick_env :=
  {| dns := Some ip; exit_before := false; popen_ok := true;
     exit_between := false; popen_ok2 := true |}.

(** The child has exited on its own before this iteration. *)
Definition after_crash (ip : string) : tick_env :=
  {| dns := Some ip; exit_before := true; popen_ok := true;
     exit_between := false; popen_ok2 := true |}.

End WatcherScenarios.

Module ProbeScenarios.

(** Binary64 floats for running the probe on sample expositions. This
    reader accepts decimal integer literals from 0 to 2^53 - 1 only, on
    which it agrees with [float()]. *)
Definition float_of_literal (s : string) : option PrimFloat.float :=
  match Py.int s with
  | Py.Ok z =>
      if (0 <=? z) && (z <? 2 ^ 53)
      then Some (PrimFloat.of_uint63 (Uint63.of_Z z)) else None
  | Py.Raise _ => None
  end.

Definition fgt (a b : PrimFloat.float) : bool := PrimFloat.ltb b a.

Definition parse_metric_value : string -> string -> option PrimFloat.float :=
  Probe.parse_metric_value PrimFloat.float PrimFloat.zero PrimFloat.add
    float_of_literal.

Definition check :=
  Probe.check PrimFloat.float PrimFloat.zero PrimFloat.add fgt float_of_literal.

Definition nl : string := String Probe.newline EmptyString.

(** Two label permutations of one counter, and an unrelated metric. *)
Definition exposition : string :=
  ("# TYPE accepted counter" ++ nl
   ++ "accepted{receiver=prometheus} 12345" ++ nl
   ++ "accepted{receiver=otlp} 6789" ++ nl
   ++ "refused 7" ++ nl)%string.


Definition checker (limit : Z) (last : option PrimFloat.float) (stale : Z)
  : Probe.MetricsHealthChecker PrimFloat.float :=
  {| Probe.metric_name := "accepted"; Probe.stale_count := limit;
     Probe.last_value := last; Probe.stale_checks := stale |}.


End ProbeScenarios.

Module StateFileScenarios.

Definition path : string := "/state/vm-sync-state.json".

Definition q : string := String Lease.dquote EmptyString.
Definition nl : string := String Probe.newline EmptyString.

(** The pieces [json.dump(..., indent=2)] writes for a one-field
    document, and the document they add up to. *)
Definition chunks_for (clean : string) : list string :=
  ["{"; (nl ++ "  ")%string; (q ++ "consecutive_clean" ++ q)%string; ": ";
   clean; nl; "}"].

Definition doc_for (clean : string) : string :=
  String.concat EmptyString (chunks_for clean).

Definition old_doc : string := doc_for "2".
Definition new_chunks : list string := chunks_for "3".
Definition new_doc : string := doc_for "3".

(** The state directory with an earlier document in the state file. *)
Definition before : StateFile.fs :=
  {| StateFile.files := {[ path := old_doc ]};
     StateFile.dirs := {[ "/"; "/state" ]} |}.

(** A world that refuses nothing and keeps what is written in the file
    object's buffer until the close. *)
Definition buffered : StateFile.world :=
  {| StateFile.mkdir_refused := false; StateFile.open_refused := false;
     StateFile.flushed := fun _ => 0%nat; StateFile.io_error := None |}.

End StateFileScenarios.

Module GateScenarios.

Definition vm_cfg : VmSync.Config :=
  {| VmSync.role := "dr"; VmSync.primary_ip := "10.10.10.10";
     VmSync.dr_ip := "10.20.20.10"; VmSync.query_step := 300;
     VmSync.gap_threshold := 9 # 10; VmSync.chunk_size := 300;
     VmSync.failback_clean_checks := 3 |}.

(** Both stores healthy and in parity while the name resolves to [ip]. *)
Definition vm_parity (ip : string) : VmSync.cycle_env :=
  {| VmSync.stamp := "t1"; VmSync.local_healthy := true;
     VmSync.remote_healthy := true; VmSync.dns_ip := Some ip;
     VmSync.local_counts := {[ 0 := 5 ]};
     VmSync.remote_counts := {[ 0 := 5 ]};
     VmSync.bytes_synced := fun _ _ => 0; VmSync.stamp_sync := "t2" |}.

Definition ch_cfg : ChSync.Config :=
  {| ChSync.role := "dr"; ChSync.primary_ip := "10.10.10.10";
     ChSync.dr_ip := "10.20.20.10"; ChSync.auto_create_tables := false;
     ChSync.failback_clean_checks := 3 |}.

(** Both stores healthy and without tables while the name resolves to
    [ip]. *)
Definition ch_idle (ip : string) : ChSync.cycle_env :=
  {| ChSync.stamp := "t1"; ChSync.local_healthy := true;
     ChSync.remote_healthy := true; ChSync.dns_ip := Some ip;
     ChSync.local_tables := ∅; ChSync.remote_tables := ∅;
     ChSync.create_ok := fun _ _ => false;
     ChSync.local_partitions := fun _ _ => ∅;
     ChSync.remote_partitions := fun _ _ => ∅;
     ChSync.sync_partition := fun _ _ _ => (false, 0);
     ChSync.stamp_sync := "t2" |}.

(** The primary is active; the one table has a partition with 1000 rows
    there and 600 rows locally, and copying it succeeds. *)
Definition ch_behind : ChSync.cycle_env :=
  let info := {| ChSync.database := "db"; ChSync.table := "t" |} in
  {| ChSync.stamp := "t1"; ChSync.local_healthy := true;
     ChSync.remote_healthy := true; ChSync.dns_ip := Some "10.10.10.10";
     ChSync.local_tables := {[ "db.t" := info ]};
     ChSync.remote_tables := {[ "db.t" := info ]};
     ChSync.create_ok := fun _ _ => false;
     ChSync.local_partitions := fun _ _ => {[ "20240102" := 600 ]};
     ChSync.remote_partitions := fun _ _ => {[ "20240102" := 1000 ]};
     ChSync.sync_partition := fun _ _ _ => (true, 1000);
     ChSync.stamp_sync := "t2" |}.

Definition vm_view (st : VmSync.SyncState) : bool * option string * Z :=
  (VmSync.failback_ready st, VmSync.active_site st,
   VmSync.consecutive_clean st).

Definition ch_view (st : ChSync.SyncState) : bool * option string * Z :=
  (ChSync.failback_ready st, ChSync.active_site st,
   ChSync.consecutive_clean st).

End GateScenarios.

Module GapScenarios.

Definition cfg : VmSync.Config := GateScenarios.vm_cfg.

(** The source has one bucket; the destination has more samples in it and
    two buckets of its own. *)
Definition source_counts : gmap Z Z := {[ 300 := 10 ]}.
Definition dest_counts : gmap Z Z := {[ 0 := 4; 300 := 12; 600 := 9 ]}.

(** The same reconciler started with [GAP_THRESHOLD=1.5]. *)
Definition wide_cfg : VmSync.Config :=
  {| VmSync.role := "dr"; VmSync.primary_ip := "10.10.10.10";
     VmSync.dr_ip := "10.20.20.10"; VmSync.query_step := 300;
     VmSync.gap_threshold := 3 # 2; VmSync.chunk_size := 300;
     VmSync.failback_clean_checks := 3 |}.

(** The primary is active, so the remote store is the source; the local
    store holds the surplus. *)
Definition surplus : VmSync.cycle_env :=
  {| VmSync.stamp := "t1"; VmSync.local_healthy := true;
     VmSync.remote_healthy := true; VmSync.dns_ip := Some "10.10.10.10";
     VmSync.local_counts := dest_counts;
     VmSync.remote_counts := source_counts;
     VmSync.bytes_synced := fun _ _ => 64; VmSync.stamp_sync := "t2" |}.

(** A state in which failback readiness has been reached. *)
Definition ready : VmSync.SyncState :=
  {| VmSync.last_check := Some "t0"; VmSync.last_sync := None;
     VmSync.consecutive_clean := 3; VmSync.failback_ready := true;
     VmSync.active_site := Some "primary"; VmSync.gaps_detected := 0;
     VmSync.samples_synced := 0; VmSync.last_error := None |}.

Definition source_partitions : gmap string Z := {[ "20240102" := 1000 ]}.
Definition dest_partitions : gmap string Z :=
  {[ "20240101" := 50; "20240102" := 1200 ]}.

End GapScenarios.

Module SettingsScenarios.

(** The defaults of [Config.from_env] for the DR site, with the dry-run
    provider. *)
Definition cfg : Settings.Config :=
  {| Settings.core := FailoverScenarios.cfg;
     Settings.provider := "dry-run";
     Settings.health_mode := "tcp";
     Settings.health_url := None;
     Settings.health_metric := Some "otelcol_receiver_accepted_metric_points";
     Settings.tsig_keyfile := Some "/secrets/tsig.key";
     Settings.infoblox_host := None; Settings.infoblox_username := None;
     Settings.infoblox_password := None;
     Settings.cloudflare_api_token := None;
     Settings.cloudflare_zone_id := None;
     Settings.aws_access_key_id := None;
     Settings.aws_secret_access_key := None;
     Settings.route53_zone_id := None;
     Settings.azure_subscription_id := None;
     Settings.azure_resource_group := None;
     Settings.azure_tenant_id := None; Settings.azure_client_id := None;
     Settings.azure_client_secret := None;
     Settings.gcp_project_id := None; Settings.gcp_managed_zone := None;
     Settings.f5_host := None; Settings.f5_username := None;
     Settings.f5_password := None;
     Settings.script_set := None; Settings.script_get := None |}.

Definition no_files : Settings.files :=
  {| Settings.exists_ := fun _ => false;
     Settings.executable := fun _ => false |}.

End SettingsScenarios.

(** * Properties *)

(** ** Strings and numbers *)

Section StringFacts.

Lemma all_chars_app P s t :
  all_chars P (s ++ t)%string = all_chars P s && all_chars P t.
Proof.
  induction s as [|c s IH]; simpl; [reflexivity|].
  rewrite IH. apply andb_assoc.
Qed.

Lemma all_chars_impl (P Q : ascii -> bool) s :
  (forall c, P c = true -> Q c = true) ->
  all_chars P s = true -> all_chars Q s = true.
Proof.
  intros HPQ. induction s as [|c s IH]; simpl; [reflexivity|].
  intros [Hc Hs]%andb_prop. rewrite (HPQ _ Hc), (IH Hs). reflexivity.
Qed.

Lemma split_cons_cons a b s :
  Py.is_space a = false -> Py.is_space b = false ->
  Py.split (String a (String b s)) =
  match Py.split (String b s) with
  | t :: ts => String a t :: ts
  | [] => [String a EmptyString]
  end.
Proof.
  intros Ha Hb.
  change (Py.split (String a (String b s))) with
    (if Py.is_space a then Py.split (String b s)
     else if Py.is_space b then String a EmptyString :: Py.split (String b s)
     else match Py.split (String b s) with
          | t :: ts => String a t :: ts
          | [] => [String a EmptyString]
          end).
  rewrite Ha, Hb. reflexivity.
Qed.

Lemma no_space_head a t :
  all_chars no_space (String a t) = true ->
  Py.is_space a = false /\ all_chars no_space t = true.
Proof.
  simpl. intros [Ha Ht]%andb_prop. split; [|exact Ht].
  unfold no_space in Ha. now apply negb_true_iff in Ha.
Qed.

(** A non-empty run of non-blank characters followed by a blank is the
    first token of [split]. *)
Lemma split_token_then_space t c r :
  t <> EmptyString -> all_chars no_space t = true -> Py.is_space c = true ->
  Py.split (t ++ String c r) = t :: Py.split r.
Proof.
  intros Hne Ht Hc. induction t as [|a t IH]; [congruence|].
  apply no_space_head in Ht as [Ha Ht].
  destruct t as [|b t].
  - change ((String a EmptyString ++ String c r)%string)
      with (String a (String c r)).
    cbn [Py.split]. rewrite Ha, Hc. reflexivity.
  - destruct (no_space_head _ _ Ht) as [Hb _].
    change ((String a (String b t) ++ String c r)%string)
      with (String a (String b (t ++ String c r))).
    rewrite split_cons_cons by assumption.
    change (String b (t ++ String c r))
      with ((String b t ++ String c r)%string).
    rewrite IH by (congruence || assumption). reflexivity.
Qed.

Lemma split_token t :
  t <> EmptyString -> all_chars no_space t = true -> Py.split t = [t].
Proof.
  intros Hne Ht. induction t as [|a t IH]; [congruence|].
  apply no_space_head in Ht as [Ha Ht].
  destruct t as [|b t].
  - cbn [Py.split]. rewrite Ha. reflexivity.
  - destruct (no_space_head _ _ Ht) as [Hb _].
    rewrite split_cons_cons by assumption.
    rewrite IH by (congruence || assumption). reflexivity.
Qed.

Lemma remove_char_absent c s :
  all_chars (fun a => negb (Py.ascii_eqb a c)) s = true ->
  Py.remove_char c s = s.
Proof.
  induction s as [|a s IH]; simpl; [reflexivity|].
  intros [Ha Hs]%andb_prop. apply negb_true_iff in Ha.
  rewrite Ha, (IH Hs). reflexivity.
Qed.

Lemma lstrip_by_id blank s :
  all_chars (fun c => negb (blank c)) s = true -> Py.lstrip_by blank s = s.
Proof.
  destruct s as [|c s]; simpl; [reflexivity|].
  intros [Hc _]%andb_prop. apply negb_true_iff in Hc. rewrite Hc. reflexivity.
Qed.

Lemma rstrip_by_id blank s :
  all_chars (fun c => negb (blank c)) s = true -> Py.rstrip_by blank s = s.
Proof.
  induction s as [|c s IH]; simpl; [reflexivity|].
  intros [Hc Hs]%andb_prop. apply negb_true_iff in Hc. rewrite (IH Hs), Hc.
  destruct s; reflexivity.
Qed.

Lemma strip_by_id blank s :
  all_chars (fun c => negb (blank c)) s = true -> Py.strip_by blank s = s.
Proof.
  intros H. unfold Py.strip_by. rewrite (lstrip_by_id _ _ H).
  apply rstrip_by_id, H.
Qed.

Lemma int_digits_numeral d acc b :
  (d <> Decimal.Nil \/ b = true) ->
  Py.int_digits (NilEmpty.string_of_uint d) acc b = Some (uint_val d acc).
Proof.
  revert acc b. induction d; intros acc b Hd;
    try (cbn [NilEmpty.string_of_uint Py.int_digits uint_val];
         change (Py.is_digit _) with true; cbn iota;
         rewrite IHd by (right; reflexivity); reflexivity).
  destruct Hd as [Hd|Hd]; [congruence|]. subst b. reflexivity.
Qed.

Lemma uint_val_pos d acc :
  uint_val d (Z.pos acc) = Z.pos (Pos.of_uint_acc d acc).
Proof.
  revert acc. induction d; intros acc; cbn [uint_val Pos.of_uint_acc];
    [reflexivity|..];
    match goal with
    | |- uint_val _ ?z = Z.pos (Pos.of_uint_acc _ ?p) =>
        replace z with (Z.pos p) by lia; apply IHd
    end.
Qed.

Lemma uint_val_zero d : uint_val d 0 = Z.of_N (Pos.of_uint d).
Proof.
  induction d; cbn [uint_val Pos.of_uint]; [reflexivity|exact IHd|..];
    match goal with
    | |- uint_val _ ?z = _ =>
        let p := eval cbv in (Z.to_pos z) in
        change z with (Z.pos p); rewrite uint_val_pos; reflexivity
    end.
Qed.

Lemma numeral_digits d : all_chars Py.is_digit (NilEmpty.string_of_uint d) = true.
Proof. induction d; simpl; try assumption; reflexivity. Qed.

Lemma to_uint_not_nil p : Pos.to_uint p <> Decimal.Nil.
Proof.
  intros H. pose proof (DecimalPos.Unsigned.of_to p) as E.
  rewrite H in E. discriminate.
Qed.

Lemma numeric_not_int_space c :
  numeric_char c = true -> negb (Py.is_int_space c) = true.
Proof.
  destruct c as [[] [] [] [] [] [] [] []]; vm_compute; congruence.
Qed.

Lemma numeral_numeric d :
  all_chars numeric_char (NilEmpty.string_of_uint d) = true.
Proof.
  eapply all_chars_impl; [|apply numeral_digits].
  intros c Hc. unfold numeric_char. rewrite Hc. reflexivity.
Qed.

Lemma digit_not_sign c :
  Py.is_digit c = true ->
  Py.ascii_eqb c "+" = false /\ Py.ascii_eqb c "-" = false.
Proof.
  destruct c as [[] [] [] [] [] [] [] []]; vm_compute; intuition congruence.
Qed.

(** [int()] reads a numeral written with digits only. *)
Lemma int_numeral d :
  d <> Decimal.Nil ->
  Py.int (NilEmpty.string_of_uint d) = Py.Ok (uint_val d 0).
Proof.
  intros Hd. unfold Py.int.
  rewrite strip_by_id
    by (eapply all_chars_impl;
        [apply numeric_not_int_space|apply numeral_numeric]).
  pose proof (numeral_digits d) as Hdig.
  pose proof (int_digits_numeral d 0 false (or_introl Hd)) as Hval.
  destruct (NilEmpty.string_of_uint d) as [|c t] eqn:E.
  - destruct d; discriminate || congruence.
  - simpl in Hdig. apply andb_prop in Hdig as [Hc _].
    destruct (digit_not_sign c Hc) as [-> ->].
    rewrite Hval. f_equal. lia.
Qed.

(** [int(str(n)) == n]. *)
Lemma int_str z : Py.int (Py.str z) = Py.Ok z.
Proof.
  unfold Py.str. destruct z as [|p|p]; cbn [Z.to_int NilEmpty.string_of_int].
  - reflexivity.
  - rewrite int_numeral by apply to_uint_not_nil.
    rewrite uint_val_zero, DecimalPos.Unsigned.of_to. reflexivity.
  - unfold Py.int.
    assert (Hns : all_chars (fun c => negb (Py.is_int_space c))
                    (String "-" (NilEmpty.string_of_uint (Pos.to_uint p))) = true).
    { simpl. eapply all_chars_impl;
        [apply numeric_not_int_space|apply numeral_numeric]. }
    rewrite (strip_by_id _ _ Hns).
    change (Py.ascii_eqb "-" "+") with false.
    change (Py.ascii_eqb "-" "-") with true. cbn iota.
    rewrite int_digits_numeral by (left; apply to_uint_not_nil).
    rewrite uint_val_zero, DecimalPos.Unsigned.of_to. reflexivity.
Qed.

Lemma str_chars z : all_chars numeric_char (Py.str z) = true.
Proof.
  pose proof numeral_numeric as H.
  unfold Py.str. destruct z; cbn [Z.to_int NilEmpty.string_of_int];
    [reflexivity|apply H|simpl; apply H].
Qed.

Lemma str_not_empty z : Py.str z <> EmptyString.
Proof.
  unfold Py.str. destruct z as [|p|p]; cbn [Z.to_int NilEmpty.string_of_int];
    try discriminate.
  pose proof (to_uint_not_nil p). destruct (Pos.to_uint p); try discriminate.
  congruence.
Qed.

End StringFacts.

(** ** Lease codec *)

Section LeaseFacts.

Lemma numeric_plain c : numeric_char c = true -> plain c = true.
Proof.
  destruct c as [[] [] [] [] [] [] [] []]; vm_compute; congruence.
Qed.

Lemma plain_no_space s : all_chars plain s = true -> all_chars no_space s = true.
Proof.
  apply all_chars_impl. intros c [H _]%andb_prop. exact H.
Qed.

Lemma plain_no_quote s :
  all_chars plain s = true ->
  all_chars (fun a => negb (Py.ascii_eqb a Lease.dquote)) s = true.
Proof.
  apply all_chars_impl. intros c [_ H]%andb_prop. exact H.
Qed.

Lemma str_plain z : all_chars plain (Py.str z) = true.
Proof. eapply all_chars_impl; [apply numeric_plain|apply str_chars]. Qed.

Lemma truthy_str z : Py.truthy (Some (Py.str z)) = true.
Proof.
  pose proof (str_not_empty z). destruct (Py.str z); [congruence|reflexivity].
Qed.

(** The dictionary [parse_txt] builds from an encoded lease. *)
Lemma parse_txt_encode o z :
  all_chars plain o = true ->
  Lease.parse_txt (Some (Lease.encode o z)) =
  <["exp" := Py.str z]> (<["owner" := o]> ∅).
Proof.
  intros Ho. unfold Lease.parse_txt, Lease.encode.
  change (Py.truthy (Some ("owner=" ++ o ++ " exp=" ++ Py.str z)%string))
    with true. cbn iota.
  assert (Hall : all_chars (fun a => negb (Py.ascii_eqb a Lease.dquote))
                    ("owner=" ++ o ++ " exp=" ++ Py.str z)%string = true).
  { change (("owner=" ++ o ++ " exp=" ++ Py.str z)%string)
      with (("owner=" ++ (o ++ (" exp=" ++ Py.str z)))%string).
    rewrite !all_chars_app, (plain_no_quote _ Ho),
      (plain_no_quote _ (str_plain z)). reflexivity. }
  rewrite remove_char_absent by exact Hall.
  change (("owner=" ++ o ++ " exp=" ++ Py.str z)%string)
    with ((("owner=" ++ o) ++ String " " ("exp=" ++ Py.str z))%string).
  rewrite split_token_then_space; [|discriminate| |reflexivity].
  2:{ apply plain_no_space. rewrite all_chars_app, Ho. reflexivity. }
  rewrite split_token; [|discriminate|].
  2:{ apply plain_no_space. rewrite all_chars_app, str_plain. reflexivity. }
  reflexivity.
Qed.

(** Decoding an encoded lease gives back the owner and the expiry. *)
Lemma decode_encode o z :
  all_chars plain o = true ->
  Lease.decode (Some (Lease.encode o z)) = Py.Ok (Some o, z).
Proof.
  intros Ho. unfold Lease.decode. rewrite (parse_txt_encode _ _ Ho).
  unfold Lease.exp_of, Lease.owner_of.
  rewrite lookup_insert_eq. cbn [default from_option]. unfold id.
  rewrite truthy_str, int_str.
  rewrite lookup_insert_ne by discriminate.
  rewrite lookup_insert_eq. reflexivity.
Qed.

End LeaseFacts.

(** C6. For every owner [o] among "primary" and "dr" and every natural
    number [e], decoding the encoded lease "owner=o exp=e" yields owner
    [o] and expiry [e]; moreover the three literal scenarios hold:
    "owner=primary exp=1700000000" decodes to ("primary", 1700000000), the
    empty string to (null, 0), and "owner=dr junk exp=42 extra=x" to
    ("dr", 42). *)
Theorem lease_codec_roundtrip :
  (forall (o : string) (e : N),
      o ∈ ["primary"; "dr"] ->
      Lease.encode o (Z.of_N e)
        = ("owner=" ++ o ++ " exp=" ++ Py.str (Z.of_N e))%string
      /\ Lease.decode (Some (Lease.encode o (Z.of_N e)))
         = Py.Ok (Some o, Z.of_N e))
  /\ Lease.decode (Some "owner=primary exp=1700000000")
     = Py.Ok (Some "primary", 1700000000)
  /\ Lease.decode (Some "") = Py.Ok (None, 0)
  /\ Lease.decode (Some "owner=dr junk exp=42 extra=x") = Py.Ok (Some "dr", 42).
Proof.
  split; [|repeat split; vm_compute; reflexivity].
  intros o e Ho. split; [reflexivity|].
  apply decode_encode.
  apply elem_of_cons in Ho as [->|Ho]; [reflexivity|].
  apply list_elem_of_singleton in Ho as ->. reflexivity.
Qed.

Lemma lease_codec_roundtrip_witness :
  Lease.decode (Some (Lease.encode "dr" (Z.of_N 121))) = Py.Ok (Some "dr", 121).
Proof.
  destruct lease_codec_roundtrip as [H _].
  destruct (H "dr" 121%N) as [_ E].
  - apply list_elem_of_further, list_elem_of_here.
  - exact E.
Defined.

(** ** Failover controller *)

Section FailoverFacts.

Import Failover.

Lemma decode_ok txt owner exp :
  Lease.exp_of (Lease.parse_txt txt) = Py.Ok exp ->
  Lease.owner_of (Lease.parse_txt txt) = owner ->
  Lease.decode txt = Py.Ok (owner, exp).
Proof. intros He Ho. unfold Lease.decode. rewrite He, Ho. reflexivity. Qed.

Lemma decode_inv txt owner exp :
  Lease.decode txt = Py.Ok (owner, exp) ->
  Lease.exp_of (Lease.parse_txt txt) = Py.Ok exp
  /\ Lease.owner_of (Lease.parse_txt txt) = owner.
Proof.
  unfold Lease.decode.
  destruct (Lease.exp_of (Lease.parse_txt txt)); [|discriminate].
  intros [= <- <-]. split; reflexivity.
Qed.

(** What must be true of an iteration of the DR loop that issues a call. *)
Lemma dr_tick_issued cfg fails env w :
  w ∈ issued (dr_tick cfg fails env) ->
  probe env = false
  /\ fail_threshold cfg <= count_failures fails env
  /\ w = SetRecords (dr_ip cfg) "dr" (clock_write env + lease_ttl cfg)
  /\ exists txt owner exp,
       records_TXT env = Py.Ok txt
       /\ Lease.decode txt = Py.Ok (owner, exp)
       /\ (owner = Some "dr" \/ exp < clock_check env).
Proof.
  unfold dr_tick.
  destruct (probe env) eqn:Hp; cbn [issued]; [intros []%elem_of_nil|].
  destruct (Z.leb_spec (fail_threshold cfg) (count_failures fails env))
    as [Hf|Hf]; cbn [issued]; [|intros []%elem_of_nil].
  destruct (records_TXT env) as [txt|x] eqn:Hr; cbn [issued];
    [|intros []%elem_of_nil].
  destruct (Lease.exp_of (Lease.parse_txt txt)) as [e|x] eqn:He;
    cbn [issued]; [|intros []%elem_of_nil].
  pose proof (decode_ok txt _ e He eq_refl) as Hd.
  case_bool_decide as Ho.
  - cbn [after_write issued]. intros ->%list_elem_of_singleton.
    repeat split; try assumption. eauto 10.
  - destruct (Z.ltb_spec e (clock_check env)) as [Hlt|Hge].
    + cbn [after_write issued promote_to_dr].
      intros ->%list_elem_of_singleton.
      repeat split; try assumption. eauto 10.
    + cbn [issued]. intros []%elem_of_nil.
Qed.

Lemma heartbeat_dr_from_obs cfg fails envs obs :
  obs ∈ heartbeat_dr_from cfg fails envs ->
  exists fails0,
    o_fails obs = count_failures fails0 (o_env obs)
    /\ o_writes obs = issued (dr_tick cfg fails0 (o_env obs)).
Proof.
  revert fails. induction envs as [|env rest IH]; intros fails;
    cbn [heartbeat_dr_from]; [intros []%elem_of_nil|].
  destruct (next (dr_tick cfg fails env)) as [fails'|x].
  - intros [->|Hin]%elem_of_cons; [exists fails; split; reflexivity|].
    eapply IH, Hin.
  - intros ->%list_elem_of_singleton. exists fails; split; reflexivity.
Qed.

End FailoverFacts.

(** Scenario S3: the primary's lease expires at 60 and the probe fails from
    the start. At time 30 the third failure is counted but the lease is
    still valid, so nothing is written; at time 61 the lease has expired
    and the DR writes (dr_ip, "dr", 121). *)
Example failover_scenario :
  let txt := Some "owner=primary exp=60" in
  Failover.o_writes <$>
    Failover.heartbeat_dr FailoverScenarios.cfg
      (FailoverScenarios.down txt <$> [10; 20; 30; 61])
  = [[]; []; []; [Failover.SetRecords "10.20.20.10" "dr" 121]].
Proof. vm_compute. reflexivity. Qed.

(** C1, as stated, fails: once the lease names the DR as owner, the DR
    renews it on every tick with enough failed probes, although the lease
    it reads has not expired. Here the third tick runs at time 30, reads a
    lease owned by "dr" that expires at 1000, and writes (dr_ip, "dr", 90). *)
Lemma dr_renews_before_expiry :
  let txt := Some "owner=dr exp=1000" in
  Failover.o_writes <$>
    Failover.heartbeat_dr FailoverScenarios.cfg
      (FailoverScenarios.down txt <$> [10; 20; 30])
  = [[]; []; [Failover.SetRecords
                (Failover.dr_ip FailoverScenarios.cfg) "dr" 90]]
  /\ Lease.decode txt = Py.Ok (Some "dr", 1000)
  /\ ~ (1000 <= 30).
Proof. repeat split; [vm_compute; reflexivity..|lia]. Qed.

(** C1, amended. In every execution of the DR heartbeat loop, a call
    [set_records] is issued only in a tick whose probe failed, where the
    count of consecutive failed probes is at least the fail threshold, and
    where the lease read in that tick either already names "dr" as owner
    (renewal, whatever its expiry) or has an expiry strictly below the
    current time (promotion); the call is then (dr_ip, "dr", now + L). *)
Theorem dr_write_guard cfg envs obs w :
  obs ∈ Failover.heartbeat_dr cfg envs ->
  w ∈ Failover.o_writes obs ->
  Failover.probe (Failover.o_env obs) = false
  /\ Failover.fail_threshold cfg <= Failover.o_fails obs
  /\ w = Failover.SetRecords (Failover.dr_ip cfg) "dr"
           (Failover.clock_write (Failover.o_env obs) + Failover.lease_ttl cfg)
  /\ exists txt owner exp,
       Failover.records_TXT (Failover.o_env obs) = Py.Ok txt
       /\ Lease.decode txt = Py.Ok (owner, exp)
       /\ (owner = Some "dr"
           \/ exp < Failover.clock_check (Failover.o_env obs)).
Proof.
  intros Hobs Hw.
  apply heartbeat_dr_from_obs in Hobs as (fails0 & Hf & Hwr).
  rewrite Hwr in Hw. rewrite Hf.
  exact (dr_tick_issued _ _ _ _ Hw).
Qed.

Lemma dr_write_guard_witness :
  let env := FailoverScenarios.down (Some "owner=primary exp=60") 61 in
  Failover.probe env = false
  /\ Failover.fail_threshold FailoverScenarios.cfg <= 4
  /\ Failover.SetRecords "10.20.20.10" "dr" 121
     = Failover.SetRecords (Failover.dr_ip FailoverScenarios.cfg) "dr"
         (Failover.clock_write env + Failover.lease_ttl FailoverScenarios.cfg)
  /\ exists txt owner exp,
       Failover.records_TXT env = Py.Ok txt
       /\ Lease.decode txt = Py.Ok (owner, exp)
       /\ (owner = Some "dr" \/ exp < Failover.clock_check env).
Proof.
  intros env.
  apply (dr_write_guard FailoverScenarios.cfg
           (FailoverScenarios.down (Some "owner=primary exp=60")
              <$> [10; 20; 30; 61])
           {| Failover.o_env := env; Failover.o_fails := 4;
              Failover.o_writes :=
                [Failover.SetRecords "10.20.20.10" "dr" 121] |}).
  - vm_compute. do 3 apply list_elem_of_further. apply list_elem_of_here.
  - apply list_elem_of_here.
Defined.

(** C2, as stated, fails: with the TXT record absent the lease decodes to
    (null, 0), and an expiry of 0 is below any positive clock reading, so
    the DR promotes at once. Here the probe has failed three times, no TXT
    record exists, and the third tick writes (dr_ip, "dr", 90). *)
Lemma dr_promotes_on_absent_lease :
  Lease.decode None = Py.Ok (None, 0)
  /\ Failover.o_writes <$>
       Failover.heartbeat_dr FailoverScenarios.cfg
         (FailoverScenarios.down None <$> [10; 20; 30])
     = [[]; []; [Failover.SetRecords
                   (Failover.dr_ip FailoverScenarios.cfg) "dr" 90]].
Proof. split; vm_compute; reflexivity. Qed.

(** C2, amended. An absent or empty TXT string, and any string in which
    no token sets [owner] or [exp], decodes to (owner = null, exp = 0);
    under that decoded value the DR does not wait: in a tick whose probe
    failed, with the failure count at or above the threshold and a clock
    reading above 0, it treats the lease as expired and writes
    (dr_ip, "dr", now + L). *)
Theorem absent_lease_promotes :
  Lease.decode None = Py.Ok (None, 0)
  /\ Lease.decode (Some "") = Py.Ok (None, 0)
  /\ (forall s,
        Lease.parse_txt (Some s) !! "owner" = None ->
        Lease.parse_txt (Some s) !! "exp" = None ->
        Lease.decode (Some s) = Py.Ok (None, 0))
  /\ (forall cfg fails env txt,
        Failover.probe env = false ->
        Failover.fail_threshold cfg <= fails + 1 ->
        Failover.records_TXT env = Py.Ok txt ->
        Lease.decode txt = Py.Ok (None, 0) ->
        0 < Failover.clock_check env ->
        Failover.issued (Failover.dr_tick cfg fails env)
        = [Failover.SetRecords (Failover.dr_ip cfg) "dr"
             (Failover.clock_write env + Failover.lease_ttl cfg)]).
Proof.
  split; [reflexivity|]. split; [reflexivity|]. split.
  - intros s Ho He. apply decode_ok.
    + unfold Lease.exp_of. rewrite He. reflexivity.
    + exact Ho.
  - intros cfg fails env txt Hp Hf Hr Hd Hnow.
    apply decode_inv in Hd as [He Ho].
    unfold Failover.dr_tick, Failover.count_failures.
    rewrite Hp, Hr, He, Ho.
    destruct (Z.leb_spec (Failover.fail_threshold cfg) (fails + 1)); [|lia].
    case_bool_decide; [discriminate|].
    destruct (Z.ltb_spec 0 (Failover.clock_check env)); [|lia].
    reflexivity.
Qed.

Lemma absent_lease_promotes_witness :
  Failover.issued
    (Failover.dr_tick FailoverScenarios.cfg 2 (FailoverScenarios.down None 30))
  = [Failover.SetRecords (Failover.dr_ip FailoverScenarios.cfg) "dr" 90].
Proof.
  destruct absent_lease_promotes as (Hnone & _ & _ & H).
  apply (H FailoverScenarios.cfg 2 (FailoverScenarios.down None 30) None).
  - reflexivity.
  - vm_compute. discriminate.
  - reflexivity.
  - exact Hnone.
  - reflexivity.
Defined.

Section WriteCoherence.

Import Failover.

Lemma main_coherent cfg cmd now clocks envs w :
  w ∈ main cfg cmd now clocks envs -> coherent cfg w.
Proof.
  destruct cmd; cbn [main];
    try (intros []%elem_of_nil);
    try (intros ->%list_elem_of_singleton;
         (left; split; reflexivity) || (right; split; reflexivity)).
  case_bool_decide.
  - unfold heartbeat_primary. intros Hin%list_elem_of_In.
    apply in_map_iff in Hin as (t & <- & _). left. split; reflexivity.
  - intros Hin%list_elem_of_In.
    apply in_concat in Hin as (ws & Hws & Hw).
    apply in_map_iff in Hws as (obs & <- & Hobs).
    apply list_elem_of_In in Hobs, Hw.
    apply heartbeat_dr_from_obs in Hobs as (fails0 & _ & Hwr).
    rewrite Hwr in Hw.
    destruct (dr_tick_issued _ _ _ _ Hw) as (_ & _ & -> & _).
    right. split; reflexivity.
Qed.

(** After the dry-run provider stored a coherent call, the records it
    returns agree: the TXT names the owner and the A record is the IP
    configured for that owner. *)
Lemma coherent_records cfg w :
  coherent cfg w ->
  let z := DryRun_get_records (Some (DryRun_set_records w)) in
  zone_A z = Some (w_ip w)
  /\ Lease.decode (zone_TXT z) = Py.Ok (Some (w_owner w), w_exp w)
  /\ zone_A z = configured_ip cfg (w_owner w).
Proof.
  intros Hc z. subst z. cbn [DryRun_get_records DryRun_set_records zone_A zone_TXT].
  destruct Hc as [[Ho Hi]|[Ho Hi]]; rewrite Ho, Hi;
    (split; [reflexivity|]); (split; [apply decode_encode|]); reflexivity.
Qed.

End WriteCoherence.

(** C7. Every [set_records] call issued by the failover controller, by
    the commands [init], [promote] and [failback], by the primary
    heartbeat and by the renewal and promotion paths of the DR heartbeat,
    pairs owner "primary" with [primary_ip] or owner "dr" with [dr_ip]; so
    after the write the A record holds the IP configured for the owner
    that the TXT lease names. *)
Theorem write_pairs_owner_with_ip cfg cmd now clocks envs w :
  w ∈ Failover.main cfg cmd now clocks envs ->
  ((Failover.w_owner w = "primary"
    /\ Failover.w_ip w = Failover.primary_ip cfg)
   \/ (Failover.w_owner w = "dr" /\ Failover.w_ip w = Failover.dr_ip cfg))
  /\ let z :=
       Failover.DryRun_get_records (Some (Failover.DryRun_set_records w)) in
     exists owner exp,
       Lease.decode (Failover.zone_TXT z) = Py.Ok (Some owner, exp)
       /\ owner = Failover.w_owner w
       /\ Failover.zone_A z = Some (Failover.w_ip w)
       /\ Failover.zone_A z = Failover.configured_ip cfg owner.
Proof.
  intros Hin. pose proof (main_coherent _ _ _ _ _ _ Hin) as Hc.
  split; [exact Hc|].
  destruct (coherent_records cfg w Hc) as (HA & HT & HC).
  intros z. exists (Failover.w_owner w), (Failover.w_exp w).
  repeat split; assumption.
Qed.

Lemma write_pairs_owner_with_ip_witness :
  let w := Failover.SetRecords "10.20.20.10" "dr" 121 in
  Failover.w_ip w = Failover.dr_ip FailoverScenarios.cfg
  /\ Failover.zone_A
       (Failover.DryRun_get_records (Some (Failover.DryRun_set_records w)))
     = Failover.configured_ip FailoverScenarios.cfg "dr".
Proof.
  intros w.
  destruct (write_pairs_owner_with_ip FailoverScenarios.cfg Failover.Run 0 []
              (FailoverScenarios.down (Some "owner=primary exp=60")
                 <$> [10; 20; 30; 61]) w) as (Hc & o & e & _ & Ho & _ & HA).
  - vm_compute. apply list_elem_of_here.
  - split; [reflexivity|]. rewrite Ho in HA. exact HA.
Defined.

(** ** Ownership follower *)

Section WatcherFacts.

Import Watcher.

Lemma count_calls_app c l1 l2 :
  count_calls c (l1 ++ l2) = (count_calls c l1 + count_calls c l2)%nat.
Proof. unfold count_calls. rewrite filter_app, length_app. reflexivity. Qed.

(** One calm iteration in which the name resolves to [ip]. *)
Lemma tick_resolved my_ip st env ip prev :
  calm env -> in_step prev st -> dns env = Some ip ->
  let b := bool_decide (ip = my_ip) in
  in_step b (tick my_ip st env).1
  /\ count_calls Start (tick my_ip st env).2
     = (if negb prev && b then 1 else 0)%nat
  /\ count_calls Stop (tick my_ip st env).2
     = (if prev && negb b then 1 else 0)%nat.
Proof.
  intros (Hb & Hm & Hp) [Hl Hc] Hd b. unfold tick.
  rewrite Hd, Hb, Hm, Hp. cbn [world]. rewrite Hc. fold b.
  assert (Hlast : (if bool_decide (Some b <> last_state st)
                   then Some b else last_state st) = Some b).
  { case_bool_decide as Hne; [reflexivity|].
    destruct (decide (Some b = last_state st)) as [<-|]; [reflexivity|].
    contradiction. }
  destruct prev, b; cbn; rewrite ?Hlast; repeat split; reflexivity.
Qed.

Lemma tick_unresolved my_ip st env prev :
  calm env -> in_step prev st -> dns env = None ->
  in_step prev (tick my_ip st env).1 /\ (tick my_ip st env).2 = [].
Proof.
  intros (Hb & _ & _) [Hl Hc] Hd. unfold tick. rewrite Hd, Hb.
  cbn [world fst snd]. repeat split; assumption.
Qed.

Lemma main_from_edges my_ip envs : forall st prev,
  Forall calm envs -> in_step prev st ->
  count_calls Start (main_from my_ip st envs)
  = rising prev (should_be_active_seq my_ip envs)
  /\ count_calls Stop (main_from my_ip st envs)
     = falling prev (should_be_active_seq my_ip envs).
Proof.
  induction envs as [|env rest IH]; intros st prev Hcalm Hstep;
    [split; reflexivity|].
  apply Forall_cons in Hcalm as [Hc Hrest].
  cbn [main_from]. destruct (tick my_ip st env) as [st' calls] eqn:Ht.
  rewrite !count_calls_app. unfold should_be_active_seq. cbn [omap list_omap].
  destruct (dns env) as [ip|] eqn:Hd; cbn [fmap option_fmap option_map].
  - destruct (tick_resolved my_ip st env ip prev Hc Hstep Hd)
      as (Hstep' & Hs & Hp).
    rewrite Ht in Hstep', Hs, Hp. cbn [fst snd] in Hstep', Hs, Hp.
    destruct (IH st' _ Hrest Hstep') as [IHs IHp].
    cbn [rising falling]. unfold should_be_active_seq in IHs, IHp.
    rewrite Hs, Hp, IHs, IHp. split; reflexivity.
  - destruct (tick_unresolved my_ip st env prev Hc Hstep Hd) as (Hstep' & Hn).
    rewrite Ht in Hstep', Hn. cbn [fst snd] in Hstep', Hn. subst calls.
    destruct (IH st' _ Hrest Hstep') as [IHs IHp].
    unfold should_be_active_seq in IHs, IHp.
    rewrite IHs, IHp. split; reflexivity.
Qed.

End WatcherFacts.

(** Scenario S4: the name first points elsewhere, then at this site for
    two iterations, then elsewhere again: one start, then one stop. *)
Example follower_scenario :
  Watcher.main WatcherScenarios.my_ip
    (WatcherScenarios.resolves
       <$> ["10.10.10.10"; "10.20.20.20"; "10.20.20.20"; "10.10.10.10"])
  = [Watcher.Start; Watcher.Stop].
Proof. vm_compute. reflexivity. Qed.

(** C9, as stated, fails: the loop acts on whether the child is running,
    not on the transition. In the first run [should_be_active] rises once,
    the child exits before the second iteration, and [start] is called
    three times in all. In the second run the child has exited before the
    name moves away: [should_be_active] falls once and [stop] is never
    called. *)
Lemma follower_restarts_without_transition :
  let stays := [WatcherScenarios.resolves "10.20.20.20";
                WatcherScenarios.after_crash "10.20.20.20"] in
  let leaves := [WatcherScenarios.resolves "10.20.20.20";
                 WatcherScenarios.after_crash "10.10.10.10"] in
  Watcher.rising false
    (Watcher.should_be_active_seq WatcherScenarios.my_ip stays) = 1%nat
  /\ Watcher.main WatcherScenarios.my_ip stays
     = [Watcher.Start; Watcher.Start; Watcher.Start]
  /\ Watcher.count_calls Watcher.Start
       (Watcher.main WatcherScenarios.my_ip stays) = 3%nat
  /\ Watcher.falling false
       (Watcher.should_be_active_seq WatcherScenarios.my_ip leaves) = 1%nat
  /\ Watcher.main WatcherScenarios.my_ip leaves = [Watcher.Start]
  /\ Watcher.count_calls Watcher.Stop
       (Watcher.main WatcherScenarios.my_ip leaves) = 0%nat.
Proof. repeat split; vm_compute; reflexivity. Qed.

(** C9, amended. In every execution of the poll loop in which the managed
    process never exits on its own and spawning it succeeds, [start] is
    called exactly once per false-to-true transition of [should_be_active]
    and [stop] exactly once per true-to-false transition, where the
    sequence of [should_be_active] values skips the iterations whose DNS
    resolution failed and is taken to begin from "not active". *)
Theorem follower_edge_triggered my_ip envs :
  Forall (fun env =>
            Watcher.exit_before env = false
            /\ Watcher.exit_between env = false
            /\ Watcher.popen_ok env = true) envs ->
  Watcher.count_calls Watcher.Start (Watcher.main my_ip envs)
  = Watcher.rising false (Watcher.should_be_active_seq my_ip envs)
  /\ Watcher.count_calls Watcher.Stop (Watcher.main my_ip envs)
     = Watcher.falling false (Watcher.should_be_active_seq my_ip envs).
Proof.
  intros Hcalm. apply main_from_edges; [exact Hcalm|].
  split; reflexivity.
Qed.

Lemma follower_edge_triggered_witness :
  let envs :=
    WatcherScenarios.resolves
      <$> ["10.10.10.10"; "10.20.20.20"; "10.20.20.20"; "10.10.10.10"] in
  Watcher.count_calls Watcher.Start (Watcher.main WatcherScenarios.my_ip envs)
  = 1%nat
  /\ Watcher.count_calls Watcher.Stop (Watcher.main WatcherScenarios.my_ip envs)
     = 1%nat.
Proof.
  intros envs.
  apply (follower_edge_triggered WatcherScenarios.my_ip envs).
  repeat constructor.
Defined.

(** ** Progress probe *)

Lemma string_app_assoc (a b c : string) :
  ((a ++ b) ++ c)%string = (a ++ (b ++ c))%string.
Proof.
  induction a as [|x a IH]; [reflexivity|].
  change (String x ((a ++ b) ++ c)%string = String x (a ++ (b ++ c))%string).
  rewrite IH. reflexivity.
Qed.

Lemma string_app_nil_r (a : string) : (a ++ EmptyString)%string = a.
Proof.
  induction a as [|x a IH]; [reflexivity|].
  change (String x (a ++ EmptyString)%string = String x a).
  rewrite IH. reflexivity.
Qed.

Lemma concat_cons (c : string) (chunks : list string) :
  String.concat EmptyString (c :: chunks)
  = (c ++ String.concat EmptyString chunks)%string.
Proof.
  destruct chunks as [|c' chunks].
  - change (c = (c ++ EmptyString)%string). symmetry. apply string_app_nil_r.
  - reflexivity.
Qed.

Section ProbeLines.

Variable float : Type.
Variable fzero : float.
Variable fadd : float -> float -> float.
Variable to_float : string -> option float.

Lemma split_on_nonempty c s : exists t ts, Py.split_on c s = t :: ts.
Proof.
  induction s as [|a s (t & ts & IH)]; cbn [Py.split_on]; [eauto|].
  destruct (Py.ascii_eqb a c); [eauto|]. rewrite IH. eauto.
Qed.

(** [(a + c + b).split(c) == a.split(c) + b.split(c)]. *)
Lemma split_on_app c a b :
  Py.split_on c (a ++ String c b) = Py.split_on c a ++ Py.split_on c b.
Proof.
  induction a as [|x a IH].
  - change ((EmptyString ++ String c b)%string) with (String c b).
    cbn [Py.split_on]. unfold Py.ascii_eqb. rewrite Ascii.eqb_refl.
    reflexivity.
  - change ((String x a ++ String c b)%string)
      with (String x (a ++ String c b)%string).
    cbn [Py.split_on]. rewrite IH.
    destruct (Py.ascii_eqb x c); [reflexivity|].
    destruct (split_on_nonempty c a) as (t & ts & ->). reflexivity.
Qed.

Lemma split_on_absent c s :
  Py.contains c s = false -> Py.split_on c s = [s].
Proof.
  induction s as [|a s IH]; cbn [Py.contains Py.split_on]; [reflexivity|].
  intros [Ha Hs]%orb_false_iff. rewrite Ha, (IH Hs). reflexivity.
Qed.

Lemma truthy_app_cons a c b :
  Py.truthy (Some (a ++ String c b)%string) = true.
Proof. destruct a; reflexivity. Qed.

Lemma startswith_app p rest : Py.startswith p (p ++ rest)%string = true.
Proof.
  induction p as [|a p IH]; [destruct rest; reflexivity|].
  change ((String a p ++ rest)%string) with (String a (p ++ rest)%string).
  cbn [Py.startswith]. unfold Py.ascii_eqb. rewrite Ascii.eqb_refl. exact IH.
Qed.

Lemma contains_app c a b :
  Py.contains c (a ++ b)%string = Py.contains c a || Py.contains c b.
Proof.
  induction a as [|x a IH]; [reflexivity|].
  change ((String x a ++ b)%string) with (String x (a ++ b)%string).
  cbn [Py.contains]. rewrite IH. apply orb_assoc.
Qed.

Lemma rstrip_by_app blank a b :
  b <> EmptyString -> all_chars (fun c => negb (blank c)) b = true ->
  Py.rstrip_by blank (a ++ b) = (a ++ b)%string.
Proof.
  intros Hne Hb. induction a as [|x a IH].
  - apply rstrip_by_id, Hb.
  - change ((String x a ++ b)%string) with (String x (a ++ b)%string).
    cbn [Py.rstrip_by]. rewrite IH.
    destruct (a ++ b)%string eqn:E; [|reflexivity].
    destruct a as [|y a].
    + change (b = EmptyString) in E. congruence.
    + change (String y (a ++ b)%string = EmptyString) in E. discriminate.
Qed.

(** The loop adds up the values of the lines that count, in order. *)
Lemma parse_loop name lines : forall total found,
  foldl (Probe.parse_step float fadd to_float name) (total, found) lines
  = (foldl fadd total (omap (Probe.line_value float to_float name) lines),
     match omap (Probe.line_value float to_float name) lines with
     | [] => found
     | _ => true
     end).
Proof.
  induction lines as [|line lines IH]; intros total found; [reflexivity|].
  cbn [foldl omap list_omap]. unfold Probe.parse_step at 2.
  destruct (Probe.line_value float to_float name line) as [v|];
    rewrite IH; cbn [fst foldl].
  - destruct (omap _ lines); reflexivity.
  - reflexivity.
Qed.

Lemma parse_metric_value_sum text name :
  Probe.parse_metric_value float fzero fadd to_float text name
  = if negb (Py.truthy (Some text)) then None
    else
      match omap (Probe.line_value float to_float name)
                 (Py.split_on Probe.newline text) with
      | [] => None
      | values => Some (foldl fadd fzero values)
      end.
Proof.
  unfold Probe.parse_metric_value.
  destruct (negb (Py.truthy (Some text))); [reflexivity|].
  rewrite parse_loop.
  destruct (omap _ (Py.split_on Probe.newline text)); reflexivity.
Qed.




End ProbeLines.

(** The values of all label permutations are added up. *)
Example metric_sum :
  ProbeScenarios.parse_metric_value ProbeScenarios.exposition "accepted"
  = Some (PrimFloat.of_uint63 19134%uint63).
Proof. vm_compute. reflexivity. Qed.



(** ** Gap-range merging *)

(** C5, as stated, fails: each of the timestamps 400, 700 and 1000 is at
    most the end of the range built so far, so the four buckets merge
    into one range and not into four. *)
Lemma merge_consecutive_not_four :
  length (VmSync.merge_consecutive [100; 400; 700; 1000] 300) = 1%nat
  /\ VmSync.merge_consecutive [100; 400; 700; 1000] 300
     <> [(100, 400); (400, 700); (700, 1000); (1000, 1300)].
Proof. split; [reflexivity|vm_compute; discriminate]. Qed.

(** Timestamps spaced exactly one step apart never close the range being
    built. *)
Lemma merge_loop_progression step t0 count : forall first,
  VmSync.merge_loop step t0 (t0 + Z.of_nat first * step) []
    (map (fun i => t0 + Z.of_nat i * step) (seq first count))
  = [(t0, t0 + Z.of_nat (first + count) * step)].
Proof.
  induction count as [|count IH]; intros first; cbn [seq map VmSync.merge_loop].
  - rewrite Nat.add_0_r. reflexivity.
  - destruct (Z.leb_spec (t0 + Z.of_nat first * step)
                (t0 + Z.of_nat first * step)); [|lia].
    replace (t0 + Z.of_nat first * step + step)
      with (t0 + Z.of_nat (S first) * step) by lia.
    rewrite IH. do 3 f_equal. lia.
Qed.

(** C5, amended. Applying the gap-range merge to the timestamp list
    [100, 400, 700, 1000] with step 300 returns exactly the single range
    [(100, 1300)]; more generally, any run of timestamps spaced exactly
    one step apart merges into the single range from the first timestamp
    to one step past the last. *)
Theorem merge_consecutive_scenario :
  VmSync.merge_consecutive [100; 400; 700; 1000] 300 = [(100, 1300)]
  /\ forall (step t0 : Z) (count : nat),
       VmSync.merge_consecutive
         (map (fun i => t0 + Z.of_nat i * step) (seq 0 (S count))) step
       = [(t0, t0 + Z.of_nat (S count) * step)].
Proof.
  split; [reflexivity|].
  intros step t0 count. cbn [seq map VmSync.merge_consecutive].
  replace (t0 + Z.of_nat 0 * step) with t0 by lia.
  replace (t0 + step) with (t0 + Z.of_nat 1 * step) by lia.
  apply (merge_loop_progression step t0 count 1).
Qed.

(** ** The state file *)

Section StateFileFacts.

Import StateFile.

Lemma split_at_app n : forall s,
  ((split_at n s).1 ++ (split_at n s).2)%string = s.
Proof.
  induction n as [|n IH]; intros [|c s]; try reflexivity.
  cbn [split_at]. specialize (IH s).
  destruct (split_at n s) as [a b]. cbn [fst snd] in *.
  change (String c (a ++ b)%string = String c s). now rewrite IH.
Qed.

Lemma split_at_all (s : string) :
  split_at (String.length s) s = (s, EmptyString).
Proof.
  induction s as [|c s IH]; [reflexivity|].
  cbn [String.length split_at]. now rewrite IH.
Qed.

(** A call on the file object changes the file [p] only, by appending. *)
Lemma flush_file n p buf s c :
  files (disk s) !! p = Some c ->
  files (disk (flush n p buf s)) !! p = Some (c ++ (split_at n buf).1)%string.
Proof. intros Hc. cbn. rewrite Hc. apply lookup_insert_eq. Qed.

Lemma flush_others n p buf s q :
  q <> p -> files (disk (flush n p buf s)) !! q = files (disk s) !! q.
Proof. intros Hq. cbn. now apply lookup_insert_ne. Qed.

(** The writes and the close: whatever reaches the file is a beginning of
    the document, and all of it once the close has returned. *)
Lemma run_writes w path s0 chunks : forall s c,
  files (disk s) !! path = Some c ->
  (forall q, q <> path -> files (disk s) !! q = files s0 !! q) ->
  dirs (disk s) = dirs s0 ->
  let doc := (c ++ pending s ++ String.concat EmptyString chunks)%string in
  let r := run w s (map (WriteChunk path) chunks ++ [Close path]) in
  Forall (writing path doc s0) r.1
  /\ (r.2 = Returned ->
      exists st, last r.1 = Some st /\ files (disk st) !! path = Some doc)
  /\ (io_error w = None -> r.2 = Returned).
Proof.
  induction chunks as [|data rest IH]; intros s c Hc Hq Hd doc r.
  - subst doc r. cbn [map app run fs_step String.concat].
    rewrite string_app_nil_r.
    case_bool_decide as Herr; cbn [fst snd].
    + split; [|split; [discriminate|congruence]].
      apply Forall_singleton. split; [|split].
      * exists (c ++ (split_at (flushed w (calls s)) (pending s)).1)%string,
          (split_at (flushed w (calls s)) (pending s)).2.
        split; [now apply flush_file|].
        rewrite string_app_assoc, split_at_app. reflexivity.
      * intros q Hne. rewrite flush_others by exact Hne. now apply Hq.
      * exact Hd.
    + assert (Hfile : files (disk (flush (String.length (pending s)) path
                                     (pending s) s)) !! path
                      = Some (c ++ pending s)%string).
      { rewrite (flush_file _ _ _ _ c Hc), split_at_all. reflexivity. }
      split; [|split; [|reflexivity]].
      * apply Forall_singleton. split; [|split].
        -- exists (c ++ pending s)%string, EmptyString.
           split; [exact Hfile|]. now rewrite string_app_nil_r.
        -- intros q Hne. rewrite flush_others by exact Hne. now apply Hq.
        -- exact Hd.
      * intros _. eexists. split; [reflexivity|exact Hfile].
  - subst doc r. cbn [map app run fs_step].
    set (n := flushed w (calls s)).
    set (buf := (pending s ++ data)%string).
    set (s1 := flush n path buf s).
    assert (Hc1 : files (disk s1) !! path
                  = Some (c ++ (split_at n buf).1)%string)
      by now apply flush_file.
    assert (Hq1 : forall q, q <> path ->
                            files (disk s1) !! q = files s0 !! q).
    { intros q Hne. unfold s1. rewrite flush_others by exact Hne.
      now apply Hq. }
    assert (Hdoc : (c ++ pending s
                      ++ String.concat EmptyString (data :: rest))%string
                   = ((c ++ (split_at n buf).1) ++ pending s1
                        ++ String.concat EmptyString rest)%string).
    { rewrite concat_cons. change (pending s1) with (split_at n buf).2.
      rewrite (string_app_assoc c), <- (string_app_assoc (split_at n buf).1),
        split_at_app.
      unfold buf. now rewrite string_app_assoc. }
    case_bool_decide as Herr; cbn [fst snd].
    + split; [|split; [discriminate|congruence]].
      apply Forall_singleton. split; [|split; [exact Hq1|exact Hd]].
      exists (c ++ (split_at n buf).1)%string,
        (pending s1 ++ String.concat EmptyString rest)%string.
      split; [exact Hc1|]. rewrite Hdoc. reflexivity.
    + destruct (IH s1 _ Hc1 Hq1 Hd) as (Hall & Hret & Hok).
      rewrite <- Hdoc in Hall, Hret.
      destruct (run w s1 (map (WriteChunk path) rest ++ [Close path]))
        as [seen out] eqn:Hrun.
      cbn [fst snd] in *. split; [|split; [|exact Hok]].
      * apply Forall_cons. split; [|exact Hall].
        split; [|split; [exact Hq1|exact Hd]].
        exists (c ++ (split_at n buf).1)%string,
          (pending s1 ++ String.concat EmptyString rest)%string.
        split; [exact Hc1|]. rewrite Hdoc. reflexivity.
      * intros Hout. destruct (Hret Hout) as (st & Hlast & Hfile).
        exists st. split; [|exact Hfile].
        destruct seen as [|st' seen']; [discriminate|exact Hlast].
Qed.

Lemma save_state_ops path chunks op :
  op ∈ save_state path chunks ->
  is_rename op = false
  /\ (written_path op = None \/ written_path op = Some path).
Proof.
  unfold save_state.
  rewrite !elem_of_app, !elem_of_cons, list_elem_of_fmap.
  intros [[->|[->|[]%elem_of_nil]]|[(c & -> & _)|[->|[]%elem_of_nil]]];
    cbn; auto.
Qed.

(** The states [save_state] goes through. Before the open the file is as
    it was; from the open on it holds a beginning of the document. Other
    files stay as they were, and the only directories added are the parent
    directory and those above it. *)
Lemma save_state_trace w path chunks s :
  let doc := String.concat EmptyString chunks in
  let r := run w (start s) (save_state path chunks) in
  Forall (fun st =>
            (files (disk st) !! path = files s !! path
             \/ exists c rest, files (disk st) !! path = Some c
                               /\ doc = (c ++ rest)%string)
            /\ (forall q, q <> path -> files (disk st) !! q = files s !! q)
            /\ (forall d, d ∈ dirs (disk st) ->
                          d ∈ dirs s \/ d ∈ ancestors (dirname path))) r.1
  /\ (r.2 = Returned ->
      (exists st, r.1 !! 1%nat = Some st
                  /\ files (disk st) !! path = Some EmptyString)
      /\ exists st, last r.1 = Some st
                    /\ files (disk st) !! path = Some doc)
  /\ (dirname path <> EmptyString ->
      existsb (is_file s) (ancestors (dirname path)) = false ->
      mkdir_refused w = false ->
      path ∉ dirs s -> path ∉ ancestors (dirname path) ->
      open_refused w = false -> io_error w = None ->
      r.2 = Returned)
  /\ (dirname path = EmptyString ->
      r = ([start s], Raised FileNotFoundError)).
Proof.
  intros doc r.
  assert (Hr : r = run w (start s)
                     (MakeDirs (dirname path) :: OpenTruncate path
                      :: (map (WriteChunk path) chunks ++ [Close path])))
    by reflexivity.
  clearbody r. cbn [run] in Hr.
  assert (Hsame : forall st : state, disk st = s ->
    (files (disk st) !! path = files s !! path
     \/ exists c rest, files (disk st) !! path = Some c
                       /\ doc = (c ++ rest)%string)
    /\ (forall q, q <> path -> files (disk st) !! q = files s !! q)
    /\ (forall d, d ∈ dirs (disk st) ->
                  d ∈ dirs s \/ d ∈ ancestors (dirname path))).
  { intros st ->. auto. }
  unfold fs_step at 1 in Hr. cbn [start disk pending calls] in Hr.
  case_bool_decide as Hempty.
  { subst r. cbn [fst snd].
    split; [|split; [discriminate|split; [contradiction|]]].
    - apply Forall_singleton, Hsame. reflexivity.
    - reflexivity. }
  destruct (is_file s (dirname path)) eqn:Hfile.
  { subst r. cbn [fst snd].
    split; [|split; [discriminate|split; [|contradiction]]].
    - apply Forall_singleton, Hsame. reflexivity.
    - intros _ Hex. exfalso. unfold ancestors in Hex.
      cbn [String.length parents] in Hex.
      rewrite bool_decide_eq_false_2 in Hex by exact Hempty.
      cbn [existsb] in Hex. rewrite Hfile in Hex. discriminate. }
  destruct (existsb (is_file s) (ancestors (dirname path))) eqn:Hanc;
    [|destruct (mkdir_refused w) eqn:Hmk]; cbn [orb] in Hr.
  1,2: subst r; cbn [fst snd];
    (split; [|split; [discriminate|split; [|contradiction]]]);
    [apply Forall_singleton, Hsame; reflexivity|congruence].
  set (s1 := {| disk := {| files := files s;
                           dirs := dirs s
                                   ∪ list_to_set (ancestors (dirname path)) |};
                pending := EmptyString; calls := 0%nat |}) in Hr.
  assert (Hs1 :
    (files (disk s1) !! path = files s !! path
     \/ exists c rest, files (disk s1) !! path = Some c
                       /\ doc = (c ++ rest)%string)
    /\ (forall q, q <> path -> files (disk s1) !! q = files s !! q)
    /\ (forall d, d ∈ dirs (disk s1) ->
                  d ∈ dirs s \/ d ∈ ancestors (dirname path))).
  { split; [now left|]. split; [reflexivity|].
    intros d [Hd|Hd]%elem_of_union; [now left|right].
    now apply elem_of_list_to_set in Hd. }
  unfold fs_step at 1 in Hr. cbn [disk dirs files pending calls s1] in Hr.
  case_bool_decide as Hdir.
  { subst r. cbn [fst snd].
    split; [|split; [discriminate|split; [|contradiction]]].
    - apply Forall_cons. split; [exact Hs1|]. apply Forall_singleton, Hs1.
    - intros _ _ _ Hp Hpa. exfalso.
      apply elem_of_union in Hdir as [Hdir|Hdir]; [now apply Hp|].
      apply elem_of_list_to_set in Hdir. now apply Hpa. }
  destruct (open_refused w) eqn:Hop.
  { subst r. cbn [fst snd].
    split; [|split; [discriminate|split; [|contradiction]]].
    - apply Forall_cons. split; [exact Hs1|]. apply Forall_singleton, Hs1.
    - congruence. }
  set (s2 := {| disk := {| files := <[path := EmptyString]> (files s);
                           dirs := dirs s
                                   ∪ list_to_set (ancestors (dirname path)) |};
                pending := EmptyString; calls := 0%nat |}) in Hr.
  assert (Hc2 : files (disk s2) !! path = Some EmptyString)
    by apply lookup_insert_eq.
  assert (Hq2 : forall q, q <> path ->
                          files (disk s2) !! q = files (disk s1) !! q).
  { intros q Hne. cbn. now apply lookup_insert_ne. }
  destruct (run_writes w path (disk s1) chunks s2 EmptyString Hc2 Hq2 eq_refl)
    as (Hall & Hret & Hok).
  change (EmptyString ++ pending s2 ++ String.concat EmptyString chunks)%string
    with doc in Hall, Hret.
  destruct (run w s2 (map (WriteChunk path) chunks ++ [Close path]))
    as [seen out] eqn:Hrun.
  subst r. cbn [fst snd] in *.
  split; [|split; [|split; [|contradiction]]].
  - apply Forall_cons. split; [exact Hs1|].
    apply Forall_cons. split.
    + split; [right; exists EmptyString, doc; now split|].
      split; [exact Hq2|]. intros d Hd. now apply Hs1.
    + eapply Forall_impl; [exact Hall|].
      intros st (Hpre & Hoth & Hdirs). split; [now right|].
      split; [exact Hoth|]. intros d Hd. rewrite Hdirs in Hd. now apply Hs1.
  - intros Hout. split; [exists s2; now split|].
    destruct (Hret Hout) as (st & Hlast & Hfile0).
    exists st. split; [|exact Hfile0].
    destruct seen as [|st' seen']; [discriminate|exact Hlast].
  - intros _ _ _ _ _ _ Hio. now apply Hok.
Qed.

End StateFileFacts.

(** C4, as stated, fails: [save_state] opens the state file itself for
    writing and never renames anything. Below, the file holds an earlier
    document, and the runtime keeps the new document in its buffer until
    the file is closed, as it does for a document of this size. A reader
    of the file finds it empty from the open until the close. *)
Lemma save_state_not_atomic :
  let ops := StateFile.save_state StateFileScenarios.path
               StateFileScenarios.new_chunks in
  let seen := StateFile.observations StateFileScenarios.buffered
                StateFileScenarios.path StateFileScenarios.before ops in
  forallb (fun op => negb (StateFile.is_rename op)) ops = true
  /\ (StateFile.fs_run StateFileScenarios.buffered
        StateFileScenarios.before ops).2 = StateFile.Returned
  /\ seen !! 0%nat = Some (Some StateFileScenarios.old_doc)
  /\ seen !! 2%nat = Some (Some EmptyString)
  /\ seen !! 9%nat = Some (Some EmptyString)
  /\ seen !! 10%nat = Some (Some StateFileScenarios.new_doc)
  /\ length seen = 11%nat
  /\ EmptyString <> StateFileScenarios.old_doc
  /\ EmptyString <> StateFileScenarios.new_doc.
Proof. repeat split; vm_compute; (reflexivity || discriminate). Qed.

(** C4, amended. [save_state] rewrites the state file in place: it calls
    [os.makedirs] on the parent directory, opens the state-file path
    itself for writing, which empties it, writes the serialized state into
    it and closes it. It uses no temporary file and no rename. For a path
    without a directory part [os.makedirs] raises and nothing is written.
    At every moment a reader finds the file as it was before the call or
    holding a beginning of the new document, and empty right after the
    open. Once [save_state] has returned, the file holds the complete
    document; it does return when the path has a directory part, no file
    or directory is in the way and the system refuses nothing. *)
Theorem save_state_in_place (w : StateFile.world) (path : string)
    (chunks : list string) (s : StateFile.fs) :
  let ops := StateFile.save_state path chunks in
  let doc := String.concat EmptyString chunks in
  (forall op, op ∈ ops ->
     StateFile.is_rename op = false
     /\ (StateFile.written_path op = None
         \/ StateFile.written_path op = Some path))
  /\ take 2 ops = [StateFile.MakeDirs (StateFile.dirname path);
                   StateFile.OpenTruncate path]
  /\ (StateFile.dirname path = EmptyString ->
      StateFile.fs_run w s ops
      = (s, StateFile.Raised StateFile.FileNotFoundError))
  /\ (forall seen, seen ∈ StateFile.observations w path s ops ->
        seen = StateFile.files s !! path
        \/ exists c rest, seen = Some c /\ doc = (c ++ rest)%string)
  /\ ((StateFile.fs_run w s ops).2 = StateFile.Returned ->
      StateFile.observations w path s ops !! 2%nat = Some (Some EmptyString)
      /\ StateFile.files (StateFile.fs_run w s ops).1 !! path = Some doc)
  /\ (StateFile.dirname path <> EmptyString ->
      existsb (StateFile.is_file s)
        (StateFile.ancestors (StateFile.dirname path)) = false ->
      StateFile.mkdir_refused w = false ->
      path ∉ StateFile.dirs s ->
      path ∉ StateFile.ancestors (StateFile.dirname path) ->
      StateFile.open_refused w = false ->
      StateFile.io_error w = None ->
      (StateFile.fs_run w s ops).2 = StateFile.Returned).
Proof.
  intros ops doc.
  destruct (save_state_trace w path chunks s) as (Hall & Hret & Hok & Hbare).
  fold ops doc in Hall, Hret, Hok, Hbare.
  split; [intros op; apply save_state_ops|].
  split; [reflexivity|].
  unfold StateFile.fs_run, StateFile.observations.
  destruct (StateFile.run w (StateFile.start s) ops) as [seen out] eqn:Hrun.
  cbn [fst snd] in *.
  split; [|split; [|split]].
  - intros Hd. specialize (Hbare Hd). injection Hbare as -> ->. reflexivity.
  - intros o [->|Hin]%elem_of_cons; [now left|].
    apply list_elem_of_fmap in Hin as (st & -> & Hst).
    rewrite Forall_forall in Hall. exact (proj1 (Hall st Hst)).
  - intros Hout. destruct (Hret Hout) as ((st1 & Hst1 & Hf1) & st & Hlast & Hf).
    split.
    + change ((StateFile.files s !! path
               :: map (fun st => StateFile.files (StateFile.disk st) !! path)
                    seen) !! 2%nat)
        with (map (fun st => StateFile.files (StateFile.disk st) !! path)
                seen !! 1%nat).
      rewrite list_lookup_fmap, Hst1. cbn. now rewrite Hf1.
    + rewrite Hlast. exact Hf.
  - exact Hok.
Qed.

(** ** Failback gating *)

Section VmSyncGate.

Import VmSync.

Lemma vm_run_outcome cfg st env st' :
  run_sync_check cfg st env = Some st' -> vm_outcome cfg st env st'.
Proof.
  unfold run_sync_check.
  destruct (local_healthy env); cbn [negb];
    [|intros [= <-]; now apply vm_skipped].
  destruct (remote_healthy env); cbn [negb];
    [|intros [= <-]; now apply vm_skipped].
  destruct (get_active_site cfg (dns_ip env)) as [active|] eqn:Ha;
    [|intros [= <-]; now apply vm_skipped].
  destruct (is_empty_dict (local_counts env)
            && is_empty_dict (remote_counts env));
    [intros [= <-]; now apply vm_skipped|].
  destruct (determine_sync_direction cfg active (local_counts env)
              (remote_counts env)) as [source dest] eqn:Hd.
  destruct (find_gaps cfg source dest) as [|g gaps] eqn:Hg.
  - intros [= <-]. apply (vm_clean _ _ _ _ active); cbn.
    + exact Ha.
    + rewrite Hd. exact Hg.
    + reflexivity.
    + destruct (failback_clean_checks cfg <=? consecutive_clean st + 1);
        [destruct (failback_ready st)|]; reflexivity.
  - destruct (all_chunks (chunk_size cfg)
                (merge_consecutive (g :: gaps) (query_step cfg)));
      [|discriminate].
    intros [= <-]. now apply vm_repaired.
Qed.

Lemma vm_gate_step cfg st env st' :
  run_sync_check cfg st env = Some st' ->
  (failback_ready st = true ->
   failback_clean_checks cfg <= consecutive_clean st) ->
  failback_ready st' = true ->
  failback_clean_checks cfg <= consecutive_clean st'.
Proof.
  intros Hrun Hinv Hr. destruct (vm_run_outcome _ _ _ _ Hrun)
    as [Hf Hc|active _ _ Hc Hf|_ Hf].
  - rewrite Hc. apply Hinv. congruence.
  - rewrite Hf in Hr.
    destruct (Z.leb_spec (failback_clean_checks cfg) (consecutive_clean st'));
      [assumption|].
    rewrite Hc. specialize (Hinv Hr). lia.
  - congruence.
Qed.

Lemma vm_gate_trace cfg envs : forall st0 st,
  (failback_ready st0 = true ->
   failback_clean_checks cfg <= consecutive_clean st0) ->
  st ∈ main_from cfg st0 envs ->
  failback_ready st = true ->
  failback_clean_checks cfg <= consecutive_clean st.
Proof.
  induction envs as [|env rest IH]; intros st0 st Hinv;
    cbn [main_from]; [intros []%elem_of_nil|].
  destruct (run_sync_check cfg st0 env) as [st1|] eqn:Hrun;
    [|intros []%elem_of_nil].
  pose proof (vm_gate_step _ _ _ _ Hrun Hinv) as Hinv1.
  intros [->|Hin]%elem_of_cons; [exact Hinv1|].
  exact (IH st1 st Hinv1 Hin).
Qed.

Lemma vm_gate_flip cfg st env st' :
  run_sync_check cfg st env = Some st' ->
  failback_ready st = false -> failback_ready st' = true ->
  exists active,
    get_active_site cfg (dns_ip env) = Some active
    /\ (let '(source, dest) :=
          determine_sync_direction cfg active (local_counts env)
            (remote_counts env) in
        find_gaps cfg source dest = [])
    /\ consecutive_clean st' = consecutive_clean st + 1
    /\ failback_clean_checks cfg <= consecutive_clean st'.
Proof.
  intros Hrun H0 H1. destruct (vm_run_outcome _ _ _ _ Hrun)
    as [Hf Hc|active Ha Hg Hc Hf|_ Hf]; [congruence| |congruence].
  exists active. repeat split; try assumption.
  rewrite Hf, H0 in H1.
  destruct (Z.leb_spec (failback_clean_checks cfg) (consecutive_clean st'));
    [assumption|discriminate].
Qed.

Lemma vm_find_gaps_empty cfg dest : find_gaps cfg ∅ dest = [].
Proof. unfold find_gaps. rewrite map_to_list_empty. reflexivity. Qed.

(** A cycle that sees a gap resets the count and clears the flag. *)
Lemma vm_gap_cycle_resets cfg st env st' :
  run_sync_check cfg st env = Some st' -> vm_gap_cycle cfg env ->
  consecutive_clean st' = 0 /\ failback_ready st' = false.
Proof.
  intros Hrun (Hl & Hr & active & Ha & Hgaps). revert Hrun.
  unfold run_sync_check. rewrite Hl, Hr, Ha. cbn [negb].
  destruct (is_empty_dict (local_counts env)
            && is_empty_dict (remote_counts env)) eqn:Hempty.
  { exfalso. apply Hgaps.
    apply andb_true_iff in Hempty as [H1 H2].
    apply bool_decide_eq_true in H1, H2.
    unfold determine_sync_direction. rewrite H1, H2.
    destruct (bool_decide (active = role cfg)); apply vm_find_gaps_empty. }
  destruct (determine_sync_direction cfg active (local_counts env)
              (remote_counts env)) as [source dest].
  cbn [fst snd] in Hgaps.
  destruct (find_gaps cfg source dest) as [|g gaps]; [contradiction|].
  destruct (all_chunks _ _); [|discriminate].
  intros [= <-]. split; reflexivity.
Qed.

Lemma vm_count_step cfg st env st' :
  run_sync_check cfg st env = Some st' ->
  0 <= consecutive_clean st ->
  0 <= consecutive_clean st' <= consecutive_clean st + 1.
Proof.
  intros Hrun H0. destruct (vm_run_outcome _ _ _ _ Hrun)
    as [_ Hc|active _ _ Hc _|Hc _]; lia.
Qed.

(** After [m + 1] cycles the count has grown by at most [m + 1]. *)
Lemma vm_trace_bound cfg envs : forall st m st',
  main_from cfg st envs !! m = Some st' ->
  0 <= consecutive_clean st ->
  (failback_ready st = true ->
   failback_clean_checks cfg <= consecutive_clean st) ->
  0 <= consecutive_clean st' <= consecutive_clean st + Z.of_nat (S m)
  /\ (failback_ready st' = true ->
      failback_clean_checks cfg <= consecutive_clean st').
Proof.
  induction envs as [|env rest IH]; intros st m st'; cbn [main_from];
    [discriminate|].
  destruct (run_sync_check cfg st env) as [st1|] eqn:Hrun; [|discriminate].
  intros Hm H0 Hinv.
  pose proof (vm_count_step _ _ _ _ Hrun H0) as Hc1.
  pose proof (vm_gate_step _ _ _ _ Hrun Hinv) as Hinv1.
  destruct m as [|m]; cbn in Hm.
  - injection Hm as <-. split; [lia|exact Hinv1].
  - destruct (IH st1 m st' Hm (proj1 Hc1) Hinv1) as [Hb Hi].
    split; [lia|exact Hi].
Qed.

(** A cycle that saw a gap lies at least [failback_clean_checks] cycles
    before any state with the flag set. *)
Lemma vm_window cfg envs : forall st i j st_i env_j,
  main_from cfg st envs !! i = Some st_i ->
  envs !! j = Some env_j -> (j <= i)%nat ->
  vm_gap_cycle cfg env_j -> failback_ready st_i = true ->
  failback_clean_checks cfg <= Z.of_nat i - Z.of_nat j.
Proof.
  induction envs as [|env rest IH]; intros st i j st_i env_j;
    cbn [main_from]; [discriminate|].
  destruct (run_sync_check cfg st env) as [st1|] eqn:Hrun; [|discriminate].
  intros Hi Hj Hle Hgap Hready.
  destruct j as [|j].
  - injection Hj as <-.
    destruct (vm_gap_cycle_resets _ _ _ _ Hrun Hgap) as [Hc Hf].
    destruct i as [|i]; cbn in Hi.
    + injection Hi as <-. congruence.
    + destruct (vm_trace_bound cfg rest st1 i st_i Hi) as [Hb Hinv];
        [lia|congruence|].
      specialize (Hinv Hready). lia.
  - destruct i as [|i]; [lia|]. cbn in Hi, Hj.
    pose proof (IH st1 i j st_i env_j Hi Hj ltac:(lia) Hgap Hready). lia.
Qed.

End VmSyncGate.

Section ChSyncGate.

Import ChSync.

Lemma ch_gate_flip cfg st env :
  let st' := run_sync_check cfg st env in
  failback_ready st = false -> failback_ready st' = true ->
  exists active,
    get_active_site cfg (dns_ip env) = Some active
    /\ active <> role cfg
    /\ tables_with_gaps st' = 0
    /\ new_tables_detected st' = []
    /\ consecutive_clean st' = consecutive_clean st + 1
    /\ failback_clean_checks cfg <= consecutive_clean st'.
Proof.
  intros st' H0. subst st'. unfold run_sync_check.
  destruct (local_healthy env); cbn [negb];
    [|cbn; congruence].
  destruct (remote_healthy env); cbn [negb];
    [|cbn; congruence].
  destruct (get_active_site cfg (dns_ip env)) as [active|];
    [|cbn; congruence].
  case_bool_decide as Hrole; [cbn; congruence|].
  destruct (foldl (new_table_step cfg env) (local_tables env, [], [])
              (map_to_list (remote_tables env)))
    as [[locals created] detected].
  destruct (foldl (table_step cfg env active) (0, 0, 0) _)
    as [[total_partitions total_rows] with_gaps].
  cbn [failback_ready consecutive_clean tables_with_gaps new_tables_detected].
  destruct (0 <? total_partitions); cbn [negb andb]; [congruence|].
  destruct (Z.eqb_spec with_gaps 0) as [->|]; cbn [andb]; [|discriminate].
  case_bool_decide as Hdet; [|discriminate].
  destruct (Z.leb_spec (failback_clean_checks cfg) (consecutive_clean st + 1));
    [|congruence].
  intros _. exists active. repeat split; assumption.
Qed.

(** A cycle that found a table with gaps or a new table leaves the count
    at 0, and no cycle adds more than one to it. *)
Lemma ch_count_step cfg st env :
  let st' := run_sync_check cfg st env in
  (tables_with_gaps st' <> 0 \/ new_tables_detected st' <> [] ->
   consecutive_clean st' = 0)
  /\ (0 <= consecutive_clean st ->
      0 <= consecutive_clean st' <= consecutive_clean st + 1).
Proof.
  intros st'. subst st'. unfold run_sync_check.
  destruct (local_healthy env); cbn [negb];
    [|cbn; split; [intros [?|?]; congruence|lia]].
  destruct (remote_healthy env); cbn [negb];
    [|cbn; split; [intros [?|?]; congruence|lia]].
  destruct (get_active_site cfg (dns_ip env)) as [active|];
    [|cbn; split; [intros [?|?]; congruence|lia]].
  case_bool_decide as Hrole; [cbn; split; [intros [?|?]; congruence|lia]|].
  destruct (foldl (new_table_step cfg env) (local_tables env, [], [])
              (map_to_list (remote_tables env)))
    as [[locals created] detected].
  destruct (foldl (table_step cfg env active) (0, 0, 0) _)
    as [[total_partitions total_rows] with_gaps].
  cbn [consecutive_clean tables_with_gaps new_tables_detected].
  destruct (0 <? total_partitions); cbn [negb andb];
    [split; [reflexivity|lia]|].
  destruct (Z.eqb_spec with_gaps 0) as [->|Hg]; cbn [andb];
    [|split; [reflexivity|lia]].
  case_bool_decide as Hdet; [|split; [reflexivity|lia]].
  split; [intros [?|?]; congruence|lia].
Qed.

Lemma ch_trace_bound cfg envs : forall st m st',
  main_from cfg st envs !! m = Some st' ->
  0 <= consecutive_clean st ->
  0 <= consecutive_clean st' <= consecutive_clean st + Z.of_nat (S m).
Proof.
  induction envs as [|env rest IH]; intros st m st'; cbn [main_from];
    [discriminate|].
  intros Hm H0.
  pose proof (proj2 (ch_count_step cfg st env) H0) as Hc1. cbv zeta in Hc1.
  destruct m as [|m]; cbn in Hm.
  - injection Hm as <-. lia.
  - pose proof (IH _ m st' Hm (proj1 Hc1)). lia.
Qed.

(** A cycle that found a table with gaps or a new table lies at least as
    many cycles back as the count of any later state. *)
Lemma ch_window cfg envs : forall st i j st_i st_j,
  main_from cfg st envs !! i = Some st_i ->
  main_from cfg st envs !! j = Some st_j -> (j <= i)%nat ->
  (tables_with_gaps st_j <> 0 \/ new_tables_detected st_j <> []) ->
  consecutive_clean st_i <= Z.of_nat i - Z.of_nat j.
Proof.
  induction envs as [|env rest IH]; intros st i j st_i st_j;
    cbn [main_from]; [discriminate|].
  intros Hi Hj Hle Hdirty.
  destruct j as [|j].
  - cbn in Hj. injection Hj as <-.
    pose proof (proj1 (ch_count_step cfg st env) Hdirty) as Hc.
    cbv zeta in Hc.
    destruct i as [|i]; cbn in Hi.
    + injection Hi as <-. lia.
    + pose proof (ch_trace_bound cfg rest _ i st_i Hi). lia.
  - destruct i as [|i]; [lia|]. cbn in Hi, Hj.
    pose proof (IH _ i j st_i st_j Hi Hj ltac:(lia) Hdirty). lia.
Qed.

End ChSyncGate.

(** C3, as stated, fails: neither reconciler ties the count of clean
    cycles to the remote site being active. Both reconcilers below run at
    the DR site with three clean checks required. The VictoriaMetrics one
    reports failback-ready after three clean cycles in which the DR site
    itself is active. The ClickHouse one counts two cycles in which the DR
    site is active and then reports failback-ready after a single cycle
    with the primary active. A fourth ClickHouse cycle that finds a
    partition behind and repairs it resets the clean count and leaves the
    flag set: failback-ready with a count of 0, right after a cycle that
    saw a gap. *)
Lemma failback_ready_without_remote_active :
  VmSync.role GateScenarios.vm_cfg = "dr"
  /\ GateScenarios.vm_view <$>
       VmSync.main_from GateScenarios.vm_cfg VmSync.fresh
         (GateScenarios.vm_parity
            <$> ["10.20.20.10"; "10.20.20.10"; "10.20.20.10"])
     = [(false, Some "dr", 1); (false, Some "dr", 2); (true, Some "dr", 3)]
  /\ ChSync.role GateScenarios.ch_cfg = "dr"
  /\ GateScenarios.ch_view <$>
       ChSync.main_from GateScenarios.ch_cfg ChSync.fresh
         (GateScenarios.ch_idle
            <$> ["10.20.20.10"; "10.20.20.10"; "10.10.10.10"])
     = [(false, Some "dr", 1); (false, Some "dr", 2);
        (true, Some "primary", 3)]
  /\ (fun st => (ChSync.failback_ready st, ChSync.consecutive_clean st,
                 ChSync.tables_with_gaps st)) <$>
       ChSync.main_from GateScenarios.ch_cfg ChSync.fresh
         ((GateScenarios.ch_idle
             <$> ["10.20.20.10"; "10.20.20.10"; "10.10.10.10"])
          ++ [GateScenarios.ch_behind])
     = [(false, 1, 0); (false, 2, 0); (true, 3, 0); (true, 0, 1)].
Proof. repeat split; vm_compute; reflexivity. Qed.

(** C3, amended. In the VictoriaMetrics reconciler [failback_ready] holds
    only when [consecutive_clean >= failback_clean_checks], in every state
    reached from a start state of which this is true (a fresh state is
    one), and only when none of the last [failback_clean_checks] cycles
    saw a gap, whatever the start state. In both reconcilers a cycle turns
    [failback_ready] from false to true only if it resolved the active
    site, found no gap on the source side, incremented
    [consecutive_clean] and thereby reached [failback_clean_checks]; in
    the ClickHouse reconciler that cycle moreover has the remote site
    active and detected no new table, and whenever its count is at least
    [failback_clean_checks], none of the last [failback_clean_checks]
    cycles found a table with gaps or a new table. Clean cycles are
    counted whichever site was active. *)
Theorem failback_ready_gate :
  (forall cfg envs st0 st,
     (VmSync.failback_ready st0 = true ->
      VmSync.failback_clean_checks cfg <= VmSync.consecutive_clean st0) ->
     st ∈ VmSync.main_from cfg st0 envs ->
     VmSync.failback_ready st = true ->
     VmSync.failback_clean_checks cfg <= VmSync.consecutive_clean st)
  /\ (forall cfg envs st0 i j st env,
        VmSync.main_from cfg st0 envs !! i = Some st ->
        VmSync.failback_ready st = true ->
        envs !! j = Some env -> (j <= i)%nat ->
        Z.of_nat i < Z.of_nat j + VmSync.failback_clean_checks cfg ->
        ~ vm_gap_cycle cfg env)
  /\ (forall cfg st env st',
        VmSync.run_sync_check cfg st env = Some st' ->
        VmSync.failback_ready st = false ->
        VmSync.failback_ready st' = true ->
        exists active,
          VmSync.get_active_site cfg (VmSync.dns_ip env) = Some active
          /\ (let '(source, dest) :=
                VmSync.determine_sync_direction cfg active
                  (VmSync.local_counts env) (VmSync.remote_counts env) in
              VmSync.find_gaps cfg source dest = [])
          /\ VmSync.consecutive_clean st' = VmSync.consecutive_clean st + 1
          /\ VmSync.failback_clean_checks cfg <= VmSync.consecutive_clean st')
  /\ (forall cfg st env,
        let st' := ChSync.run_sync_check cfg st env in
        ChSync.failback_ready st = false ->
        ChSync.failback_ready st' = true ->
        exists active,
          ChSync.get_active_site cfg (ChSync.dns_ip env) = Some active
          /\ active <> ChSync.role cfg
          /\ ChSync.tables_with_gaps st' = 0
          /\ ChSync.new_tables_detected st' = []
          /\ ChSync.consecutive_clean st' = ChSync.consecutive_clean st + 1
          /\ ChSync.failback_clean_checks cfg <= ChSync.consecutive_clean st')
  /\ (forall cfg envs st0 i j st_i st_j,
        ChSync.main_from cfg st0 envs !! i = Some st_i ->
        ChSync.main_from cfg st0 envs !! j = Some st_j ->
        (j <= i)%nat ->
        Z.of_nat i < Z.of_nat j + ChSync.failback_clean_checks cfg ->
        ChSync.failback_clean_checks cfg <= ChSync.consecutive_clean st_i ->
        ChSync.tables_with_gaps st_j = 0
        /\ ChSync.new_tables_detected st_j = []).
Proof.
  split; [|split; [|split; [|split]]].
  - intros cfg envs st0 st. apply vm_gate_trace.
  - intros cfg envs st0 i j st env Hi Hready Hj Hle Hwin Hgap.
    pose proof (vm_window cfg envs st0 i j st env Hi Hj Hle Hgap Hready).
    lia.
  - exact vm_gate_flip.
  - exact ch_gate_flip.
  - intros cfg envs st0 i j st_i st_j Hi Hj Hle Hwin Hcount.
    destruct (Z.eq_dec (ChSync.tables_with_gaps st_j) 0) as [Hg|Hg].
    + split; [exact Hg|].
      destruct (ChSync.new_tables_detected st_j) as [|t ts] eqn:Hn;
        [reflexivity|].
      assert (Hdirty : ChSync.tables_with_gaps st_j <> 0
                       \/ ChSync.new_tables_detected st_j <> [])
        by (right; congruence).
      pose proof (ch_window cfg envs st0 i j st_i st_j Hi Hj Hle Hdirty). lia.
    + pose proof (ch_window cfg envs st0 i j st_i st_j Hi Hj Hle
                    (or_introl Hg)). lia.
Qed.

Lemma failback_ready_gate_witness :
  VmSync.failback_clean_checks GateScenarios.vm_cfg <= 3
  /\ ~ vm_gap_cycle GateScenarios.vm_cfg
         (GateScenarios.vm_parity "10.20.20.10").
Proof.
  destruct failback_ready_gate as (Hinv & Hwin & _).
  pose (st := {| VmSync.last_check := Some "t1"; VmSync.last_sync := None;
                 VmSync.consecutive_clean := 3;
                 VmSync.failback_ready := true;
                 VmSync.active_site := Some "dr";
                 VmSync.gaps_detected := 0; VmSync.samples_synced := 0;
                 VmSync.last_error := None |}).
  split.
  - apply (Hinv GateScenarios.vm_cfg
             (GateScenarios.vm_parity
                <$> ["10.20.20.10"; "10.20.20.10"; "10.20.20.10"])
             VmSync.fresh st).
    + discriminate.
    + vm_compute. do 2 apply list_elem_of_further. apply list_elem_of_here.
    + reflexivity.
  - apply (Hwin GateScenarios.vm_cfg
             (GateScenarios.vm_parity
                <$> ["10.20.20.10"; "10.20.20.10"; "10.20.20.10"])
             VmSync.fresh 2%nat 0%nat st).
    + vm_compute. reflexivity.
    + reflexivity.
    + reflexivity.
    + lia.
    + vm_compute. reflexivity.
Defined.

(** ** Gap detection *)

Section GapFacts.

(** A quotient of counts that is at least one is not below a threshold of
    at most one. *)
Lemma ratio_not_below dest_count source_count (threshold : Q) :
  0 < source_count -> source_count <= dest_count -> (threshold <= 1)%Q ->
  VmSync.Qltb (VmSync.ratio dest_count source_count) threshold = false.
Proof.
  intros Hs Hd Ht. unfold VmSync.Qltb, VmSync.ratio.
  destruct (Z.ltb_spec 0 source_count); [|lia].
  apply negb_false_iff, Qle_bool_iff.
  apply Qle_trans with (1 := Ht).
  apply Qle_shift_div_l.
  - change 0%Q with (inject_Z 0). rewrite <- Zlt_Qlt. exact Hs.
  - rewrite Qmult_1_l. rewrite <- Zle_Qle. exact Hd.
Qed.

(** A non-positive source count other than zero gives the quotient 0. *)
Lemma vm_is_gap_source cfg dest ts source_count :
  VmSync.is_gap cfg dest (ts, source_count) = true ->
  0 <= source_count -> (VmSync.gap_threshold cfg <= 1)%Q ->
  default 0 (dest !! ts) < source_count.
Proof.
  unfold VmSync.is_gap. intros Hgap Hs Ht.
  destruct (Z.eqb_spec source_count 0) as [|Hne]; [discriminate|].
  destruct (Z.lt_ge_cases (default 0 (dest !! ts)) source_count)
    as [|Hge]; [assumption|].
  rewrite ratio_not_below in Hgap by (lia || assumption). discriminate.
Qed.

Lemma vm_find_gaps_elem cfg source dest ts :
  ts ∈ VmSync.find_gaps cfg source dest <->
  exists source_count,
    source !! ts = Some source_count
    /\ VmSync.is_gap cfg dest (ts, source_count) = true.
Proof.
  unfold VmSync.find_gaps. rewrite merge_sort_Permutation.
  rewrite list_elem_of_fmap. split.
  - intros ([ts' c] & -> & Hin). apply list_elem_of_filter in Hin as [Hg Hin].
    apply elem_of_map_to_list in Hin. eauto.
  - intros (c & Hc & Hg). exists (ts, c). split; [reflexivity|].
    apply list_elem_of_filter. split; [exact Hg|].
    apply elem_of_map_to_list, Hc.
Qed.

Lemma ch_find_gaps_elem source dest partition source_count dest_count :
  (partition, source_count, dest_count)
    ∈ ChSync.find_partition_gaps source dest <->
  source !! partition = Some source_count
  /\ dest_count = default 0 (dest !! partition)
  /\ dest_count < source_count.
Proof.
  unfold ChSync.find_partition_gaps. rewrite list_elem_of_omap. split.
  - intros ([p c] & Hin & Hsome). apply elem_of_map_to_list in Hin.
    destruct (Z.ltb_spec (default 0 (dest !! p)) c); [|discriminate].
    injection Hsome as <- <- <-. auto.
  - intros (Hs & -> & Hlt). exists (partition, source_count). split.
    + apply elem_of_map_to_list, Hs.
    + cbn. destruct (Z.ltb_spec (default 0 (dest !! partition)) source_count);
        [reflexivity|lia].
Qed.

Lemma ch_sync_calls_elem cfg source dest active partition :
  partition ∈ ChSync.sync_calls cfg source dest active ->
  exists source_count dest_count,
    (partition, source_count, dest_count)
      ∈ ChSync.find_partition_gaps source dest.
Proof.
  unfold ChSync.sync_calls.
  destruct (ChSync.find_partition_gaps source dest) as [|g gaps];
    [intros []%elem_of_nil|].
  case_bool_decide; [intros []%elem_of_nil|].
  intros Hin%list_elem_of_In. apply in_map_iff in Hin as ([[p s] d] & <- & Hin).
  apply list_elem_of_In in Hin. eauto.
Qed.

Lemma merge_loop_buckets gs step timestamps : forall start end_ ranges,
  Forall (range_in_buckets gs step) ranges ->
  range_in_buckets gs step (start, end_) ->
  Forall (fun ts => ts ∈ gs) timestamps ->
  Forall (range_in_buckets gs step)
    (VmSync.merge_loop step start end_ ranges timestamps).
Proof.
  induction timestamps as [|ts rest IH]; intros start end_ ranges Hr Hc Hts;
    cbn [VmSync.merge_loop].
  - apply Forall_app. split; [exact Hr|]. apply Forall_singleton, Hc.
  - apply Forall_cons in Hts as [Hts Hrest].
    destruct (Z.leb_spec ts end_) as [Hle|Hgt].
    + apply IH; [exact Hr| |exact Hrest].
      intros t [H1 H2]. cbn in H1, H2.
      destruct (Z.lt_ge_cases t end_) as [Hlt|Hge].
      * apply Hc. cbn. lia.
      * exists ts. split; [exact Hts|lia].
    + apply IH; [| |exact Hrest].
      * apply Forall_app. split; [exact Hr|]. apply Forall_singleton, Hc.
      * intros t Ht. cbn in Ht. exists ts. split; [exact Hts|lia].
Qed.

Lemma merge_consecutive_buckets gs step :
  Forall (range_in_buckets gs step) (VmSync.merge_consecutive gs step).
Proof.
  unfold VmSync.merge_consecutive. destruct gs as [|g rest]; [constructor|].
  apply merge_loop_buckets.
  - constructor.
  - intros t Ht. cbn in Ht. exists g. split; [apply list_elem_of_here|lia].
  - apply Forall_forall. intros ts Hts. now apply list_elem_of_further.
Qed.

Lemma chunk_loop_diverges fuel size : forall chunk_start range_end,
  size <= 0 -> chunk_start < range_end ->
  VmSync.chunk_loop fuel size chunk_start range_end = None.
Proof.
  induction fuel as [|fuel IH]; intros chunk_start range_end Hs Hlt;
    cbn [VmSync.chunk_loop];
    destruct (Z.ltb_spec chunk_start range_end); try lia; [reflexivity|].
  rewrite IH by lia. reflexivity.
Qed.

Lemma chunk_loop_within fuel size : forall chunk_start range_end cs c,
  VmSync.chunk_loop fuel size chunk_start range_end = Some cs ->
  c ∈ cs -> chunk_start <= c.1 /\ c.2 <= range_end.
Proof.
  induction fuel as [|fuel IH]; intros chunk_start range_end cs c;
    cbn [VmSync.chunk_loop];
    destruct (Z.ltb_spec chunk_start range_end) as [Hlt|Hge];
    try discriminate;
    try (intros [= <-] []%elem_of_nil).
  destruct (Z.le_gt_cases size 0) as [Hs|Hs].
  { rewrite chunk_loop_diverges by lia. discriminate. }
  destruct (VmSync.chunk_loop fuel size
              (Z.min (chunk_start + size) range_end) range_end)
    as [cs'|] eqn:Hrest; [|discriminate].
  cbn. intros [= <-] [->|Hin]%elem_of_cons.
  - cbn. lia.
  - destruct (IH _ _ _ _ Hrest Hin). lia.
Qed.

Lemma all_chunks_within size ranges : forall cs c,
  VmSync.all_chunks size ranges = Some cs -> c ∈ cs ->
  exists r, r ∈ ranges /\ r.1 <= c.1 /\ c.2 <= r.2.
Proof.
  induction ranges as [|r rest IH]; intros cs c; cbn [VmSync.all_chunks].
  - intros [= <-] []%elem_of_nil.
  - destruct (VmSync.chunks size r) as [cs1|] eqn:H1; [|discriminate].
    destruct (VmSync.all_chunks size rest) as [cs2|]; [|discriminate].
    intros [= <-] [Hin|Hin]%elem_of_app.
    + exists r. split; [apply list_elem_of_here|].
      exact (chunk_loop_within _ _ _ _ _ _ H1 Hin).
    + destruct (IH _ _ eq_refl Hin) as (r' & Hr' & Hb).
      exists r'. split; [now apply list_elem_of_further|exact Hb].
Qed.

Lemma ch_no_gaps source dest :
  (forall partition source_count,
     source !! partition = Some source_count ->
     source_count <= default 0 (dest !! partition)) ->
  ChSync.find_partition_gaps source dest = [].
Proof.
  intros H. apply elem_of_nil_inv. intros [[p s] d] Hin.
  apply ch_find_gaps_elem in Hin as (Hs & -> & Hlt).
  specialize (H _ _ Hs). lia.
Qed.

Lemma vm_no_gaps cfg source dest :
  (VmSync.gap_threshold cfg <= 1)%Q ->
  (forall ts source_count,
     source !! ts = Some source_count ->
     0 <= source_count <= default 0 (dest !! ts)) ->
  VmSync.find_gaps cfg source dest = [].
Proof.
  intros Ht H. apply elem_of_nil_inv. intros ts Hin.
  apply vm_find_gaps_elem in Hin as (c & Hc & Hg).
  destruct (H _ _ Hc) as [H0 Hle].
  pose proof (vm_is_gap_source _ _ _ _ Hg H0 Ht). lia.
Qed.

Lemma new_tables_none cfg env items : forall locals created detected,
  Forall (fun item : string * ChSync.table_info =>
            is_Some (locals !! item.1)) items ->
  foldl (ChSync.new_table_step cfg env) (locals, created, detected) items
  = (locals, created, detected).
Proof.
  induction items as [|[name info] rest IH]; intros locals created detected Hall;
    [reflexivity|].
  apply Forall_cons in Hall as [Hhere Hrest]. cbn [foldl].
  unfold ChSync.new_table_step at 2. cbn [fst] in Hhere.
  rewrite bool_decide_eq_true_2 by exact Hhere. apply IH, Hrest.
Qed.

Lemma tables_without_gaps cfg env active items : forall acc,
  Forall (fun item : string * ChSync.table_info =>
            ChSync.find_partition_gaps
              (ChSync.remote_partitions env (ChSync.database item.2)
                 (ChSync.table item.2))
              (ChSync.local_partitions env (ChSync.database item.2)
                 (ChSync.table item.2)) = []) items ->
  foldl (ChSync.table_step cfg env active) acc items = acc.
Proof.
  induction items as [|item rest IH]; intros acc Hall; [reflexivity|].
  apply Forall_cons in Hall as [Hhere Hrest]. cbn [foldl].
  unfold ChSync.table_step at 2. destruct acc as [[a b] c].
  rewrite Hhere. apply IH, Hrest.
Qed.

(** A cycle of the ClickHouse reconciler with the remote site active, no
    table missing locally and no partition behind counts as clean. *)
Lemma ch_surplus_cycle_clean cfg st env active :
  ChSync.local_healthy env = true -> ChSync.remote_healthy env = true ->
  ChSync.get_active_site cfg (ChSync.dns_ip env) = Some active ->
  active <> ChSync.role cfg ->
  (forall name, is_Some (ChSync.remote_tables env !! name) ->
                is_Some (ChSync.local_tables env !! name)) ->
  (forall db tbl partition source_count,
     ChSync.remote_partitions env db tbl !! partition = Some source_count ->
     source_count
     <= default 0 (ChSync.local_partitions env db tbl !! partition)) ->
  ChSync.consecutive_clean (ChSync.run_sync_check cfg st env)
  = ChSync.consecutive_clean st + 1
  /\ ChSync.failback_ready (ChSync.run_sync_check cfg st env)
     = ChSync.failback_ready st
       || (ChSync.failback_clean_checks cfg
           <=? ChSync.consecutive_clean st + 1).
Proof.
  intros Hl Hr Ha Hrole Htables Hparts. unfold ChSync.run_sync_check.
  rewrite Hl, Hr, Ha. cbn [negb].
  rewrite bool_decide_eq_false_2 by exact Hrole.
  rewrite new_tables_none.
  2:{ apply Forall_forall. intros [name info] Hin. cbn [fst].
      apply Htables. apply elem_of_map_to_list in Hin. eauto. }
  rewrite tables_without_gaps.
  2:{ apply Forall_forall. intros item _. apply ch_no_gaps.
      intros p c. apply Hparts. }
  split; [reflexivity|]. cbn.
  destruct (ChSync.failback_clean_checks cfg
            <=? ChSync.consecutive_clean st + 1),
    (ChSync.failback_ready st); reflexivity.
Qed.

(** A cycle of the VictoriaMetrics reconciler in which no source bucket
    has fewer samples at the destination counts as clean. *)
Lemma vm_surplus_cycle_clean cfg st env active :
  VmSync.local_healthy env = true -> VmSync.remote_healthy env = true ->
  VmSync.get_active_site cfg (VmSync.dns_ip env) = Some active ->
  (VmSync.local_counts env <> ∅ \/ VmSync.remote_counts env <> ∅) ->
  (VmSync.gap_threshold cfg <= 1)%Q ->
  (forall ts source_count,
     (VmSync.determine_sync_direction cfg active (VmSync.local_counts env)
        (VmSync.remote_counts env)).1 !! ts = Some source_count ->
     0 <= source_count
     <= default 0
          ((VmSync.determine_sync_direction cfg active
              (VmSync.local_counts env) (VmSync.remote_counts env)).2 !! ts)) ->
  exists st',
    VmSync.run_sync_check cfg st env = Some st'
    /\ VmSync.consecutive_clean st' = VmSync.consecutive_clean st + 1
    /\ VmSync.failback_ready st'
       = VmSync.failback_ready st
         || (VmSync.failback_clean_checks cfg
             <=? VmSync.consecutive_clean st + 1).
Proof.
  intros Hl Hr Ha Hne Ht Hcounts. unfold VmSync.run_sync_check.
  rewrite Hl, Hr, Ha. cbn [negb].
  replace (VmSync.is_empty_dict (VmSync.local_counts env)
           && VmSync.is_empty_dict (VmSync.remote_counts env)) with false.
  2:{ symmetry. apply andb_false_iff. unfold VmSync.is_empty_dict.
      destruct Hne as [Hne|Hne]; [left|right];
        now apply bool_decide_eq_false_2. }
  destruct (VmSync.determine_sync_direction cfg active
              (VmSync.local_counts env) (VmSync.remote_counts env))
    as [source dest].
  rewrite (vm_no_gaps cfg source dest Ht Hcounts).
  eexists. split; [reflexivity|]. split; [reflexivity|]. cbn.
  destruct (VmSync.failback_clean_checks cfg
            <=? VmSync.consecutive_clean st + 1),
    (VmSync.failback_ready st); reflexivity.
Qed.

End GapFacts.

(** Scenario S5: a partition with 1000 rows at the source and 600 at the
    destination is the one gap reported. *)
Example partition_gap_scenario :
  ChSync.find_partition_gaps {[ "20240102" := 1000 ]} {[ "20240102" := 600 ]}
  = [("20240102", 1000, 600)].
Proof. vm_compute. reflexivity. Qed.

(** C10, as stated, fails for the VictoriaMetrics reconciler, which
    accepts any [GAP_THRESHOLD]: with a threshold of 1.5 a bucket with 10
    samples at the source and 12 at the destination is reported as a gap,
    and the cycle that repairs it clears [failback_ready] and resets the
    clean count. With the threshold 0.9 the same bucket is no gap. A
    source count below zero is reported as a gap whatever the destination
    holds. *)
Lemma surplus_is_a_gap_above_threshold_one :
  VmSync.find_gaps GapScenarios.wide_cfg GapScenarios.source_counts
    GapScenarios.dest_counts = [300]
  /\ GapScenarios.source_counts !! 300 = Some 10
  /\ GapScenarios.dest_counts !! 300 = Some 12
  /\ GateScenarios.vm_view
       <$> VmSync.run_sync_check GapScenarios.wide_cfg GapScenarios.ready
             GapScenarios.surplus
     = Some (false, Some "primary", 0)
  /\ VmSync.find_gaps GapScenarios.cfg GapScenarios.source_counts
       GapScenarios.dest_counts = []
  /\ VmSync.find_gaps GapScenarios.cfg {[ 300 := -1 ]} {[ 300 := 5 ]}
     = [300].
Proof. repeat split; vm_compute; reflexivity. Qed.

(** C10, amended. Gap detection ranges over the keys of the source side
    only, so a unit present only at the destination is never reported or
    repaired. In the ClickHouse reconciler a reported gap is a source
    partition whose destination count (0 when absent) is smaller, and
    only such partitions are handed to [sync_partition]. In the
    VictoriaMetrics reconciler the same holds for non-negative source
    counts and a threshold of at most 1: then a reported gap is a source
    bucket whose destination count is smaller; every synced chunk lies
    inside the buckets of reported gaps. Under these conditions, when no
    source unit has a smaller destination count, whatever else the
    destination holds, no gap is reported, and a cycle that gets to
    compare (both stores healthy, active site resolved; some data present
    for the VictoriaMetrics reconciler; the remote site active and no
    table missing locally for the ClickHouse one) increments
    [consecutive_clean], keeps [failback_ready] if set and sets it once
    the count reaches [failback_clean_checks]. *)
Theorem gaps_only_on_source_keys :
  (forall source dest partition source_count dest_count,
     (partition, source_count, dest_count)
       ∈ ChSync.find_partition_gaps source dest ->
     source !! partition = Some source_count
     /\ dest_count = default 0 (dest !! partition)
     /\ dest_count < source_count)
  /\ (forall cfg source dest active partition,
        partition ∈ ChSync.sync_calls cfg source dest active ->
        exists source_count dest_count,
          (partition, source_count, dest_count)
            ∈ ChSync.find_partition_gaps source dest)
  /\ (forall source dest,
        (forall partition source_count,
           source !! partition = Some source_count ->
           source_count <= default 0 (dest !! partition)) ->
        ChSync.find_partition_gaps source dest = [])
  /\ (forall cfg source dest ts,
        ts ∈ VmSync.find_gaps cfg source dest ->
        exists source_count,
          source !! ts = Some source_count
          /\ (0 <= source_count ->
              (VmSync.gap_threshold cfg <= 1)%Q ->
              default 0 (dest !! ts) < source_count))
  /\ (forall cfg source dest cs c t,
        VmSync.all_chunks (VmSync.chunk_size cfg)
          (VmSync.merge_consecutive (VmSync.find_gaps cfg source dest)
             (VmSync.query_step cfg)) = Some cs ->
        c ∈ cs -> c.1 <= t < c.2 ->
        exists g,
          g ∈ VmSync.find_gaps cfg source dest
          /\ g <= t < g + VmSync.query_step cfg)
  /\ (forall cfg source dest,
        (VmSync.gap_threshold cfg <= 1)%Q ->
        (forall ts source_count,
           source !! ts = Some source_count ->
           0 <= source_count <= default 0 (dest !! ts)) ->
        VmSync.find_gaps cfg source dest = [])
  /\ (forall cfg st env active,
        ChSync.local_healthy env = true ->
        ChSync.remote_healthy env = true ->
        ChSync.get_active_site cfg (ChSync.dns_ip env) = Some active ->
        active <> ChSync.role cfg ->
        (forall name, is_Some (ChSync.remote_tables env !! name) ->
                      is_Some (ChSync.local_tables env !! name)) ->
        (forall db tbl partition source_count,
           ChSync.remote_partitions env db tbl !! partition
             = Some source_count ->
           source_count
           <= default 0 (ChSync.local_partitions env db tbl !! partition)) ->
        ChSync.consecutive_clean (ChSync.run_sync_check cfg st env)
        = ChSync.consecutive_clean st + 1
        /\ ChSync.failback_ready (ChSync.run_sync_check cfg st env)
           = ChSync.failback_ready st
             || (ChSync.failback_clean_checks cfg
                 <=? ChSync.consecutive_clean st + 1))
  /\ (forall cfg st env active,
        VmSync.local_healthy env = true ->
        VmSync.remote_healthy env = true ->
        VmSync.get_active_site cfg (VmSync.dns_ip env) = Some active ->
        (VmSync.local_counts env <> ∅ \/ VmSync.remote_counts env <> ∅) ->
        (VmSync.gap_threshold cfg <= 1)%Q ->
        (forall ts source_count,
           (VmSync.determine_sync_direction cfg active
              (VmSync.local_counts env) (VmSync.remote_counts env)).1 !! ts
             = Some source_count ->
           0 <= source_count
           <= default 0
                ((VmSync.determine_sync_direction cfg active
                    (VmSync.local_counts env)
                    (VmSync.remote_counts env)).2 !! ts)) ->
        exists st',
          VmSync.run_sync_check cfg st env = Some st'
          /\ VmSync.consecutive_clean st' = VmSync.consecutive_clean st + 1
          /\ VmSync.failback_ready st'
             = VmSync.failback_ready st
               || (VmSync.failback_clean_checks cfg
                   <=? VmSync.consecutive_clean st + 1)).
Proof.
  repeat apply conj; [..|exact ch_surplus_cycle_clean
                        |exact vm_surplus_cycle_clean].
  - intros *. apply ch_find_gaps_elem.
  - intros *. apply ch_sync_calls_elem.
  - exact ch_no_gaps.
  - intros cfg source dest ts (c & Hc & Hg)%vm_find_gaps_elem.
    exists c. split; [exact Hc|]. intros H0 Ht.
    exact (vm_is_gap_source _ _ _ _ Hg H0 Ht).
  - intros cfg source dest cs c t Hcs Hc Ht.
    destruct (all_chunks_within _ _ _ _ Hcs Hc) as (r & Hr & Hb).
    pose proof (merge_consecutive_buckets
                  (VmSync.find_gaps cfg source dest) (VmSync.query_step cfg))
      as Hall.
    rewrite Forall_forall in Hall. apply (Hall r Hr). lia.
  - exact vm_no_gaps.
Qed.

Lemma gaps_only_on_source_keys_witness :
  VmSync.find_gaps GapScenarios.cfg GapScenarios.source_counts
    GapScenarios.dest_counts = []
  /\ ChSync.find_partition_gaps GapScenarios.source_partitions
       GapScenarios.dest_partitions = [].
Proof.
  destruct gaps_only_on_source_keys as (_ & _ & Hch & _ & _ & Hvm & _).
  split.
  - apply Hvm; [vm_compute; discriminate|].
    intros ts c Hc. unfold GapScenarios.source_counts in Hc.
    apply lookup_singleton_Some in Hc as [<- <-].
    vm_compute. split; discriminate.
  - apply Hch. intros p c Hc. unfold GapScenarios.source_partitions in Hc.
    apply lookup_singleton_Some in Hc as [<- <-].
    vm_compute. discriminate.
Defined.

(** * Further properties *)

(** ** Lease codec: quoting and repeated keys *)

Section LeaseMore.

Lemma remove_char_app c a b :
  Py.remove_char c (a ++ b)%string
  = (Py.remove_char c a ++ Py.remove_char c b)%string.
Proof.
  induction a as [|x a IH]; [reflexivity|].
  change ((String x a ++ b)%string) with (String x (a ++ b)%string).
  cbn [Py.remove_char]. rewrite IH. destruct (Py.ascii_eqb x c); reflexivity.
Qed.

(** [parse_txt] looks at its argument through the quote removal only. *)
Lemma parse_txt_unquoted s :
  Lease.parse_txt (Some s)
  = foldl Lease.add_part ∅ (Py.split (Py.remove_char Lease.dquote s)).
Proof. destruct s; reflexivity. Qed.

Lemma split_starts_token a s :
  Py.is_space a = false -> exists t ts, Py.split (String a s) = t :: ts.
Proof.
  revert a. induction s as [|b s IH]; intros a Ha.
  - cbn [Py.split]. rewrite Ha. eauto.
  - destruct (Py.is_space b) eqn:Hb.
    + cbn [Py.split]. rewrite Ha, Hb. eauto.
    + rewrite split_cons_cons by assumption.
      destruct (IH b Hb) as (t & ts & ->). eauto.
Qed.

(** Tokens before a blank and tokens after it are found independently. *)
Lemma split_app_space s c r :
  Py.is_space c = true ->
  Py.split (s ++ String c r) = Py.split s ++ Py.split r.
Proof.
  intros Hc. induction s as [|a s IH].
  - change ((EmptyString ++ String c r)%string) with (String c r).
    cbn [Py.split]. rewrite Hc. reflexivity.
  - change ((String a s ++ String c r)%string)
      with (String a (s ++ String c r)%string).
    destruct (Py.is_space a) eqn:Ha.
    + cbn [Py.split]. rewrite Ha. exact IH.
    + destruct s as [|b s].
      * change ((EmptyString ++ String c r)%string) with (String c r).
        cbn [Py.split]. rewrite Ha, Hc. reflexivity.
      * change ((String b s ++ String c r)%string)
          with (String b (s ++ String c r)%string) in *.
        destruct (Py.is_space b) eqn:Hb.
        -- change (Py.split (String a (String b (s ++ String c r)%string)))
             with (if Py.is_space a
                   then Py.split (String b (s ++ String c r)%string)
                   else if Py.is_space b
                        then String a EmptyString
                             :: Py.split (String b (s ++ String c r)%string)
                        else match Py.split (String b (s ++ String c r)%string)
                             with
                             | t :: ts => String a t :: ts
                             | [] => [String a EmptyString]
                             end).
           change (Py.split (String a (String b s)))
             with (if Py.is_space a then Py.split (String b s)
                   else if Py.is_space b
                        then String a EmptyString :: Py.split (String b s)
                        else match Py.split (String b s) with
                             | t :: ts => String a t :: ts
                             | [] => [String a EmptyString]
                             end).
           rewrite Ha, Hb, IH. reflexivity.
        -- rewrite !split_cons_cons by assumption. rewrite IH.
           destruct (split_starts_token b s Hb) as (t & ts & ->).
           reflexivity.
Qed.

Lemma contains_app_r c a b :
  Py.contains c b = true -> Py.contains c (a ++ b)%string = true.
Proof.
  intros Hb. induction a as [|x a IH]; [exact Hb|].
  change ((String x a ++ b)%string) with (String x (a ++ b)%string).
  cbn [Py.contains]. rewrite IH. apply orb_true_r.
Qed.

Lemma split1_first c k v :
  Py.contains c k = false ->
  Py.split1 c (k ++ String c v) = Some (k, v).
Proof.
  induction k as [|x k IH]; intros Hk.
  - change ((EmptyString ++ String c v)%string) with (String c v).
    cbn [Py.split1]. unfold Py.ascii_eqb. rewrite Ascii.eqb_refl. reflexivity.
  - change ((String x k ++ String c v)%string)
      with (String x (k ++ String c v)%string).
    cbn [Py.contains] in Hk. apply orb_false_iff in Hk as [Hx Hk].
    cbn [Py.split1]. rewrite Hx, (IH Hk). reflexivity.
Qed.

End LeaseMore.

(** X1. Double quotes in a TXT value do not matter: two values that are
    equal once their quotes are removed decode alike. In particular an
    encoded lease wrapped in quotes, as DNS tools print it, decodes to its
    owner and expiry. *)
Theorem decode_ignores_quotes :
  (forall s s',
     Py.remove_char Lease.dquote s = Py.remove_char Lease.dquote s' ->
     Lease.decode (Some s) = Lease.decode (Some s'))
  /\ (forall o z,
        all_chars plain o = true ->
        Lease.decode
          (Some (String Lease.dquote
                   (Lease.encode o z ++ String Lease.dquote EmptyString)))
        = Py.Ok (Some o, z)).
Proof.
  assert (H : forall s s',
     Py.remove_char Lease.dquote s = Py.remove_char Lease.dquote s' ->
     Lease.decode (Some s) = Lease.decode (Some s')).
  { intros s s' E. unfold Lease.decode.
    rewrite (parse_txt_unquoted s), (parse_txt_unquoted s'), E. reflexivity. }
  split; [exact H|].
  intros o z Ho. rewrite <- (decode_encode o z Ho). apply H.
  change (String Lease.dquote
            (Lease.encode o z ++ String Lease.dquote EmptyString))
    with ((String Lease.dquote EmptyString
           ++ (Lease.encode o z ++ String Lease.dquote EmptyString))%string).
  rewrite !remove_char_app.
  change (Py.remove_char Lease.dquote (String Lease.dquote EmptyString))
    with EmptyString.
  rewrite string_app_nil_r. reflexivity.
Qed.

Lemma decode_ignores_quotes_witness :
  Lease.decode
    (Some (String Lease.dquote
             (Lease.encode "dr" 121 ++ String Lease.dquote EmptyString)))
  = Py.Ok (Some "dr", 121).
Proof.
  destruct decode_ignores_quotes as [_ H]. apply (H "dr" 121). reflexivity.
Defined.

(** X2. When a key occurs in several tokens, the last one wins: a final
    token [k=v] (no blank or quote in it, no ['='] in [k]) fixes the value
    of [k], whatever precedes it. *)
Theorem parse_txt_last_token_wins (s k v : string) :
  all_chars plain k = true -> all_chars plain v = true ->
  Py.contains "=" k = false ->
  Lease.parse_txt (Some (s ++ " " ++ k ++ "=" ++ v)%string) !! k = Some v.
Proof.
  intros Hk Hv Hne. rewrite parse_txt_unquoted.
  change ((s ++ " " ++ k ++ "=" ++ v)%string)
    with ((s ++ String " " (k ++ String "=" v))%string).
  rewrite remove_char_app.
  change (Py.remove_char Lease.dquote (String " " (k ++ String "=" v)))
    with (String " " (Py.remove_char Lease.dquote (k ++ String "=" v))).
  rewrite (remove_char_absent _ (k ++ String "=" v)).
  2:{ rewrite all_chars_app. cbn [all_chars].
      rewrite (plain_no_quote _ Hk), (plain_no_quote _ Hv). reflexivity. }
  rewrite split_app_space by reflexivity.
  rewrite (split_token (k ++ String "=" v)).
  2:{ destruct k; discriminate. }
  2:{ rewrite all_chars_app. cbn [all_chars].
      rewrite (plain_no_space _ Hk), (plain_no_space _ Hv). reflexivity. }
  rewrite foldl_app. cbn [foldl]. unfold Lease.add_part at 1.
  rewrite contains_app_r by reflexivity.
  rewrite (split1_first "=" k v Hne). apply lookup_insert_eq.
Qed.

Lemma parse_txt_last_token_wins_witness :
  Lease.parse_txt (Some "owner=primary exp=60 owner=dr") !! "owner"
  = Some "dr".
Proof.
  apply (parse_txt_last_token_wins "owner=primary exp=60" "owner" "dr");
    reflexivity.
Defined.

(** ** Failover controller: leases over time *)

Section ControllerMore.

Import Failover.

Lemma dr_tick_next cfg fails env fails' :
  next (dr_tick cfg fails env) = Py.Ok fails' ->
  fails' = count_failures fails env.
Proof.
  unfold dr_tick.
  destruct (probe env); cbn [next]; [congruence|].
  destruct (fail_threshold cfg <=? count_failures fails env); cbn [next];
    [|congruence].
  destruct (records_TXT env); cbn [next]; [|discriminate].
  destruct (Lease.exp_of _); cbn [next]; [|discriminate].
  unfold after_write.
  repeat (case_bool_decide || case_match); cbn [next]; congruence.
Qed.

(** The [i]-th logged iteration ran on the [i]-th answer of the world,
    with the failure count that the probes so far add up to. *)
Lemma heartbeat_dr_from_lookup cfg envs : forall fails i obs,
  heartbeat_dr_from cfg fails envs !! i = Some obs ->
  exists env,
    envs !! i = Some env
    /\ o_env obs = env
    /\ o_fails obs = foldl count_failures fails (take (S i) envs)
    /\ o_writes obs
       = issued (dr_tick cfg (foldl count_failures fails (take i envs)) env).
Proof.
  induction envs as [|env rest IH]; intros fails i obs;
    cbn [heartbeat_dr_from]; [rewrite lookup_nil; discriminate|].
  destruct (next (dr_tick cfg fails env)) as [fails'|x] eqn:Hn.
  - destruct i as [|i]; cbn [lookup list_lookup].
    + intros [= <-]. exists env. repeat split; reflexivity.
    + intros Hi. apply dr_tick_next in Hn as ->.
      destruct (IH _ _ _ Hi) as (e & He & Ho & Hf & Hw).
      exists e. repeat split; assumption.
  - destruct i as [|i]; cbn [lookup list_lookup].
    + intros [= <-]. exists env. repeat split; reflexivity.
    + discriminate.
Qed.

Lemma streak_bound envs :
  0 <= foldl count_failures 0 envs <= Z.of_nat (length envs).
Proof.
  induction envs as [|e envs IH] using rev_ind; [cbn; lia|].
  rewrite foldl_app, length_app. cbn [foldl length].
  revert IH. generalize (foldl count_failures 0 envs). intros f IH.
  unfold count_failures. destruct (probe e); lia.
Qed.

(** A failure count of at least [n] means the last [n] probes failed. *)
Lemma streak_last_failed envs : forall (n : nat) j env,
  Z.of_nat n <= foldl count_failures 0 envs ->
  (length envs <= j + n)%nat -> envs !! j = Some env ->
  probe env = false.
Proof.
  induction envs as [|e envs IH] using rev_ind; intros n j env Hn Hj Hl;
    [rewrite lookup_nil in Hl; discriminate|].
  rewrite foldl_app in Hn. cbn [foldl] in Hn.
  rewrite length_app in Hj. cbn [length] in Hj.
  pose proof (streak_bound envs) as Hnonneg.
  revert Hn IH Hnonneg. generalize (foldl count_failures 0 envs).
  intros f Hn IH Hnonneg. unfold count_failures in Hn.
  assert (Hlt : (j < length (envs ++ [e]))%nat)
    by (apply lookup_lt_is_Some; eauto).
  rewrite length_app in Hlt. cbn [length] in Hlt.
  destruct (decide (j = length envs)) as [->|Hne].
  - rewrite lookup_app_r, Nat.sub_diag in Hl by lia.
    cbn in Hl. injection Hl as Heq. subst.
    destruct (probe _); [lia|reflexivity].
  - rewrite lookup_app_l in Hl by lia.
    destruct (probe e); [lia|].
    apply (IH (n - 1)%nat j env); [lia|lia|exact Hl].
Qed.


End ControllerMore.

(** X3. Monotonic lease: the [n]-th call of the primary heartbeat writes the
    expiry [now + lease_ttl] for the [n]-th clock reading, so when the
    clock never goes back, a later write's expiry is at least an earlier
    write's. *)
Theorem primary_lease_monotone cfg clocks :
  (forall i j a b, (i <= j)%nat ->
     clocks !! i = Some a -> clocks !! j = Some b -> a <= b) ->
  forall i j wi wj, (i <= j)%nat ->
    Failover.heartbeat_primary cfg clocks !! i = Some wi ->
    Failover.heartbeat_primary cfg clocks !! j = Some wj ->
    Failover.w_exp wi <= Failover.w_exp wj
    /\ exists now, clocks !! j = Some now
                   /\ Failover.w_exp wj = now + Failover.lease_ttl cfg.
Proof.
  intros Hmono i j wi wj Hij Hi Hj.
  unfold Failover.heartbeat_primary in Hi, Hj.
  change (map (Failover.primary_tick cfg) clocks)
    with (Failover.primary_tick cfg <$> clocks) in Hi, Hj.
  rewrite list_lookup_fmap in Hi, Hj.
  destruct (clocks !! i) as [a|] eqn:Ha; [|discriminate].
  destruct (clocks !! j) as [b|] eqn:Hb; [|discriminate].
  injection Hi as <-. injection Hj as <-. cbn.
  pose proof (Hmono _ _ _ _ Hij Ha Hb). split; [lia|eauto].
Qed.

Lemma primary_lease_monotone_witness :
  60 + 60 <= 70 + 60.
Proof.
  pose (cfg := {| Failover.role := "primary";
                  Failover.primary_ip := "10.10.10.10";
                  Failover.dr_ip := "10.20.20.10"; Failover.lease_ttl := 60;
                  Failover.update_interval := 10;
                  Failover.fail_threshold := 3 |}).
  refine (proj1 (primary_lease_monotone cfg [50; 60; 70] _ 1%nat 2%nat
                   (Failover.SetRecords "10.10.10.10" "primary" (60 + 60))
                   (Failover.SetRecords "10.10.10.10" "primary" (70 + 60))
                   _ eq_refl eq_refl)); [|lia].
  intros [|[|[|i]]] [|[|[|j]]] a b Hij Ha Hb;
    cbn in Ha, Hb; try discriminate; try lia;
    injection Ha as <-; injection Hb as <-; lia.
Defined.

(** X4. The DR loop counts consecutive failed probes: a call is issued in
    iteration [i] only if at least [fail_threshold] iterations have run
    and every one of the last [fail_threshold] probes failed. A single
    healthy probe therefore puts any promotion off by another
    [fail_threshold] iterations. *)
Theorem dr_write_needs_failed_streak cfg envs i obs w :
  Failover.heartbeat_dr cfg envs !! i = Some obs ->
  w ∈ Failover.o_writes obs ->
  Failover.fail_threshold cfg <= Z.of_nat (S i)
  /\ forall j env,
       (j <= i)%nat -> Z.of_nat i < Z.of_nat j + Failover.fail_threshold cfg ->
       envs !! j = Some env -> Failover.probe env = false.
Proof.
  intros Hi Hw.
  destruct (heartbeat_dr_from_lookup _ _ _ _ _ Hi) as (e & He & Ho & Hf & Hwr).
  rewrite Hwr in Hw.
  destruct (dr_tick_issued _ _ _ _ Hw) as (Hp & Hthr & _).
  assert (Hcount : Failover.fail_threshold cfg
                   <= foldl Failover.count_failures 0 (take (S i) envs)).
  { rewrite (take_S_r _ _ _ He), foldl_app. exact Hthr. }
  pose proof (streak_bound (take (S i) envs)) as Hb.
  assert (Hlen : length (take (S i) envs) = S i).
  { rewrite length_take. apply lookup_lt_Some in He. lia. }
  rewrite Hlen in Hb. split; [lia|].
  intros j env Hj Hlt Hl.
  destruct (Z.le_gt_cases (Failover.fail_threshold cfg) 0) as [H0|H0]; [lia|].
  apply (streak_last_failed (take (S i) envs)
           (Z.to_nat (Failover.fail_threshold cfg)) j env).
  - rewrite Z2Nat.id by lia. exact Hcount.
  - rewrite Hlen. lia.
  - rewrite lookup_take_lt by lia. exact Hl.
Qed.

Lemma dr_write_needs_failed_streak_witness :
  Failover.fail_threshold FailoverScenarios.cfg <= 4.
Proof.
  refine (proj1 (dr_write_needs_failed_streak FailoverScenarios.cfg
                   (FailoverScenarios.down (Some "owner=primary exp=60")
                      <$> [10; 20; 30; 61]) 3%nat
                   {| Failover.o_env :=
                        FailoverScenarios.down (Some "owner=primary exp=60") 61;
                      Failover.o_fails := 4;
                      Failover.o_writes :=
                        [Failover.SetRecords "10.20.20.10" "dr" 121] |}
                   (Failover.SetRecords "10.20.20.10" "dr" 121) _ _)).
  - vm_compute. reflexivity.
  - apply list_elem_of_here.
Defined.

(** X5. A lease whose [exp] token is not a number stops the DR loop: in the
    first iteration that reaches the fail threshold and reads such a
    lease, [int()] raises, nothing is written, and no later iteration
    runs. *)
Theorem dr_loop_dies_on_bad_expiry cfg fails env rest txt x :
  Failover.probe env = false ->
  Failover.fail_threshold cfg <= fails + 1 ->
  Failover.records_TXT env = Py.Ok txt ->
  Lease.exp_of (Lease.parse_txt txt) = Py.Raise x ->
  Failover.heartbeat_dr_from cfg fails (env :: rest)
  = [{| Failover.o_env := env; Failover.o_fails := fails + 1;
        Failover.o_writes := [] |}].
Proof.
  intros Hp Hf Hr He. cbn [Failover.heartbeat_dr_from].
  unfold Failover.dr_tick, Failover.count_failures. rewrite Hp, Hr, He.
  destruct (Z.leb_spec (Failover.fail_threshold cfg) (fails + 1)); [|lia].
  reflexivity.
Qed.

Lemma dr_loop_dies_on_bad_expiry_witness :
  Failover.o_writes <$>
    Failover.heartbeat_dr_from FailoverScenarios.cfg 2
      (FailoverScenarios.down (Some "owner=primary exp=soon")
         <$> [30; 40; 50])
  = [[]].
Proof.
  cbn [fmap list_fmap].
  rewrite (dr_loop_dies_on_bad_expiry FailoverScenarios.cfg 2 _ _
             (Some "owner=primary exp=soon") Py.ValueError);
    [reflexivity|reflexivity|vm_compute; discriminate|reflexivity
    |vm_compute; reflexivity].
Defined.

(** X6. [show] after a dry-run write: for an owner without blanks or
    quotes, the view shows the written IP and owner, the expiry as it was
    printed, and [exp - now] as the time remaining; an expiry of 0 is
    shown with no time remaining. With no state file every entry is
    empty. *)
Theorem show_after_write (dns_record ip owner : string) (exp now : Z) :
  all_chars plain owner = true ->
  Controller.show_dns dns_record
    (Failover.DryRun_get_records
       (Some (Failover.DryRun_set_records
                (Failover.SetRecords ip owner exp)))) now
  = Py.Ok {| Controller.v_record := dns_record;
             Controller.v_A := Some ip;
             Controller.v_owner := Some owner;
             Controller.v_expires_at := Some (Py.str exp);
             Controller.v_time_remaining :=
               if exp =? 0 then None else Some (exp - now) |}
  /\ Controller.show_dns dns_record (Failover.DryRun_get_records None) now
     = Py.Ok {| Controller.v_record := dns_record;
                Controller.v_A := None; Controller.v_owner := None;
                Controller.v_expires_at := None;
                Controller.v_time_remaining := None |}.
Proof.
  intros Ho. split; [|reflexivity].
  unfold Controller.show_dns.
  cbn [Failover.DryRun_get_records Failover.DryRun_set_records
       Failover.zone_A Failover.zone_TXT Failover.w_ip Failover.w_owner
       Failover.w_exp].
  rewrite (parse_txt_encode owner exp Ho).
  unfold Lease.exp_of. rewrite lookup_insert_eq.
  cbn [default from_option]. unfold id. rewrite truthy_str, int_str.
  rewrite lookup_insert_ne by discriminate. rewrite lookup_insert_eq.
  reflexivity.
Qed.

Lemma show_after_write_witness :
  Controller.v_time_remaining
  <$> (match Controller.show_dns "syslog.example"
               (Failover.DryRun_get_records
                  (Some (Failover.DryRun_set_records
                           (Failover.SetRecords "10.20.20.10" "dr" 121)))) 100
       with Py.Ok v => Some v | Py.Raise _ => None end)
  = Some (Some 21).
Proof.
  rewrite (proj1 (show_after_write "syslog.example" "10.20.20.10" "dr"
                    121 100 eq_refl)).
  reflexivity.
Defined.

(** ** The DR loop with the progress probe *)

Section MetricsOutage.

Variable float : Type.
Variable fzero : float.
Variable fadd : float -> float -> float.
Variable fgt : float -> float -> bool.
Variable to_float : string -> option float.

Import Failover.

(** While the endpoint stays unreachable, the iteration at offset [i]
    sees the verdict [stale + i + 1 < stale_count], and the failure count
    follows. *)
Lemma outage_from cfg ticks : forall checker fails i obs,
  Forall (fun t : option string * dr_env => t.1 = None) ticks ->
  0 <= Probe.stale_checks checker ->
  fails = Z.max 0 (Probe.stale_checks checker
                   - Z.max 0 (Probe.stale_count checker - 1)) ->
  heartbeat_dr_from cfg fails
    (zip_with Controller.with_probe
       (Controller.metrics_probes float fzero fadd fgt to_float checker
          (map fst ticks))
       (map snd ticks)) !! i = Some obs ->
  probe (o_env obs)
  = (Probe.stale_checks checker + Z.of_nat (S i) <? Probe.stale_count checker)
  /\ o_fails obs
     = Z.max 0 (Probe.stale_checks checker + Z.of_nat (S i)
                - Z.max 0 (Probe.stale_count checker - 1)).
Proof.
  induction ticks as [|[text env] rest IH]; intros checker fails i obs Hall Hs Hf;
    [cbn; discriminate|].
  apply Forall_cons in Hall as [Hnone Hall]. cbn [fst] in Hnone. subst text.
  cbn [map fst snd Controller.metrics_probes Probe.check Probe.stale
       zip_with heartbeat_dr_from].
  set (env' := Controller.with_probe _ env).
  set (checker' := {| Probe.metric_name := _ |}).
  assert (Hp : probe env'
               = (Probe.stale_checks checker + 1 <? Probe.stale_count checker))
    by reflexivity.
  assert (Hc : count_failures fails env'
               = Z.max 0 (Probe.stale_checks checker + 1
                          - Z.max 0 (Probe.stale_count checker - 1))).
  { unfold count_failures. rewrite Hp.
    destruct (Z.ltb_spec (Probe.stale_checks checker + 1)
                (Probe.stale_count checker)); lia. }
  destruct (next (dr_tick cfg fails env')) as [fails'|x] eqn:Hn.
  - destruct i as [|i]; cbn [lookup list_lookup].
    + intros [= <-]. cbn [o_env o_fails]. rewrite Hp, Hc.
      split; f_equal; lia.
    + intros Hi. apply dr_tick_next in Hn. subst fails'.
      destruct (IH checker' (count_failures fails env') i obs Hall)
        as [H1 H2].
      * cbn. lia.
      * rewrite Hc. cbn [Probe.stale_checks Probe.stale_count checker'].
        reflexivity.
      * exact Hi.
      * cbn [Probe.stale_checks Probe.stale_count checker'] in H1, H2.
        rewrite H1, H2. split; f_equal; lia.
  - destruct i as [|i]; cbn [lookup list_lookup]; [|discriminate].
    intros [= <-]. cbn [o_env o_fails]. rewrite Hp, Hc. split; f_equal; lia.
Qed.

End MetricsOutage.

(** X7. With the progress probe and the endpoint unreachable from the
    start, the first [stale_count - 1] iterations still count as healthy.
    The failure count in iteration [i] (counted from 0) is
    [max 0 (i + 1 - max 0 (stale_count - 1))], so the DR issues no call
    before iteration number [fail_threshold + max 0 (stale_count - 1)]. *)
Theorem metrics_outage_delays_promotion
    (float : Type) (fzero : float) (fadd : float -> float -> float)
    (fgt : float -> float -> bool) (to_float : string -> option float)
    (cfg : Failover.Config) (name : string) (limit : Z)
    (ticks : list (option string * Failover.dr_env))
    (i : nat) (obs : Failover.dr_obs) :
  Forall (fun t : option string * Failover.dr_env => t.1 = None) ticks ->
  Controller.heartbeat_dr_metrics float fzero fadd fgt to_float cfg
    (Controller.new_checker float name limit) ticks !! i = Some obs ->
  Failover.o_fails obs = Z.max 0 (Z.of_nat (S i) - Z.max 0 (limit - 1))
  /\ (forall w, w ∈ Failover.o_writes obs ->
        Failover.fail_threshold cfg + Z.max 0 (limit - 1) <= Z.of_nat (S i)).
Proof.
  intros Hall Hi. unfold Controller.heartbeat_dr_metrics in Hi.
  pose proof Hi as Hi'.
  apply (outage_from float fzero fadd fgt to_float) in Hi as [Hp Hf];
    [|exact Hall|cbn; lia|cbn; lia].
  cbn [Controller.new_checker Probe.stale_checks Probe.stale_count] in Hp, Hf.
  replace (0 + Z.of_nat (S i)) with (Z.of_nat (S i)) in Hp, Hf by lia.
  split; [exact Hf|].
  intros w Hw.
  destruct (heartbeat_dr_from_lookup _ _ _ _ _ Hi')
    as (e & He & Ho & Hfo & Hwr).
  rewrite Hwr in Hw.
  destruct (dr_tick_issued _ _ _ _ Hw) as (Hpf & Hthr & _).
  rewrite <- Ho in Hpf. rewrite Hp in Hpf.
  apply Z.ltb_ge in Hpf.
  rewrite (take_S_r _ _ _ He), foldl_app in Hfo. cbn [foldl] in Hfo.
  rewrite <- Hfo, Hf in Hthr. lia.
Qed.

Lemma metrics_outage_delays_promotion_witness :
  Failover.fail_threshold FailoverScenarios.cfg + Z.max 0 (3 - 1) <= 5.
Proof.
  pose (tick := fun now : Z =>
          (@None string, FailoverScenarios.down None now)).
  refine (proj2 (metrics_outage_delays_promotion PrimFloat.float
                   PrimFloat.zero PrimFloat.add ProbeScenarios.fgt
                   ProbeScenarios.float_of_literal FailoverScenarios.cfg
                   "accepted" 3 (tick <$> [10; 20; 30; 40; 50]) 4%nat
                   {| Failover.o_env := FailoverScenarios.down None 50;
                      Failover.o_fails := 3;
                      Failover.o_writes :=
                        [Failover.SetRecords "10.20.20.10" "dr" 110] |}
                   _ _)
            (Failover.SetRecords "10.20.20.10" "dr" 110) _).
  - repeat constructor.
  - vm_compute. reflexivity.
  - apply list_elem_of_here.
Defined.

(** ** Ownership follower: what an iteration guarantees *)

Section WatcherMore.

Import Watcher.

Lemma world_dead happens c : is_running c = false ->
  is_running (world happens c) = false.
Proof.
  intros H. destruct happens; [|exact H].
  unfold world, child_exits, is_running.
  destruct (process c) eqn:E; cbn; rewrite ?E; reflexivity.
Qed.

Lemma stop_not_running c :
  consistent c -> is_running (stop c) = false.
Proof.
  unfold consistent, is_running, stop.
  destruct (process c) as [alive|] eqn:Hp.
  - intros ->. rewrite bool_decide_eq_true_2 by eauto. reflexivity.
  - intros ->. cbn. rewrite Hp. reflexivity.
Qed.

Lemma consistent_world happens c : consistent c -> consistent (world happens c).
Proof.
  unfold consistent, world, child_exits. destruct happens; [|tauto].
  destruct (process c) eqn:E; cbn; rewrite ?E; intros ->;
    rewrite ?bool_decide_eq_true_2 by eauto; reflexivity.
Qed.

Lemma consistent_start ok c : consistent c -> consistent (start ok c).
Proof.
  unfold consistent, start. intros H.
  destruct (running c) eqn:Hr; [rewrite Hr; exact H|].
  destruct ok; [reflexivity|]. cbn. exact H.
Qed.

Lemma consistent_stop c : consistent c -> consistent (stop c).
Proof.
  unfold consistent, stop. intros H.
  destruct (negb (running c) || negb (bool_decide (is_Some (process c))))
    eqn:E; [exact H|reflexivity].
Qed.

Lemma consistent_tick my_ip st env :
  consistent (collector st) -> consistent (collector (tick my_ip st env).1).
Proof.
  intros H. unfold tick.
  pose proof (consistent_world (exit_before env) _ H) as H0.
  destruct (dns env) as [ip|]; [|exact H0].
  destruct (bool_decide (ip = my_ip)); cbn [andb].
  - destruct (negb (is_running (world (exit_before env) (collector st)))).
    + pose proof (consistent_world (exit_between env) _
                    (consistent_start (popen_ok env) _ H0)) as H1.
      destruct (negb (is_running _)); cbn [fst collector];
        [apply consistent_start|]; exact H1.
    + pose proof (consistent_world (exit_between env) _ H0) as H1.
      destruct (negb (is_running _)); cbn [fst collector];
        [apply consistent_start|]; exact H1.
  - destruct (is_running (world (exit_before env) (collector st)));
      cbn [fst collector]; apply consistent_world;
      [apply consistent_stop|]; exact H0.
Qed.

Lemma consistent_main_state my_ip envs : forall st,
  consistent (collector st) ->
  consistent (collector (WatcherRun.main_state my_ip st envs)).
Proof.
  unfold WatcherRun.main_state.
  induction envs as [|env rest IH]; intros st H; [exact H|].
  cbn [foldl]. apply IH, consistent_tick, H.
Qed.

Lemma orphaned_tick my_ip st env :
  orphaned (collector st) ->
  collector (tick my_ip st env).1 = collector st
  /\ count_calls Stop (tick my_ip st env).2 = 0%nat.
Proof.
  destruct st as [last [proc run]]. intros [Hp Hr]. cbn in Hp, Hr. subst.
  unfold tick. cbn [collector].
  assert (Hw : forall b, world b {| process := Some false; running := true |}
                         = {| process := Some false; running := true |})
    by (intros []; reflexivity).
  rewrite Hw. destruct (dns env) as [ip|]; [|split; reflexivity].
  destruct (bool_decide (ip = my_ip)); cbn; rewrite ?Hw; split; reflexivity.
Qed.

End WatcherMore.

(** X8. In every state the loop reaches, an iteration in which the name
    resolves to another address leaves the child not running, whatever
    the world did meanwhile; it calls [start] not at all and [stop] at
    most once. An iteration in which the name resolves to this site's
    address never calls [stop]. *)
Theorem follower_stops_when_name_moves my_ip history env ip :
  let st := WatcherRun.main_state my_ip Watcher.initial history in
  Watcher.dns env = Some ip ->
  (ip <> my_ip ->
   Watcher.is_running (Watcher.collector (Watcher.tick my_ip st env).1) = false
   /\ ((Watcher.tick my_ip st env).2 = []
       \/ (Watcher.tick my_ip st env).2 = [Watcher.Stop]))
  /\ (ip = my_ip ->
      Watcher.count_calls Watcher.Stop (Watcher.tick my_ip st env).2 = 0%nat).
Proof.
  intros st Hd.
  assert (Hc : consistent (Watcher.collector st)).
  { apply consistent_main_state. reflexivity. }
  pose proof (consistent_world (Watcher.exit_before env) _ Hc) as H0.
  unfold Watcher.tick. rewrite Hd. split.
  - intros Hne. rewrite bool_decide_eq_false_2 by exact Hne. cbn [andb].
    destruct (Watcher.is_running
                (Watcher.world (Watcher.exit_before env) (Watcher.collector st)))
      eqn:Hrun; cbn [fst snd Watcher.collector app].
    + split; [|right; reflexivity].
      apply world_dead, stop_not_running, H0.
    + split; [|left; reflexivity]. apply world_dead, Hrun.
  - intros ->. rewrite bool_decide_eq_true_2 by reflexivity. cbn [andb].
    destruct (negb (Watcher.is_running
                      (Watcher.world (Watcher.exit_before env)
                         (Watcher.collector st))));
      destruct (negb (Watcher.is_running _)); reflexivity.
Qed.

Lemma follower_stops_when_name_moves_witness :
  Watcher.is_running
    (Watcher.collector
       (Watcher.tick WatcherScenarios.my_ip
          (WatcherRun.main_state WatcherScenarios.my_ip Watcher.initial
             [WatcherScenarios.resolves "10.20.20.20"])
          (WatcherScenarios.resolves "10.10.10.10")).1) = false.
Proof.
  refine (proj1 (proj1 (follower_stops_when_name_moves WatcherScenarios.my_ip
                          [WatcherScenarios.resolves "10.20.20.20"]
                          (WatcherScenarios.resolves "10.10.10.10")
                          "10.10.10.10" eq_refl) _)).
  discriminate.
Defined.

(** X9. A child that exits on its own is never replaced: once the child
    has exited while the collector's [running] flag is set, every later
    iteration leaves the collector as it is. [start] returns at once
    because of the flag and [stop] is never called, so the workload stays
    down even while the name points at this site. *)
Theorem follower_never_restarts_dead_child my_ip st envs :
  Watcher.process (Watcher.collector st) = Some false ->
  Watcher.running (Watcher.collector st) = true ->
  Watcher.collector (WatcherRun.main_state my_ip st envs)
  = Watcher.collector st
  /\ Watcher.is_running
       (Watcher.collector (WatcherRun.main_state my_ip st envs)) = false
  /\ Watcher.count_calls Watcher.Stop (Watcher.main_from my_ip st envs)
     = 0%nat.
Proof.
  intros Hp Hr. assert (Ho : orphaned (Watcher.collector st)) by (split; assumption).
  clear Hp Hr. revert st Ho.
  induction envs as [|env rest IH]; intros st Ho.
  - cbn. destruct Ho as [Hp _].
    unfold Watcher.is_running. rewrite Hp. repeat split; reflexivity.
  - destruct (orphaned_tick my_ip st env Ho) as [Hc Hs].
    assert (Ho' : orphaned (Watcher.collector (Watcher.tick my_ip st env).1))
      by (rewrite Hc; exact Ho).
    destruct (IH _ Ho') as (H1 & H2 & H3).
    unfold WatcherRun.main_state in *. cbn [foldl Watcher.main_from].
    destruct (Watcher.tick my_ip st env) as [st' calls] eqn:Ht.
    cbn [fst snd] in *. rewrite count_calls_app, Hs, H3, H1, Hc.
    repeat split; try reflexivity.
    rewrite H1, Hc in H2. exact H2.
Qed.

Lemma follower_never_restarts_dead_child_witness :
  let st := WatcherRun.main_state WatcherScenarios.my_ip Watcher.initial
              [WatcherScenarios.resolves "10.20.20.20";
               WatcherScenarios.after_crash "10.20.20.20"] in
  Watcher.is_running
    (Watcher.collector
       (WatcherRun.main_state WatcherScenarios.my_ip st
          (WatcherScenarios.resolves
             <$> ["10.20.20.20"; "10.10.10.10"; "10.20.20.20"]))) = false.
Proof.
  intros st.
  exact (proj1 (proj2 (follower_never_restarts_dead_child
                         WatcherScenarios.my_ip st
                         (WatcherScenarios.resolves
                            <$> ["10.20.20.20"; "10.10.10.10"; "10.20.20.20"])
                         eq_refl eq_refl))).
Defined.

(** ** VictoriaMetrics reconciler: gaps, ranges and chunks *)

Section VmRanges.

Lemma merge_loop_rec step timestamps : forall start end_ ranges,
  VmSync.merge_loop step start end_ ranges timestamps
  = ranges ++ merge_rec step start end_ timestamps.
Proof.
  induction timestamps as [|ts rest IH]; intros start end_ ranges;
    cbn [VmSync.merge_loop merge_rec]; [reflexivity|].
  destruct (ts <=? end_); rewrite IH; [reflexivity|].
  rewrite <- app_assoc. reflexivity.
Qed.

Lemma merge_consecutive_rec t0 rest step :
  VmSync.merge_consecutive (t0 :: rest) step
  = merge_rec step t0 (t0 + step) rest.
Proof. unfold VmSync.merge_consecutive. apply merge_loop_rec. Qed.

(** With ascending timestamps every bucket ends up inside a range. *)
Lemma merge_rec_covers step timestamps : forall start last t,
  start <= last -> StronglySorted Z.le (last :: timestamps) ->
  start <= t < last + step \/ in_bucket timestamps step t ->
  exists r, r ∈ merge_rec step start (last + step) timestamps
            /\ r.1 <= t < r.2.
Proof.
  induction timestamps as [|ts rest IH]; intros start last t Hs Hsorted Ht;
    cbn [merge_rec].
  - destruct Ht as [Ht|(g & []%elem_of_nil & _)].
    exists (start, last + step). split; [apply list_elem_of_here|exact Ht].
  - apply StronglySorted_inv in Hsorted as [Hrest Hall].
    apply Forall_cons in Hall as [Hle _].
    assert (Hcase : start <= t < last + step \/ ts <= t < ts + step
                    \/ in_bucket rest step t).
    { destruct Ht as [Ht|(g & [->|Hg]%elem_of_cons & Hb)];
        [auto|auto|right; right; exists g; auto]. }
    destruct (Z.leb_spec ts (last + step)) as [Hm|Hm].
    + apply (IH start ts t); [lia|exact Hrest|].
      destruct Hcase as [H|[H|H]]; [left; lia|left; lia|right; exact H].
    + destruct Hcase as [H|[H|H]].
      * exists (start, last + step). split; [apply list_elem_of_here|exact H].
      * destruct (IH ts ts t) as (r & Hr & Hb);
          [lia|exact Hrest|left; exact H|].
        exists r. split; [apply list_elem_of_further, Hr|exact Hb].
      * destruct (IH ts ts t) as (r & Hr & Hb);
          [lia|exact Hrest|right; exact H|].
        exists r. split; [apply list_elem_of_further, Hr|exact Hb].
Qed.

(** The first range starts at [start]; neighbours are apart. *)
Lemma merge_rec_apart step timestamps : forall start end_,
  Sorted apart (merge_rec step start end_ timestamps)
  /\ exists e rest, merge_rec step start end_ timestamps = (start, e) :: rest.
Proof.
  induction timestamps as [|ts rest IH]; intros start end_; cbn [merge_rec].
  - split; [repeat constructor|eauto].
  - destruct (Z.leb_spec ts end_) as [Hm|Hm]; [apply IH|].
    destruct (IH ts (ts + step)) as (Hs & e & tl & Heq).
    split; [|eauto]. constructor; [exact Hs|].
    rewrite Heq. constructor. exact Hm.
Qed.

(** With ascending timestamps and a step that is not negative, every
    range starts at one of the timestamps and is at least a step long. *)
Lemma merge_rec_shape step timestamps : forall start last,
  0 <= step -> start <= last -> StronglySorted Z.le (last :: timestamps) ->
  Forall (fun r : Z * Z =>
            (r.1 = start \/ r.1 ∈ timestamps) /\ r.1 + step <= r.2)
         (merge_rec step start (last + step) timestamps).
Proof.
  induction timestamps as [|ts rest IH]; intros start last H0 Hs Hsorted;
    cbn [merge_rec].
  - apply Forall_singleton. cbn. split; [auto|lia].
  - apply StronglySorted_inv in Hsorted as [Hrest Hall].
    apply Forall_cons in Hall as [Hle _].
    destruct (Z.leb_spec ts (last + step)) as [Hm|Hm].
    + specialize (IH start ts H0 ltac:(lia) Hrest).
      eapply Forall_impl; [exact IH|]. cbn.
      intros r [[->|Hin] Hlen]; (split; [|exact Hlen]);
        [auto|right; now apply list_elem_of_further].
    + constructor; [cbn; split; [auto|lia]|].
      specialize (IH ts ts H0 ltac:(lia) Hrest).
      eapply Forall_impl; [exact IH|]. cbn.
      intros r [[->|Hin] Hlen]; (split; [|exact Hlen]); right;
        [apply list_elem_of_here|now apply list_elem_of_further].
Qed.

Lemma find_gaps_sorted cfg source dest :
  StronglySorted Z.le (VmSync.find_gaps cfg source dest)
  /\ NoDup (VmSync.find_gaps cfg source dest).
Proof.
  unfold VmSync.find_gaps. split.
  - apply StronglySorted_merge_sort; apply _.
  - rewrite merge_sort_Permutation.
    eapply sublist_NoDup; [apply (NoDup_fst_map_to_list source)|].
    change (map fst ?l) with (fst <$> l).
    apply fmap_sublist, sublist_filter.
Qed.

(** Enough fuel: the chunk loop ends and tiles what is left. *)
Lemma chunk_loop_tiles size fuel : forall chunk_start range_end,
  0 < size -> (Z.to_nat (range_end - chunk_start) <= fuel)%nat ->
  exists cs,
    VmSync.chunk_loop fuel size chunk_start range_end = Some cs
    /\ tiling chunk_start range_end cs
    /\ Forall (fun c : Z * Z => c.2 - c.1 <= size) cs.
Proof.
  intros chunk_start range_end Hsize. revert chunk_start.
  induction fuel as [|fuel IH]; intros chunk_start Hfuel;
    cbn [VmSync.chunk_loop];
    destruct (Z.ltb_spec chunk_start range_end) as [Hlt|Hge];
    try (exists []; repeat split; [exact Hge|constructor]);
    [lia|].
  destruct (IH (Z.min (chunk_start + size) range_end)) as (cs & -> & Ht & Hall);
    [lia|].
  eexists. split; [reflexivity|]. split.
  - cbn. repeat split; [lia|lia|exact Ht].
  - constructor; [cbn; lia|exact Hall].
Qed.

End VmRanges.

(** X10. Gap range merging: for ascending timestamps, a time lies in one of
    the merged ranges exactly when it lies in the bucket [g, g + step) of
    one of the timestamps. This holds in particular for the timestamps
    [find_gaps] returns, which are ascending and without repetition. *)
Theorem merged_ranges_cover_exactly_the_gaps :
  (forall gs step t,
     StronglySorted Z.le gs ->
     (exists r, r ∈ VmSync.merge_consecutive gs step /\ r.1 <= t < r.2)
     <-> (exists g, g ∈ gs /\ g <= t < g + step))
  /\ (forall cfg source dest,
        StronglySorted Z.le (VmSync.find_gaps cfg source dest)
        /\ NoDup (VmSync.find_gaps cfg source dest))
  /\ (forall cfg source dest t,
        (exists r,
           r ∈ VmSync.merge_consecutive (VmSync.find_gaps cfg source dest)
                 (VmSync.query_step cfg)
           /\ r.1 <= t < r.2)
        <-> (exists g, g ∈ VmSync.find_gaps cfg source dest
                       /\ g <= t < g + VmSync.query_step cfg)).
Proof.
  assert (H : forall gs step t,
     StronglySorted Z.le gs ->
     (exists r, r ∈ VmSync.merge_consecutive gs step /\ r.1 <= t < r.2)
     <-> (exists g, g ∈ gs /\ g <= t < g + step)).
  { intros gs step t Hsorted. split.
    - intros (r & Hr & Ht).
      pose proof (merge_consecutive_buckets gs step) as Hall.
      rewrite Forall_forall in Hall. exact (Hall r Hr t Ht).
    - intros (g & Hg & Ht). destruct gs as [|g0 rest];
        [apply elem_of_nil in Hg as []|].
      rewrite merge_consecutive_rec.
      apply (merge_rec_covers step rest g0 g0 t); [lia|exact Hsorted|].
      apply elem_of_cons in Hg as [->|Hg]; [left; exact Ht|].
      right. exists g. auto. }
  split; [exact H|]. split; [exact find_gaps_sorted|].
  intros cfg source dest t. apply H, find_gaps_sorted.
Qed.

Lemma merged_ranges_cover_exactly_the_gaps_witness :
  exists r, r ∈ VmSync.merge_consecutive [100; 400; 1000] 300
            /\ r.1 <= 650 < r.2.
Proof.
  apply (proj1 merged_ranges_cover_exactly_the_gaps [100; 400; 1000] 300 650).
  - repeat constructor; lia.
  - exists 400. split; [apply list_elem_of_further, list_elem_of_here|lia].
Defined.

(** X11. The merged ranges are kept apart: each range ends strictly before
    the next one starts, whatever the input. For ascending timestamps and
    a step that is not negative, every range starts at one of the
    timestamps and is at least one step long. *)
Theorem merged_ranges_are_apart gs step :
  Sorted apart (VmSync.merge_consecutive gs step)
  /\ (0 <= step -> StronglySorted Z.le gs ->
      Forall (fun r : Z * Z => r.1 ∈ gs /\ r.1 + step <= r.2)
             (VmSync.merge_consecutive gs step)).
Proof.
  destruct gs as [|g0 rest]; [split; constructor|].
  rewrite merge_consecutive_rec. split.
  - apply merge_rec_apart.
  - intros H0 Hsorted.
    pose proof (merge_rec_shape step rest g0 g0 H0 ltac:(lia) Hsorted) as Hall.
    eapply Forall_impl; [exact Hall|]. cbn.
    intros r [[->|Hin] Hlen]; (split; [|exact Hlen]);
      [apply list_elem_of_here|now apply list_elem_of_further].
Qed.

Lemma merged_ranges_are_apart_witness :
  Forall (fun r : Z * Z => r.1 ∈ [100; 400; 1000] /\ r.1 + 300 <= r.2)
         (VmSync.merge_consecutive [100; 400; 1000] 300).
Proof.
  apply (proj2 (merged_ranges_are_apart [100; 400; 1000] 300)).
  - lia.
  - repeat constructor; lia.
Defined.

(** X12. Chunking a range: with a positive chunk size the loop ends, and
    its chunks cut the range into non-empty consecutive pieces of at most
    [chunk_size] each (none for an empty range). With a chunk size of
    zero or less and a non-empty range the loop never ends. *)
Theorem chunks_tile_the_range size range :
  (0 < size ->
   exists cs,
     VmSync.chunks size range = Some cs
     /\ tiling range.1 range.2 cs
     /\ Forall (fun c : Z * Z => c.2 - c.1 <= size) cs)
  /\ (size <= 0 -> range.1 < range.2 -> VmSync.chunks size range = None).
Proof.
  split.
  - intros Hsize. apply chunk_loop_tiles; [exact Hsize|lia].
  - intros Hsize Hne. apply chunk_loop_diverges; assumption.
Qed.

Lemma chunks_tile_the_range_witness :
  exists cs,
    VmSync.chunks 300 (100, 800) = Some cs
    /\ tiling 100 800 cs
    /\ Forall (fun c : Z * Z => c.2 - c.1 <= 300) cs.
Proof.
  apply (proj1 (chunks_tile_the_range 300 (100, 800))). lia.
Defined.

Section VmCycles.

Import VmSync.

Lemma vm_clean_step cfg st env :
  vm_clean_cycle cfg env ->
  exists st',
    run_sync_check cfg st env = Some st'
    /\ consecutive_clean st' = consecutive_clean st + 1
    /\ failback_ready st'
       = failback_ready st
         || (failback_clean_checks cfg <=? consecutive_clean st + 1)
    /\ gaps_detected st' = 0 /\ last_error st' = None.
Proof.
  intros (Hl & Hr & Hne & active & Ha & Hg). unfold run_sync_check.
  rewrite Hl, Hr, Ha. cbn [negb].
  replace (is_empty_dict (local_counts env)
           && is_empty_dict (remote_counts env)) with false.
  2:{ symmetry. apply andb_false_iff. unfold is_empty_dict.
      destruct Hne as [Hne|Hne]; [left|right];
        now apply bool_decide_eq_false_2. }
  destruct (determine_sync_direction cfg active (local_counts env)
              (remote_counts env)) as [source dest].
  cbn [fst snd] in Hg. rewrite Hg.
  eexists. split; [reflexivity|]. cbn.
  repeat split.
  destruct (failback_clean_checks cfg <=? consecutive_clean st + 1),
    (failback_ready st); reflexivity.
Qed.

Lemma vm_clean_run cfg envs : forall st,
  Forall (vm_clean_cycle cfg) envs ->
  length (main_from cfg st envs) = length envs
  /\ forall i st',
       main_from cfg st envs !! i = Some st' ->
       consecutive_clean st' = consecutive_clean st + Z.of_nat (S i)
       /\ failback_ready st'
          = failback_ready st
            || (failback_clean_checks cfg
                <=? consecutive_clean st + Z.of_nat (S i)).
Proof.
  induction envs as [|env rest IH]; intros st Hall; cbn [main_from].
  - split; [reflexivity|]. intros i st'. rewrite lookup_nil. discriminate.
  - apply Forall_cons in Hall as [Hc Hrest].
    destruct (vm_clean_step cfg st env Hc) as (st1 & -> & Hcc & Hfr & _).
    destruct (IH st1 Hrest) as [Hlen Hidx].
    split; [cbn [length]; rewrite Hlen; reflexivity|].
    intros [|i] st'; cbn [lookup list_lookup].
    + intros [= <-]. rewrite Hcc, Hfr. split; f_equal; f_equal; lia.
    + intros Hi. destruct (Hidx i st' Hi) as [H1 H2].
      rewrite H1, H2, Hcc, Hfr.
      split; [lia|].
      replace (consecutive_clean st + 1 + Z.of_nat (S i))
        with (consecutive_clean st + Z.of_nat (S (S i))) by lia.
      destruct (failback_ready st); [reflexivity|]. cbn [orb].
      destruct (Z.leb_spec (failback_clean_checks cfg)
                  (consecutive_clean st + 1)) as [Hle|Hgt];
        [|reflexivity].
      cbn [orb]. symmetry. apply Z.leb_le. lia.
Qed.

Lemma vm_is_gap_absent cfg dest ts c :
  0 < c -> dest !! ts = None -> (0 < gap_threshold cfg)%Q ->
  is_gap cfg dest (ts, c) = true.
Proof.
  intros Hc Hd Ht. unfold is_gap. rewrite Hd. cbn [default from_option].
  destruct (Z.eqb_spec c 0); [lia|].
  unfold ratio. destruct (Z.ltb_spec 0 c); [|lia].
  unfold Qltb. apply negb_true_iff.
  destruct (Qle_bool (gap_threshold cfg) (inject_Z 0 / inject_Z c)) eqn:E;
    [|reflexivity].
  apply Qle_bool_iff in E. exfalso.
  apply (Qlt_not_le _ _ Ht). apply Qle_trans with (1 := E).
  unfold Qdiv. rewrite Qmult_0_l. apply Qle_refl.
Qed.

End VmCycles.

(** X13. A source bucket with a positive count that the destination does
    not have at all is reported as a gap whenever the threshold is
    positive; a source bucket whose count is 0 is never reported. *)
Theorem absent_bucket_is_a_gap cfg source dest ts :
  (forall c, source !! ts = Some c -> 0 < c -> dest !! ts = None ->
             (0 < VmSync.gap_threshold cfg)%Q ->
             ts ∈ VmSync.find_gaps cfg source dest)
  /\ (source !! ts = Some 0 -> ts ∉ VmSync.find_gaps cfg source dest).
Proof.
  split.
  - intros c Hs Hc Hd Ht. apply vm_find_gaps_elem. exists c.
    split; [exact Hs|]. apply vm_is_gap_absent; assumption.
  - intros Hs (c & Hc & Hg)%vm_find_gaps_elem.
    rewrite Hs in Hc. injection Hc as <-. discriminate.
Qed.

Lemma absent_bucket_is_a_gap_witness :
  600 ∈ VmSync.find_gaps GapScenarios.cfg GapScenarios.dest_counts
          GapScenarios.source_counts.
Proof.
  apply (proj1 (absent_bucket_is_a_gap GapScenarios.cfg
                  GapScenarios.dest_counts GapScenarios.source_counts 600) 9);
    [reflexivity|lia|reflexivity|reflexivity].
Defined.

(** X14. Clean cycles add up: in a run of cycles of the VictoriaMetrics
    reconciler that are all clean (both stores healthy, active site
    resolved, data present, no gap), every cycle completes, the [i]-th
    one leaves [consecutive_clean] at its start value plus [i + 1], and
    [failback_ready] is set from the first cycle on at which the count
    reaches [failback_clean_checks], and is never cleared. *)
Theorem clean_cycles_reach_failback_ready cfg envs st :
  Forall (vm_clean_cycle cfg) envs ->
  length (VmSync.main_from cfg st envs) = length envs
  /\ forall i st',
       VmSync.main_from cfg st envs !! i = Some st' ->
       VmSync.consecutive_clean st'
       = VmSync.consecutive_clean st + Z.of_nat (S i)
       /\ VmSync.failback_ready st'
          = VmSync.failback_ready st
            || (VmSync.failback_clean_checks cfg
                <=? VmSync.consecutive_clean st + Z.of_nat (S i)).
Proof. apply vm_clean_run. Qed.

Lemma clean_cycles_reach_failback_ready_witness :
  length (VmSync.main_from GateScenarios.vm_cfg VmSync.fresh
            (GateScenarios.vm_parity
               <$> ["10.10.10.10"; "10.10.10.10"; "10.10.10.10"]))
  = 3%nat.
Proof.
  refine (proj1 (clean_cycles_reach_failback_ready GateScenarios.vm_cfg
                   (GateScenarios.vm_parity
                      <$> ["10.10.10.10"; "10.10.10.10"; "10.10.10.10"])
                   VmSync.fresh _)).
  assert (Hc : vm_clean_cycle GateScenarios.vm_cfg
                 (GateScenarios.vm_parity "10.10.10.10")).
  { split; [reflexivity|]. split; [reflexivity|]. split.
    - left. intros H. apply (f_equal (fun m : gmap Z Z => m !! 0)) in H.
      vm_compute in H. discriminate.
    - exists "primary". split; vm_compute; reflexivity. }
  cbn [fmap list_fmap].
  repeat (apply Forall_cons; split; [exact Hc|]). apply Forall_nil.
  reflexivity.
Defined.

(** ** ClickHouse reconciler: repairs, new tables and the ready flag *)

Section ChMore.

Import ChSync.

Lemma sync_fold env info calls : forall acc : Z * Z,
  foldl (fun (acc : Z * Z) partition =>
           let '(success, rows) :=
             sync_partition env (database info) (table info) partition in
           if success then (acc.1 + 1, acc.2 + rows) else acc)
        acc calls
  = (acc.1 + Z.of_nat (length (copied env info calls)),
     acc.2 + rows_of env info (copied env info calls)).
Proof.
  induction calls as [|p calls IH]; intros [a b].
  - cbn. f_equal; lia.
  - cbn [foldl]. rewrite IH. unfold copied. rewrite filter_cons.
    destruct (sync_partition env (database info) (table info) p)
      as [success rows] eqn:E.
    destruct success; cbn [fst snd].
    + rewrite decide_True by (rewrite ?E; reflexivity).
      cbn [length]. unfold rows_of. cbn [foldr]. rewrite ?E. cbn [snd].
      f_equal; lia.
    + rewrite decide_False by (rewrite ?E; discriminate). reflexivity.
Qed.

Lemma sync_calls_length cfg source dest active :
  (length (sync_calls cfg source dest active)
   <= length (find_partition_gaps source dest))%nat.
Proof.
  unfold sync_calls. destruct (find_partition_gaps source dest) as [|g gaps];
    [reflexivity|].
  case_bool_decide; [cbn; lia|]. rewrite length_map. reflexivity.
Qed.

Lemma sync_table_nonneg cfg env info source dest active :
  0 <= (sync_table cfg env info source dest active).1.
Proof. unfold sync_table. rewrite sync_fold. cbn. lia. Qed.

Lemma table_step_nonneg cfg env active items : forall acc : Z * Z * Z,
  acc.1.1 <= (foldl (table_step cfg env active) acc items).1.1.
Proof.
  induction items as [|item rest IH]; intros acc; [cbn; lia|].
  cbn [foldl]. etransitivity; [|apply IH].
  unfold table_step. destruct acc as [[a b] c].
  destruct (find_partition_gaps _ _); [cbn; lia|].
  pose proof (sync_table_nonneg cfg env item.2
                (remote_partitions env (database item.2) (table item.2))
                (local_partitions env (database item.2) (table item.2))
                active) as Hn.
  destruct (sync_table _ _ _ _ _ _) as [ps rs]. cbn in *. lia.
Qed.

(** Names collected as new are never dropped again. *)
Lemma new_tables_grow cfg env items : forall acc name,
  name ∈ acc.2 -> name ∈ (foldl (new_table_step cfg env) acc items).2.
Proof.
  induction items as [|[n i] rest IH]; intros [[locals created] detected] name Hin;
    [exact Hin|].
  cbn [foldl]. apply IH. unfold new_table_step. cbn [snd] in Hin.
  repeat case_match; cbn [snd]; try exact Hin;
    apply elem_of_app; left; exact Hin.
Qed.

Lemma new_table_found cfg env name info items : forall locals created detected,
  (name, info) ∈ items -> NoDup (items.*1) -> locals !! name = None ->
  (auto_create_tables cfg = false
   \/ create_ok env (database info) (table info) = false) ->
  name ∈ (foldl (new_table_step cfg env) (locals, created, detected) items).2.
Proof.
  induction items as [|[n i] rest IH]; intros locals created detected Hin Hnd Hl Hwhy;
    [apply elem_of_nil in Hin as []|].
  cbn [fmap list_fmap fst] in Hnd. apply NoDup_cons in Hnd as [Hfresh Hnd].
  cbn [foldl]. apply elem_of_cons in Hin as [[= <- <-]|Hin].
  - apply new_tables_grow. unfold new_table_step.
    rewrite bool_decide_eq_false_2 by (rewrite Hl; intros [? [=]]).
    destruct Hwhy as [->|Hc]; cbn [snd]; [apply elem_of_app; right; constructor|].
    destruct (auto_create_tables cfg); [rewrite Hc|]; cbn [snd];
      apply elem_of_app; right; constructor.
  - assert (Hne : n <> name).
    { intros ->. apply Hfresh. apply list_elem_of_fmap.
      exists (name, info). split; [reflexivity|exact Hin]. }
    unfold new_table_step at 2.
    repeat case_match; try (apply IH; assumption).
    apply IH; try assumption. rewrite lookup_insert_ne by exact Hne. exact Hl.
Qed.

End ChMore.

(** X15. [sync_table] counts exactly the partitions whose copy succeeded and
    adds up their row counts; it tries only reported gaps, so it never
    reports more synced partitions than gaps found, and it copies nothing
    when the local site is the active one. *)
Theorem sync_table_counts_successes cfg env info source dest active :
  let calls := ChSync.sync_calls cfg source dest active in
  ChSync.sync_table cfg env info source dest active
  = (Z.of_nat (length (copied env info calls)),
     rows_of env info (copied env info calls))
  /\ 0 <= (ChSync.sync_table cfg env info source dest active).1
       <= Z.of_nat (length (ChSync.find_partition_gaps source dest))
  /\ (active = ChSync.role cfg ->
      ChSync.sync_table cfg env info source dest active = (0, 0)).
Proof.
  intros calls.
  assert (E : ChSync.sync_table cfg env info source dest active
              = (Z.of_nat (length (copied env info calls)),
                 rows_of env info (copied env info calls))).
  { unfold ChSync.sync_table. rewrite sync_fold. reflexivity. }
  split; [exact E|]. split.
  - rewrite E. cbn [fst].
    pose proof (sync_calls_length cfg source dest active) as Hlen.
    assert (Hsub : (length (copied env info calls) <= length calls)%nat)
      by apply length_filter.
    subst calls. lia.
  - intros ->. rewrite E. subst calls. unfold ChSync.sync_calls.
    destruct (ChSync.find_partition_gaps source dest); [reflexivity|].
    rewrite bool_decide_eq_true_2 by reflexivity. reflexivity.
Qed.

(** X16. A table that exists on the active remote site but not locally,
    and is not created (auto-creation is off or fails), is listed in
    [new_tables_detected]; that cycle leaves [consecutive_clean] at 0 and
    cannot set [failback_ready]. *)
Theorem missing_table_blocks_clean_count cfg st env active name info :
  ChSync.local_healthy env = true -> ChSync.remote_healthy env = true ->
  ChSync.get_active_site cfg (ChSync.dns_ip env) = Some active ->
  active <> ChSync.role cfg ->
  ChSync.remote_tables env !! name = Some info ->
  ChSync.local_tables env !! name = None ->
  (ChSync.auto_create_tables cfg = false
   \/ ChSync.create_ok env (ChSync.database info) (ChSync.table info) = false) ->
  let st' := ChSync.run_sync_check cfg st env in
  name ∈ ChSync.new_tables_detected st'
  /\ ChSync.consecutive_clean st' = 0
  /\ (ChSync.failback_ready st = false -> ChSync.failback_ready st' = false).
Proof.
  intros Hl Hr Ha Hrole Hremote Hlocal Hwhy st'. subst st'.
  unfold ChSync.run_sync_check. rewrite Hl, Hr, Ha. cbn [negb].
  rewrite bool_decide_eq_false_2 by exact Hrole.
  pose proof (new_table_found cfg env name info
                (map_to_list (ChSync.remote_tables env))
                (ChSync.local_tables env) [] []) as Hfound.
  destruct (foldl (ChSync.new_table_step cfg env)
              (ChSync.local_tables env, [], [])
              (map_to_list (ChSync.remote_tables env)))
    as [[locals created] detected].
  cbn [snd] in Hfound.
  assert (Hin : name ∈ detected).
  { apply Hfound; [|apply NoDup_fst_map_to_list|exact Hlocal|exact Hwhy].
    apply elem_of_map_to_list, Hremote. }
  destruct (foldl (ChSync.table_step cfg env active) (0, 0, 0) _)
    as [[total_partitions total_rows] with_gaps].
  cbn [ChSync.new_tables_detected ChSync.consecutive_clean
       ChSync.failback_ready].
  assert (Hne : bool_decide (detected = []) = false).
  { apply bool_decide_eq_false_2. intros ->. apply elem_of_nil in Hin as []. }
  rewrite Hne, !andb_false_r.
  split; [exact Hin|].
  destruct (0 <? total_partitions); split; auto.
Qed.

Lemma missing_table_blocks_clean_count_witness :
  let env :=
    {| ChSync.stamp := "t1"; ChSync.local_healthy := true;
       ChSync.remote_healthy := true; ChSync.dns_ip := Some "10.10.10.10";
       ChSync.local_tables := ∅;
       ChSync.remote_tables :=
         {[ "db.t" := {| ChSync.database := "db"; ChSync.table := "t" |} ]};
       ChSync.create_ok := fun _ _ => false;
       ChSync.local_partitions := fun _ _ => ∅;
       ChSync.remote_partitions := fun _ _ => ∅;
       ChSync.sync_partition := fun _ _ _ => (false, 0);
       ChSync.stamp_sync := "t2" |} in
  ChSync.consecutive_clean
    (ChSync.run_sync_check GateScenarios.ch_cfg ChSync.fresh env) = 0.
Proof.
  intros env.
  refine (proj1 (proj2 (missing_table_blocks_clean_count GateScenarios.ch_cfg
                          ChSync.fresh env "primary" "db.t"
                          {| ChSync.database := "db"; ChSync.table := "t" |}
                          eq_refl eq_refl eq_refl _ _ eq_refl
                          (or_introl eq_refl)))).
  - discriminate.
  - reflexivity.
Defined.

(** X17. When a cycle of the ClickHouse reconciler clears [failback_ready],
    the remote site is active, the cycle synced no partition, it resets
    [consecutive_clean], and it found a table with gaps or a new table.
    So a cycle that synced at least one partition leaves the flag as it
    was. *)
Theorem failback_ready_cleared_only_without_sync cfg st env :
  let st' := ChSync.run_sync_check cfg st env in
  ChSync.failback_ready st = true -> ChSync.failback_ready st' = false ->
  exists active,
    ChSync.get_active_site cfg (ChSync.dns_ip env) = Some active
    /\ active <> ChSync.role cfg
    /\ ChSync.partitions_synced st' = ChSync.partitions_synced st
    /\ ChSync.consecutive_clean st' = 0
    /\ (ChSync.tables_with_gaps st' <> 0
        \/ ChSync.new_tables_detected st' <> []).
Proof.
  intros st' H1. subst st'. unfold ChSync.run_sync_check.
  destruct (ChSync.local_healthy env); cbn [negb]; [|cbn; congruence].
  destruct (ChSync.remote_healthy env); cbn [negb]; [|cbn; congruence].
  destruct (ChSync.get_active_site cfg (ChSync.dns_ip env)) as [active|];
    [|cbn; congruence].
  case_bool_decide as Hrole; [cbn; congruence|].
  destruct (foldl (ChSync.new_table_step cfg env)
              (ChSync.local_tables env, [], [])
              (map_to_list (ChSync.remote_tables env)))
    as [[locals created] detected].
  pose proof (table_step_nonneg cfg env active
                (filter (fun item : string * ChSync.table_info =>
                           is_Some (ChSync.remote_tables env !! item.1))
                        (map_to_list locals)) (0, 0, 0)) as Hnn.
  destruct (foldl (ChSync.table_step cfg env active) (0, 0, 0) _)
    as [[total_partitions total_rows] with_gaps].
  cbn [fst] in Hnn.
  cbn [ChSync.failback_ready ChSync.consecutive_clean
       ChSync.tables_with_gaps ChSync.new_tables_detected
       ChSync.partitions_synced].
  destruct (Z.ltb_spec 0 total_partitions) as [Hpos|Hzero]; cbn [negb andb];
    [congruence|].
  destruct (Z.eqb_spec with_gaps 0) as [->|Hgaps]; cbn [andb].
  - case_bool_decide as Hdet.
    + rewrite H1. cbn [negb].
      destruct (ChSync.failback_clean_checks cfg
                <=? ChSync.consecutive_clean st + 1); discriminate.
    + intros _. exists active. repeat split; try assumption; [lia|].
      right. exact Hdet.
  - intros _. exists active. repeat split; try assumption; [lia|].
    left. exact Hgaps.
Qed.

Lemma failback_ready_cleared_only_without_sync_witness :
  exists active,
    ChSync.get_active_site GateScenarios.ch_cfg (Some "10.10.10.10")
    = Some active.
Proof.
  pose (env :=
    {| ChSync.stamp := "t1"; ChSync.local_healthy := true;
       ChSync.remote_healthy := true; ChSync.dns_ip := Some "10.10.10.10";
       ChSync.local_tables := ∅;
       ChSync.remote_tables :=
         {[ "db.t" := {| ChSync.database := "db"; ChSync.table := "t" |} ]};
       ChSync.create_ok := fun _ _ => false;
       ChSync.local_partitions := fun _ _ => ∅;
       ChSync.remote_partitions := fun _ _ => ∅;
       ChSync.sync_partition := fun _ _ _ => (false, 0);
       ChSync.stamp_sync := "t2" |}).
  pose (st :=
    {| ChSync.last_check := None; ChSync.last_sync := None;
       ChSync.consecutive_clean := 3; ChSync.failback_ready := true;
       ChSync.active_site := Some "primary"; ChSync.tables_checked := 0;
       ChSync.tables_with_gaps := 0; ChSync.partitions_synced := 0;
       ChSync.rows_synced := 0; ChSync.tables_created := [];
       ChSync.new_tables_detected := []; ChSync.last_error := None |}).
  destruct (failback_ready_cleared_only_without_sync GateScenarios.ch_cfg
              st env eq_refl eq_refl) as (active & Ha & _).
  exists active. exact Ha.
Defined.

(** ** The state file: other files *)

(** X18. Whatever the outcome of [save_state], no regular file other than
    the state file changes (paths compared as written), and the only
    directories that can appear are the parent directory of the state
    file and the directories above it. *)
Theorem save_state_leaves_other_files (w : StateFile.world) (path : string)
    (chunks : list string) (s : StateFile.fs) :
  let after :=
    (StateFile.fs_run w s (StateFile.save_state path chunks)).1 in
  (forall p, p <> path ->
             StateFile.files after !! p = StateFile.files s !! p)
  /\ (forall d, d ∈ StateFile.dirs after ->
                d ∈ StateFile.dirs s
                \/ d ∈ StateFile.ancestors (StateFile.dirname path)).
Proof.
  intros after. subst after.
  destruct (save_state_trace w path chunks s) as (Hall & _).
  unfold StateFile.fs_run.
  destruct (StateFile.run w (StateFile.start s)
              (StateFile.save_state path chunks)) as [seen out].
  cbn [fst snd] in *.
  destruct (last seen) as [st|] eqn:Hlast; cbn [default from_option].
  - apply last_Some_elem_of in Hlast.
    rewrite Forall_forall in Hall.
    destruct (Hall st Hlast) as (_ & Hfiles & Hdirs). now split.
  - split; [reflexivity|]. intros d Hd. now left.
Qed.

Lemma save_state_leaves_other_files_witness :
  StateFile.files
    (StateFile.fs_run StateFileScenarios.buffered
       {| StateFile.files := {[ "/state/other.json" := "{}" ]};
          StateFile.dirs := {[ "/" ]} |}
       (StateFile.save_state StateFileScenarios.path
          StateFileScenarios.new_chunks)).1 !! "/state/other.json"
  = Some "{}".
Proof.
  rewrite (proj1 (save_state_leaves_other_files StateFileScenarios.buffered
                    StateFileScenarios.path StateFileScenarios.new_chunks _)
             "/state/other.json");
    [reflexivity|discriminate].
Defined.

(** ** Progress probe: which lines count *)


(** X19. Comment lines and blank lines never influence the value read: a
    line (without a line break) that is empty or starts with ['#'] once
    stripped can be inserted between two lines of an exposition without
    changing what [parse_metric_value] returns. *)
Theorem comment_lines_are_ignored
    (float : Type) (fzero : float) (fadd : float -> float -> float)
    (to_float : string -> option float) (a b c name : string) :
  Py.contains Probe.newline c = false ->
  (Py.strip c = EmptyString \/ Py.startswith "#" (Py.strip c) = true) ->
  Probe.parse_metric_value float fzero fadd to_float
    (a ++ String Probe.newline (c ++ String Probe.newline b)) name
  = Probe.parse_metric_value float fzero fadd to_float
      (a ++ String Probe.newline b) name.
Proof.
  intros Hc Hskip. rewrite !parse_metric_value_sum.
  rewrite !truthy_app_cons. cbn [negb].
  rewrite !split_on_app, (split_on_absent _ _ Hc), !omap_app.
  assert (Hnone : Probe.line_value float to_float name c = None).
  { unfold Probe.line_value.
    destruct Hskip as [H | H]; rewrite H; [reflexivity|].
    rewrite orb_true_r. reflexivity. }
  cbn [omap list_omap]. rewrite Hnone. reflexivity.
Qed.

Lemma comment_lines_are_ignored_witness :
  ProbeScenarios.parse_metric_value
    ("accepted 5" ++ String Probe.newline
       ("# HELP accepted" ++ String Probe.newline "accepted 7")) "accepted"
  = ProbeScenarios.parse_metric_value
      ("accepted 5" ++ String Probe.newline "accepted 7") "accepted".
Proof.
  apply (comment_lines_are_ignored PrimFloat.float PrimFloat.zero
           PrimFloat.add ProbeScenarios.float_of_literal
           "accepted 5" "accepted 7" "# HELP accepted" "accepted");
    [reflexivity|right; reflexivity].
Defined.

(** X20. The metric name is matched as a prefix: a line without labels
    whose first word merely begins with the requested name, followed by
    one blank and a value, contributes that value. So the lines of any
    metric whose name extends the requested one are added to the sum. *)
Theorem metric_name_is_a_prefix_match
    (float : Type) (to_float : string -> option float)
    (name suffix value : string) :
  let word := (name ++ suffix)%string in
  word <> EmptyString -> all_chars no_space word = true ->
  Py.startswith "#" word = false -> Py.contains "{" word = false ->
  value <> EmptyString -> all_chars no_space value = true ->
  Py.contains "{" value = false ->
  Probe.line_value float to_float name (word ++ String " " value)
  = to_float value.
Proof.
  intros word Hw Hws Hhash Hbrace Hv Hvs Hvbrace.
  unfold Probe.line_value.
  assert (Hstrip : Py.strip (word ++ String " " value)
                   = (word ++ String " " value)%string).
  { unfold Py.strip, Py.strip_by.
    assert (Hl : Py.lstrip_by Py.is_space (word ++ String " " value)
                 = (word ++ String " " value)%string).
    { destruct word as [|x w]; [congruence|].
      apply no_space_head in Hws as [Hx _].
      change ((String x w ++ String " " value)%string)
        with (String x (w ++ String " " value)%string).
      cbn [Py.lstrip_by]. rewrite Hx. reflexivity. }
    rewrite Hl.
    change ((word ++ String " " value)%string)
      with ((word ++ (String " " EmptyString ++ value))%string).
    rewrite <- string_app_assoc.
    apply rstrip_by_app; assumption. }
  rewrite Hstrip.
  assert (Htruthy : Py.truthy (Some (word ++ String " " value)%string) = true)
    by apply truthy_app_cons.
  rewrite Htruthy. cbn [negb orb].
  assert (Hnohash : Py.startswith "#" (word ++ String " " value) = false).
  { destruct word as [|x w]; [congruence|].
    change ((String x w ++ String " " value)%string)
      with (String x (w ++ String " " value)%string).
    cbn [Py.startswith] in *. destruct (Py.ascii_eqb "#" x); [discriminate|].
    reflexivity. }
  rewrite Hnohash.
  assert (Hstarts : Py.startswith name (word ++ String " " value) = true).
  { subst word. rewrite string_app_assoc. apply startswith_app. }
  rewrite Hstarts.
  assert (Hnobrace : Py.contains "{" (word ++ String " " value) = false).
  { rewrite contains_app, Hbrace. cbn [orb Py.contains].
    rewrite Hvbrace. reflexivity. }
  rewrite Hnobrace.
  rewrite split_token_then_space by (assumption || reflexivity).
  rewrite split_token by assumption. reflexivity.
Qed.

Lemma metric_name_is_a_prefix_match_witness :
  Probe.line_value PrimFloat.float ProbeScenarios.float_of_literal
    "accepted" "accepted_spans 9"
  = ProbeScenarios.float_of_literal "9".
Proof.
  apply (metric_name_is_a_prefix_match PrimFloat.float
           ProbeScenarios.float_of_literal "accepted" "_spans" "9");
    (discriminate || reflexivity).
Defined.

(** ** Configuration: what validation guarantees *)

Section SettingsFacts.

Import Settings.

Lemma need_nil missing msg : need missing msg = [] -> missing = false.
Proof. destruct missing; [discriminate|reflexivity]. Qed.

Lemma required_nil o msg : required o msg = [] -> Py.truthy o = true.
Proof. intros H%need_nil. now apply negb_false_iff in H. Qed.

Lemma valid_provider_builds name :
  name ∈ VALID_PROVIDERS -> exists cls, providers !! name = Some cls.
Proof.
  unfold VALID_PROVIDERS. rewrite !elem_of_cons, elem_of_nil.
  intros H. decompose [or] H; subst; try contradiction;
    eexists; vm_compute; reflexivity.
Qed.

Lemma validate_ok cfg fs :
  validate cfg fs = Py.Ok tt -> validation_errors cfg fs = [].
Proof.
  unfold validate. destruct (validation_errors cfg fs); [reflexivity|discriminate].
Qed.

End SettingsFacts.

(** X21. A configuration that passes [validate] has a role among "primary"
    and "dr", a known provider, a health mode among "tcp" and "metrics",
    and a lease TTL strictly above the update interval; for the DR role in
    metrics mode both the metrics URL and the metric name are set.
    [build_provider] then finds a class and never raises for an unknown
    provider: it returns a provider whenever the constructor gets
    through, which for "dry-run", "bind-tsig", "ad-gss" and "script" it
    always does. [main] writes DNS records only under such a
    configuration. *)
Theorem validated_config_is_sound cfg fs :
  (Settings.validate cfg fs = Py.Ok tt ->
   Failover.role (Settings.core cfg) ∈ ["primary"; "dr"]
   /\ Settings.provider cfg ∈ Settings.VALID_PROVIDERS
   /\ Settings.health_mode cfg ∈ ["tcp"; "metrics"]
   /\ Failover.update_interval (Settings.core cfg)
      < Failover.lease_ttl (Settings.core cfg)
   /\ (exists cls,
         Settings.build_provider cfg true = Py.Ok cls
         /\ (forall init_ok,
               Settings.build_provider cfg init_ok <> Py.Raise Py.ValueError)
         /\ (Settings.provider cfg ∈ ["dry-run"; "bind-tsig"; "ad-gss";
                                       "script"] ->
             forall init_ok, Settings.build_provider cfg init_ok = Py.Ok cls))
   /\ (Settings.health_mode cfg = "metrics" ->
       Failover.role (Settings.core cfg) = "dr" ->
       Py.truthy (Settings.health_url cfg) = true
       /\ Py.truthy (Settings.health_metric cfg) = true))
  /\ (forall init_ok cmd now clocks envs ws w,
        Settings.main cfg fs init_ok cmd now clocks envs = Py.Ok ws ->
        w ∈ ws ->
        Settings.validate cfg fs = Py.Ok tt).
Proof.
  split.
  - intros Hv%validate_ok. unfold Settings.validation_errors in Hv.
    apply app_eq_nil in Hv as [Hrole Hv].
    apply app_eq_nil in Hv as [Hprov Hv].
    apply app_eq_nil in Hv as [_ Hv].
    apply app_eq_nil in Hv as [Hmode Hv].
    apply app_eq_nil in Hv as [Hmetrics Httl].
    apply need_nil, negb_false_iff, bool_decide_eq_true in Hrole.
    apply need_nil, negb_false_iff, bool_decide_eq_true in Hprov.
    apply need_nil, negb_false_iff, bool_decide_eq_true in Hmode.
    apply need_nil, Z.leb_gt in Httl.
    repeat split; try assumption.
    + unfold Settings.build_provider.
      destruct (valid_provider_builds _ Hprov) as (cls & Hcls).
      rewrite Hcls. exists cls. rewrite orb_true_r.
      split; [reflexivity|]. split.
      * intros init_ok.
        destruct (Settings.plain_init cls || init_ok); discriminate.
      * rewrite !elem_of_cons, elem_of_nil. intros Hlocal init_ok.
        assert (Hplain : Settings.plain_init cls = true).
        { decompose [or] Hlocal; try contradiction;
            match goal with
            | H : Settings.provider cfg = _ |- _ => rewrite H in Hcls
            end;
            vm_compute in Hcls; injection Hcls as <-; reflexivity. }
        rewrite Hplain. reflexivity.
    + rewrite bool_decide_eq_true_2, bool_decide_eq_true_2 in Hmetrics
        by assumption.
      cbn [andb] in Hmetrics. apply app_eq_nil in Hmetrics as [Hu _].
      exact (required_nil _ _ Hu).
    + rewrite bool_decide_eq_true_2, bool_decide_eq_true_2 in Hmetrics
        by assumption.
      cbn [andb] in Hmetrics. apply app_eq_nil in Hmetrics as [_ Hm].
      exact (required_nil _ _ Hm).
  - intros init_ok cmd now clocks envs ws w Hmain Hw.
    unfold Settings.main in Hmain.
    destruct (Settings.validate cfg fs) as [[]|x] eqn:Hv; [reflexivity|].
    destruct cmd; try discriminate.
    injection Hmain as <-. apply elem_of_nil in Hw as [].
Qed.

Lemma validated_config_is_sound_witness :
  Failover.update_interval FailoverScenarios.cfg
  < Failover.lease_ttl FailoverScenarios.cfg
  /\ Settings.build_provider SettingsScenarios.cfg false
     = Py.Ok Settings.DryRunProvider.
Proof.
  destruct (proj1 (validated_config_is_sound SettingsScenarios.cfg
                     SettingsScenarios.no_files) eq_refl)
    as (_ & _ & _ & Hlt & (cls & Hcls & _ & Hlocal) & _).
  split; [exact Hlt|].
  rewrite (Hlocal ltac:(apply list_elem_of_here) false).
  rewrite <- Hcls. reflexivity.
Defined.

(** ** Ownership follower: iterations without an answer *)

(** X22. An iteration whose DNS resolution fails takes no action and keeps
    the loop's state: as long as the child does not exit during such
    iterations, they can be left out of an execution without changing the
    calls made on the collector. *)
Theorem unresolved_iterations_do_nothing my_ip envs :
  Forall (fun env => Watcher.dns env = None ->
                     Watcher.exit_before env = false) envs ->
  Watcher.main my_ip envs
  = Watcher.main my_ip
      (filter (fun env => is_Some (Watcher.dns env)) envs).
Proof.
  unfold Watcher.main. generalize Watcher.initial.
  induction envs as [|env rest IH]; intros st Hall; [reflexivity|].
  apply Forall_cons in Hall as [Hhere Hrest].
  rewrite filter_cons. destruct (Watcher.dns env) as [ip|] eqn:Hd.
  - rewrite decide_True by eauto. cbn [Watcher.main_from].
    destruct (Watcher.tick my_ip st env) as [st' calls].
    rewrite IH by exact Hrest. reflexivity.
  - rewrite decide_False by (intros [? [=]]). cbn [Watcher.main_from].
    unfold Watcher.tick. rewrite Hd, (Hhere eq_refl). cbn [Watcher.world app].
    destruct st as [last c]. cbn [Watcher.last_state Watcher.collector].
    apply IH, Hrest.
Qed.

Lemma unresolved_iterations_do_nothing_witness :
  let lost := {| Watcher.dns := None; Watcher.exit_before := false;
                 Watcher.popen_ok := true; Watcher.exit_between := false;
                 Watcher.popen_ok2 := true |} in
  Watcher.main WatcherScenarios.my_ip
    [WatcherScenarios.resolves "10.20.20.20"; lost;
     WatcherScenarios.resolves "10.10.10.10"]
  = [Watcher.Start; Watcher.Stop].
Proof.
  intros lost.
  rewrite (unresolved_iterations_do_nothing WatcherScenarios.my_ip
             [WatcherScenarios.resolves "10.20.20.20"; lost;
              WatcherScenarios.resolves "10.10.10.10"]).
  - reflexivity.
  - repeat constructor; discriminate.
Defined.

(** ** VictoriaMetrics reconciler: when the ready flag is cleared *)

(** X23. The VictoriaMetrics reconciler clears [failback_ready] only in a
    cycle that found both stores healthy, resolved the active site and
    found gaps; that cycle records the number of gaps and resets
    [consecutive_clean]. In particular an outage of a store or of DNS
    leaves a set flag set. *)
Theorem vm_failback_ready_cleared_only_by_gaps cfg st env st' :
  VmSync.run_sync_check cfg st env = Some st' ->
  VmSync.failback_ready st = true -> VmSync.failback_ready st' = false ->
  VmSync.local_healthy env = true /\ VmSync.remote_healthy env = true
  /\ exists active,
       VmSync.get_active_site cfg (VmSync.dns_ip env) = Some active
       /\ let gaps :=
            VmSync.find_gaps cfg
              (VmSync.determine_sync_direction cfg active
                 (VmSync.local_counts env) (VmSync.remote_counts env)).1
              (VmSync.determine_sync_direction cfg active
                 (VmSync.local_counts env) (VmSync.remote_counts env)).2 in
          gaps <> []
          /\ VmSync.gaps_detected st' = Z.of_nat (length gaps)
          /\ VmSync.consecutive_clean st' = 0.
Proof.
  unfold VmSync.run_sync_check.
  destruct (VmSync.local_healthy env); cbn [negb];
    [|intros [= <-]; cbn; congruence].
  destruct (VmSync.remote_healthy env); cbn [negb];
    [|intros [= <-]; cbn; congruence].
  destruct (VmSync.get_active_site cfg (VmSync.dns_ip env)) as [active|];
    [|intros [= <-]; cbn; congruence].
  destruct (VmSync.is_empty_dict (VmSync.local_counts env)
            && VmSync.is_empty_dict (VmSync.remote_counts env));
    [intros [= <-]; cbn; congruence|].
  destruct (VmSync.determine_sync_direction cfg active
              (VmSync.local_counts env) (VmSync.remote_counts env))
    as [source dest] eqn:Hdir.
  destruct (VmSync.find_gaps cfg source dest) as [|g gaps] eqn:Hg.
  - intros [= <-]. cbn. intros ->.
    destruct (VmSync.failback_clean_checks cfg
              <=? VmSync.consecutive_clean st + 1); discriminate.
  - destruct (VmSync.all_chunks _ _); [|discriminate].
    intros [= <-] _ _. split; [reflexivity|]. split; [reflexivity|].
    exists active. split; [reflexivity|].
    cbv zeta. rewrite Hdir. cbn [fst snd]. rewrite Hg.
    split; [discriminate|]. split; reflexivity.
Qed.

Lemma vm_failback_ready_cleared_only_by_gaps_witness :
  let env :=
    {| VmSync.stamp := "t1"; VmSync.local_healthy := true;
       VmSync.remote_healthy := true; VmSync.dns_ip := Some "10.10.10.10";
       VmSync.local_counts := {[ 300 := 4 ]};
       VmSync.remote_counts := {[ 300 := 10 ]};
       VmSync.bytes_synced := fun _ _ => 64; VmSync.stamp_sync := "t2" |} in
  VmSync.local_healthy env = true /\ VmSync.remote_healthy env = true.
Proof.
  intros env.
  pose (st := {| VmSync.last_check := None; VmSync.last_sync := None;
                 VmSync.consecutive_clean := 3;
                 VmSync.failback_ready := true;
                 VmSync.active_site := Some "primary";
                 VmSync.gaps_detected := 0; VmSync.samples_synced := 0;
                 VmSync.last_error := None |}).
  pose (st' := {| VmSync.last_check := Some "t1";
                  VmSync.last_sync := Some "t2";
                  VmSync.consecutive_clean := 0;
                  VmSync.failback_ready := false;
                  VmSync.active_site := Some "primary";
                  VmSync.gaps_detected := 1; VmSync.samples_synced := 64;
                  VmSync.last_error := None |}).
  destruct (vm_failback_ready_cleared_only_by_gaps GateScenarios.vm_cfg
              st env st') as (H1 & H2 & _).
  - vm_compute. reflexivity.
  - reflexivity.
  - reflexivity.
  - split; assumption.
Defined.
